(** * blezero: BLE environmental-sensor acquisition and buffering

    A shallow embedding of [lib/blezero.py]: the decoder table
    [DECODERS], the class [Sensor] (bounded log, auto-range, statistics,
    scaling) and the class [Device] (find / update cycle over a BLE
    transport); and of the script [demo.py] that uses them: its devices,
    [refresh_display] and one pass of the loop of [main].

    Conventions of the embedding.
    - Python numbers that the code computes with (decoded readings, range
      bounds, scale factors) are rationals [Q]; an [int] is the rational
      [inject_Z n].  Decoded readings are therefore the exact quotients
      [raw / 100] and [raw / 10]; every concrete input used below is a
      value on which binary floating point is exact as well.
    - Built-ins ([round], [min], [max], [int], [struct.unpack], indexing)
      are taken from the Python language and library reference.
    - A call that may raise returns an [outcome]; a method that mutates
      [self] is a computation in the state-and-exception monad [M].
    - The BLE stack ([aioble]) is not part of the module: one refresh
      cycle runs against a [transport] record that scripts what the stack
      answers, and leaves a list of [event]s behind.
    - The sensors handed to a device are distinct objects.
    - Of the drawing code ([draw_graph], [refresh_display]) the embedding
      keeps what reads the sensors: the bar heights and the statistics.
      The calls into the graphics library are left out. *)

From Stdlib Require Import ZArith QArith Qround Qminmax Qabs Lia Lqa.
From stdpp Require Import base list gmap strings.

Local Open Scope Z_scope.

(** ** Python prelude *)

Module Py.

(** The exceptions the module can meet. *)
Inductive exn : Type :=
| TimeoutError        (* asyncio.TimeoutError *)
| StructError         (* struct.error *)
| KeyError
| IndexError
| TypeError
| AttributeError
| ZeroDivisionError
| ValueError (msg : string).

Inductive outcome (A : Type) : Type :=
| Ret (a : A)
| Raise (e : exn).
Arguments Ret {A} a.
Arguments Raise {A} e.

Definition obind {A B} (o : outcome A) (k : A -> outcome B) : outcome B :=
  match o with
  | Ret a => k a
  | Raise e => Raise e
  end.

(** [returns o v]: the call returned normally, with a number equal to [v]. *)
Definition returns (o : outcome Q) (v : Q) : Prop :=
  match o with
  | Ret q => (q == v)%Q
  | Raise _ => False
  end.

(** State-and-exception monad: a method body run on a mutable [self].
    The state survives an exception, as mutations made before a raise do. *)
Definition M (S A : Type) : Type := S -> outcome A * S.

Definition ret {S A} (a : A) : M S A := fun s => (Ret a, s).
Definition raise {S A} (e : exn) : M S A := fun s => (Raise e, s).
Definition bind {S A B} (m : M S A) (k : A -> M S B) : M S B :=
  fun s => match m s with
           | (Ret a, s') => k a s'
           | (Raise e, s') => (Raise e, s')
           end.
Definition lift {S A} (o : outcome A) : M S A := fun s => (o, s).
Definition get {S} : M S S := fun s => (Ret s, s).
Definition gets {S A} (f : S -> A) : M S A := fun s => (Ret (f s), s).
Definition modify {S} (f : S -> S) : M S unit := fun s => (Ret tt, f s).

(** [try: body / except asyncio.TimeoutError: handler]: [None] is the
    handler's branch, every other exception passes through. *)
Definition try_timeout {S A} (body : M S A) : M S (option A) :=
  fun s => match body s with
           | (Ret a, s') => (Ret (Some a), s')
           | (Raise TimeoutError, s') => (Ret None, s')
           | (Raise e, s') => (Raise e, s')
           end.

(** [with ...: body]: [release] runs when the block is left, whether it
    returned or raised. *)
Definition with_release {S A} (release : S -> S) (body : M S A) : M S A :=
  fun s => let '(r, s') := body s in (r, release s').

(** [for x in xs: body x]. *)
Fixpoint for_each {S B} (xs : list B) (body : B -> M S unit) : M S unit :=
  match xs with
  | [] => ret tt
  | x :: rest => bind (body x) (fun _ => for_each rest body)
  end.

(** [l[i]] for an [int] index: negative indices count from the end. *)
Definition getitem {A} (l : list A) (i : Z) : outcome A :=
  let n := Z.of_nat (length l) in
  let j := if i <? 0 then i + n else i in
  if (0 <=? j) && (j <? n)
  then match l !! Z.to_nat j with
       | Some x => Ret x
       | None => Raise IndexError
       end
  else Raise IndexError.

(** [min(it, default=d)] and [max(it, default=d)]: the first smallest
    (largest) element, as [Qmin] ([Qmax]) keeps its left argument on a tie. *)
Definition min_default (l : list Q) (d : Q) : Q :=
  match l with
  | [] => d
  | x :: rest => fold_left Qmin rest x
  end.

Definition max_default (l : list Q) (d : Q) : Q :=
  match l with
  | [] => d
  | x :: rest => fold_left Qmax rest x
  end.

(** Round half to even, to an integer. *)
Definition round_half_even (x : Q) : Z :=
  let f := Qfloor x in
  match (x - inject_Z f ?= 1 # 2)%Q with
  | Lt => f
  | Gt => f + 1
  | Eq => if Z.even f then f else f + 1
  end.

(** [round(x, -1)]: the nearest multiple of ten, ties to the even one. *)
Definition round_tens (x : Q) : Q :=
  inject_Z (10 * round_half_even (x / 10)).

(** [int(x)]: truncation toward zero. *)
Definition int (x : Q) : Z :=
  if Qle_bool 0 x then Qfloor x else Qceiling x.

(** [x < y] on numbers. *)
Definition Qltb (x y : Q) : bool :=
  match (x ?= y)%Q with
  | Lt => true
  | _ => false
  end.

End Py.
Import Py.

Declare Scope py_scope.
Delimit Scope py_scope with py.
Notation "x <- m ;; k" := (bind m (fun x => k))
  (at level 100, m at next level, right associativity) : py_scope.
Notation "m ;; k" := (bind m (fun _ => k))
  (at level 100, right associativity) : py_scope.

(** ** [struct.unpack("<h", data)] *)

Definition byte_val (b : Byte.byte) : Z := Z.of_N (Byte.to_N b).

(** Two bytes, low byte first, read as a two's-complement 16-bit integer.
    The library reference asks for a buffer of exactly the size of the
    format; any other length is a [struct.error]. *)
Definition unpack_h (data : list Byte.byte) : outcome Z :=
  match data with
  | [b0; b1] =>
      let u := Z.lor (byte_val b0) (Z.shiftl (byte_val b1) 8) in
      Ret (if Z.testbit u 15 then u - 65536 else u)
  | _ => Raise StructError
  end.

(** The little-endian 16-bit encoding of [raw] (what the peripheral sends). *)
Definition byte_of_Z (z : Z) : Byte.byte :=
  match Byte.of_N (Z.to_N (z mod 256)) with
  | Some b => b
  | None => Byte.x00
  end.

Definition le16 (raw : Z) : list Byte.byte :=
  [byte_of_Z (Z.land raw 255); byte_of_Z (Z.land (Z.shiftr raw 8) 255)].

(** ** Characteristic identifiers and decoders *)

Definition ENVIRONMENTAL_SENSING : Z := 0x181A.

Definition TEMPERATURE : Z := 0x2A6E.
Definition PRESSURE : Z := 0x2A6D.
Definition HUMIDITY : Z := 0x2A6F.
Definition IRRADIANCE : Z := 0x2A77.

Definition decoder : Type := list Byte.byte -> outcome Q.

Definition _decode_temperature : decoder :=
  fun data => obind (unpack_h data) (fun raw => Ret (inject_Z raw / 100)%Q).

Definition _decode_light : decoder :=
  fun data => obind (unpack_h data) (fun raw => Ret (inject_Z raw / 10)%Q).

Definition _decode_pressure : decoder :=
  fun data => obind (unpack_h data) (fun raw => Ret (inject_Z raw / 10)%Q).

Definition _decode_humidity : decoder :=
  fun data => obind (unpack_h data) (fun raw => Ret (inject_Z raw / 100)%Q).

Definition DECODERS : gmap Z decoder :=
  <[TEMPERATURE := _decode_temperature]>
    (<[PRESSURE := _decode_pressure]>
       (<[HUMIDITY := _decode_humidity]>
          (<[IRRADIANCE := _decode_light]> ∅))).

(** ** The transport, as far as a sensor sees it *)

(** A GATT characteristic: [read] is what [await characteristic.read()]
    gives in this cycle. *)
Record characteristic : Type := { read : outcome (list Byte.byte) }.

(** ** class Sensor *)

Module Sensor.

Local Open Scope py_scope.

Record t : Type := mk {
  caption : string;
  uuid : Z;
  _length : Z;
  dlog : list (option Q);
  dptr : nat;
  decode : decoder;
  lower : Q;
  upper : Q;
  autorange : bool
}.

Definition set_dlog (s : t) (l : list (option Q)) : t :=
  mk (caption s) (uuid s) (_length s) l (dptr s) (decode s)
     (lower s) (upper s) (autorange s).
Definition set_dptr (s : t) (p : nat) : t :=
  mk (caption s) (uuid s) (_length s) (dlog s) p (decode s)
     (lower s) (upper s) (autorange s).
Definition set_lower (s : t) (q : Q) : t :=
  mk (caption s) (uuid s) (_length s) (dlog s) (dptr s) (decode s)
     q (upper s) (autorange s).
Definition set_upper (s : t) (q : Q) : t :=
  mk (caption s) (uuid s) (_length s) (dlog s) (dptr s) (decode s)
     (lower s) q (autorange s).

(** [__init__(caption, samples, uuid, drange=None)].  The constructor also
    prints the decoder it picked; that line is left out. *)
Definition __init__ (caption : string) (samples : Z) (uuid : Z)
    (drange : option (Q * Q)) : outcome t :=
  match DECODERS !! uuid with
  | None => Raise KeyError
  | Some d =>
      Ret {| caption := caption;
             uuid := uuid;
             _length := samples;
             dlog := replicate (Z.to_nat samples) None;
             dptr := 0;
             decode := d;
             lower := match drange with Some (lo, _) => lo | None => 0 end;
             upper := match drange with Some (_, hi) => hi | None => 1 end;
             autorange := match drange with Some _ => false | None => true end |}
  end.

(** [(x for x in self.dlog if x is not None)]. *)
Definition present (l : list (option Q)) : list Q := omap id l.

(** [self.dlog[i]] read and written with a non-negative index. *)
Definition dlog_get (i : nat) : M t (option Q) :=
  fun s => match dlog s !! i with
           | Some x => (Ret x, s)
           | None => (Raise IndexError, s)
           end.

Definition dlog_set (i : nat) (x : option Q) : M t unit :=
  fun s => if (i <? length (dlog s))%nat
           then (Ret tt, set_dlog s (<[i := x]> (dlog s)))
           else (Raise IndexError, s).

(** [update(characteristic)]. *)
Definition update (ch : characteristic) : M t unit :=
  value <- lift (read ch) ;;
  self <- get ;;
  value <- lift (decode self value) ;;
  (if autorange self then
     modify (fun s => set_lower s (min_default (present (dlog s)) 0)) ;;
     modify (fun s => set_lower s
       (inject_Z (int (round_tens (Qmin (lower s) (value / 2)))))) ;;
     modify (fun s => set_upper s (max_default (present (dlog s)) 1)) ;;
     modify (fun s => set_upper s
       (inject_Z (int (round_tens (Qmax (upper s) (value * 2))))))
   else ret tt) ;;
  self <- get ;;
  dlog_set (dptr self) (Some value) ;;
  if Z.of_nat (dptr self) =? _length self - 1 then
    for_each (seq 1 (Z.to_nat (_length self - 1)))
      (fun i => x <- dlog_get i ;; dlog_set (i - 1) x)
  else
    modify (fun s => set_dptr s (S (dptr s))).

(** [self.dlog.index(None)]. *)
Fixpoint index_None (l : list (option Q)) : option nat :=
  match l with
  | [] => None
  | None :: _ => Some 0%nat
  | Some _ :: rest => S <$> index_None rest
  end.

(** The [length] property. *)
Definition length (s : t) : Z :=
  match index_None (dlog s) with
  | Some i => Z.of_nat i
  | None => _length s
  end.

(** What [min_max_avg] returns: the bare [0] of its first branch, or the
    tuple of its last line.  [min_reading] starts as [self.dlog[0]], a
    slot, so it is carried as one. *)
Inductive stats : Type :=
| Scalar (z : Z)
| Triple (avg max_reading : Q) (min_reading : option Q).

(** One turn of [for i in range(self.dptr)]; comparing a number with
    [None] is a [TypeError]. *)
Definition stats_step (l : list (option Q))
    (acc : outcome (Q * Q * option Q)) (i : nat)
    : outcome (Q * Q * option Q) :=
  obind acc (fun '(v, max_reading, min_reading) =>
    obind (getitem l (Z.of_nat i)) (fun slot =>
      match slot with
      | None => Raise TypeError
      | Some x =>
          if Qltb max_reading x then Ret (v + x, x, min_reading)%Q
          else match min_reading with
               | None => Raise TypeError
               | Some m =>
                   if Qltb x m then Ret (v + x, max_reading, Some x)%Q
                   else Ret (v + x, max_reading, min_reading)%Q
               end
      end)).

Definition min_max_avg (s : t) : outcome stats :=
  if (dptr s =? 0)%nat then Ret (Scalar 0)
  else
    obind (getitem (dlog s) 0) (fun min_reading =>
      obind (fold_left (stats_step (dlog s)) (seq 0 (dptr s))
               (Ret (0, 0, min_reading)%Q))
        (fun '(v, max_reading, min_reading) =>
           Ret (Triple (v / inject_Z (Z.of_nat (dptr s))) max_reading
                  min_reading))).

(** [get_scaled(index, scale=1.0)]. *)
Definition get_scaled (s : t) (index : Z) (scale : Q) : outcome Q :=
  obind (getitem (dlog s) index) (fun value =>
    match value with
    | None => Raise (ValueError "Unpopulated reading")
    | Some value =>
        let value := Qmin (upper s) value in
        let value := Qmax (lower s) value in
        let value := (value - lower s)%Q in
        if Qeq_bool (upper s - lower s) 0 then Raise ZeroDivisionError
        else
          let value := (value / (upper s - lower s))%Q in
          Ret (value * scale)%Q
    end).

(** [get_current_reading()]: [None] stands for the text "No reading yet". *)
Definition get_current_reading (s : t) : outcome (option Q) :=
  getitem (dlog s) (Z.of_nat (dptr s) - 1).

(** The statement [gavg, gmax, gmin = self.min_max_avg()] of
    [draw_graph]: unpacking a bare [int] is a [TypeError]. *)
Definition draw_graph_stats (s : t) : outcome (Q * Q * option Q) :=
  obind (min_max_avg s) (fun r =>
    match r with
    | Scalar _ => Raise TypeError
    | Triple gavg gmax gmin => Ret (gavg, gmax, gmin)
    end).

(** The bars of [draw_graph]: [int(self.get_scaled(i, h - 30))] for the
    slots from [start_reading] to [end_reading]. *)
Definition draw_graph_bars (s : t) (w h bar_width bar_margin : Z)
    : outcome (list Z) :=
  let bar_spacing := bar_width + bar_margin in
  if bar_spacing =? 0 then Raise ZeroDivisionError
  else
    let end_reading := length s in
    let start_reading :=
      Z.max 0 (length s - int (inject_Z w / inject_Z bar_spacing)) in
    fold_left
      (fun acc i =>
         obind acc (fun bars =>
           obind (get_scaled s (start_reading + Z.of_nat i)
                    (inject_Z (h - 30)))
             (fun r => Ret (bars ++ [int r]))))
      (seq 0 (Z.to_nat (end_reading - start_reading)))
      (Ret []).

(** [draw_graph(...)], as far as it reads the sensor: the bars first, the
    statistics after them.  The drawing calls themselves are left out. *)
Definition draw_graph (s : t) (w h bar_width bar_margin : Z)
    : outcome (list Z * (Q * Q * option Q)) :=
  obind (draw_graph_bars s w h bar_width bar_margin) (fun bars =>
    obind (draw_graph_stats s) (fun st => Ret (bars, st))).

End Sensor.


(** ** The BLE stack, scripted for one cycle *)

(** The service object: [characteristic] is what
    [await service.characteristic(uuid)] gives. *)
Record gatt_service : Type :=
  { characteristic_of : Z -> outcome characteristic }.

(** The connection object: [service_of] is what
    [await connection.service(uuid)] gives ([None] when the peripheral does
    not offer the service). *)
Record connection : Type :=
  { service_of : Z -> outcome (option gatt_service) }.

(** One scan result: [result.name()], [result.services()] and
    [result.device], the handle [find] caches. *)
Record advertisement : Type := {
  adv_name : string;
  adv_services : list Z;
  adv_device : nat
}.

(** What the stack answers in one cycle: the results the 5000 ms scan
    yields, in order, and what [await device.connect()] gives. *)
Record transport : Type := {
  scan : list advertisement;
  connect_to : nat -> outcome connection
}.

Inductive message : Type :=
| Text (s : string)
| Updating (name : string)
| ScanResult (a : advertisement)
| UpdateSensor (caption : string) (uuid : Z).

(** What one cycle does to the outside world, in order. *)
Inductive event : Type :=
| Printed (m : message)
| Scanned
| ConnectCalled (device : nat)
| ServiceCalled (uuid : Z)
| Acquired                       (* [async with connection]: entered *)
| Released                       (* [async with connection]: left, link closed *)
| CharacteristicCalled (uuid : Z)
| ReadCalled (uuid : Z)
| Slept (ms : Z).

(** ** class Device *)

Module Device.

Local Open Scope py_scope.

Record t : Type := mk {
  uuid : Z;
  name : string;
  sensors : list Sensor.t;
  device : option nat
}.

(** [__init__(name, *args)]. *)
Definition __init__ (name : string) (args : list Sensor.t) : t :=
  {| uuid := ENVIRONMENTAL_SENSING; name := name; sensors := args;
     device := None |}.

(** The state a cycle runs on: the object and the events so far. *)
Record world : Type := World { self : t; trace : list event }.

Definition emit (e : event) : M world unit :=
  modify (fun w => World (self w) (trace w ++ [e])).

Definition set_device (d : option nat) : M world unit :=
  modify (fun w =>
    World (mk (uuid (self w)) (name (self w)) (sensors (self w)) d) (trace w)).

(** Run a method of the [i]-th sensor object on that object. *)
Definition on_sensor {A} (i : nat) (m : M Sensor.t A) : M world A :=
  fun w =>
    match sensors (self w) !! i with
    | None => (Raise IndexError, w)
    | Some s =>
        let '(r, s') := m s in
        (r, World (mk (uuid (self w)) (name (self w))
                      (<[i := s']> (sensors (self w))) (device (self w)))
                  (trace w))
    end.

(** The body of [async for result in scanner]. *)
Fixpoint scan_loop (results : list advertisement) : M world (option nat) :=
  match results with
  | [] => gets (fun w => device (self w))
  | result :: rest =>
      emit (Printed (ScanResult result)) ;;
      me <- gets self ;;
      if String.eqb (adv_name result) (name me)
         && bool_decide (uuid me ∈ adv_services result)
      then
        set_device (Some (adv_device result)) ;;
        gets (fun w => device (self w))
      else scan_loop rest
  end.

(** [find()]. *)
Definition find (T : transport) : M world (option nat) :=
  me <- gets self ;;
  match device me with
  | None => emit Scanned ;; scan_loop (scan T)
  | Some _ => gets (fun w => device (self w))
  end.

(** The body of [for sensor in self.sensors], for the [i]-th sensor. *)
Definition update_sensor (service : gatt_service) (i : nat) : M world unit :=
  sensor <- on_sensor i get ;;
  found <- try_timeout
    (emit (CharacteristicCalled (Sensor.uuid sensor)) ;;
     characteristic <- lift (characteristic_of service (Sensor.uuid sensor)) ;;
     emit (Printed (UpdateSensor (Sensor.caption sensor) (Sensor.uuid sensor))) ;;
     ret characteristic) ;;
  match found with
  | None =>
      emit (Printed (Text "Timeout discovering services/characteristics"))
  | Some characteristic =>
      emit (ReadCalled (Sensor.uuid sensor)) ;;
      on_sensor i (Sensor.update characteristic) ;;
      emit (Slept 10)
  end.

(** [update()]. *)
Definition update (T : transport) : M world unit :=
  me <- gets self ;;
  emit (Printed (Updating (name me))) ;;
  device <- find T ;;
  connected <- try_timeout
    (match device with
     | None => raise AttributeError
     | Some d => emit (ConnectCalled d) ;; lift (connect_to T d)
     end) ;;
  match connected with
  | None => emit (Printed (Text "Timeout during connection"))
  | Some connection =>
      emit (Printed (Text "Connected...")) ;;
      emit (ServiceCalled ENVIRONMENTAL_SENSING) ;;
      service <- lift (service_of connection ENVIRONMENTAL_SENSING) ;;
      match service with
      | None =>
          emit (Printed (Text "Could not find ENVIRONMENTAL_SENSING service"))
      | Some service =>
          emit Acquired ;;
          with_release (fun w => World (self w) (trace w ++ [Released]))
            (me <- gets self ;;
             for_each (seq 0 (length (sensors me))) (update_sensor service))
      end
  end.

(** One cycle from a device object, with an empty event list. *)
Definition run_update (T : transport) (d : t) : outcome unit * world :=
  update T (World d []).

Definition is_release (e : event) : bool :=
  match e with
  | Released => true
  | _ => false
  end.

(** How often the connection was closed in a trace. *)
Definition releases (tr : list event) : nat :=
  length (List.filter is_release tr).

Definition is_acquire (e : event) : bool :=
  match e with
  | Acquired => true
  | _ => false
  end.

(** How often the [async with] block was entered in a trace. *)
Definition acquisitions (tr : list event) : nat :=
  length (List.filter is_acquire tr).

End Device.


(** * Reference forms and scenarios *)

(** ** One [update] in closed form *)

(** The sensor after the auto-range block of [update], for the decoded
    reading [v]. *)
Definition reranged (s : Sensor.t) (v : Q) : Sensor.t :=
  if Sensor.autorange s then
    Sensor.set_upper
      (Sensor.set_lower s
         (inject_Z (int (round_tens
            (Qmin (min_default (Sensor.present (Sensor.dlog s)) 0) (v / 2))))))
      (inject_Z (int (round_tens
         (Qmax (max_default (Sensor.present (Sensor.dlog s)) 1) (v * 2)))))
  else s.

(** The body of the shift loop of [update]. *)
Definition shift_body (i : nat) : M Sensor.t unit :=
  bind (Sensor.dlog_get i) (fun x => Sensor.dlog_set (i - 1) x).

(** The log after the shift loop: every slot takes the value of its right
    neighbour, the last slot keeps its own. *)
Definition shifted (l : list (option Q)) : list (option Q) :=
  match l with
  | [] => []
  | x :: rest => rest ++ [List.last rest x]
  end.

(** ** Any number of readings *)

(** [update] once per characteristic, in order, on one sensor. *)
Definition updates (chs : list characteristic) : M Sensor.t unit :=
  for_each chs Sensor.update.

(** The characteristic [ch] reads bytes that [d] decodes to [v]. *)
Definition reads_as (d : decoder) (ch : characteristic) (v : Q) : Prop :=
  exists raw, read ch = Ret raw /\ d raw = Ret v.

(** The log the code holds after the readings [vs] were recorded, oldest
    first, into [n] slots: while [vs] is shorter than [n], the readings
    followed by empty slots; from then on the last [n - 1] readings
    followed by a second copy of the newest one. *)
Definition log_after (n : nat) (vs : list Q) : list (option Q) :=
  if (length vs <? n)%nat
  then (Some <$> vs) ++ replicate (n - length vs) None
  else (Some <$> drop (length vs - (n - 1)) vs) ++ [Some (List.last vs 0%Q)].

(** [s] is a sensor of [n] slots with decoder [d] that has recorded [vs]. *)
Definition tracks (n : nat) (d : decoder) (vs : list Q) (s : Sensor.t) : Prop :=
  Sensor._length s = Z.of_nat n /\
  Sensor.decode s = d /\
  Sensor.dptr s = Nat.min (length vs) (n - 1) /\
  Sensor.dlog s = log_after n vs.

(** ** Statistics and scaling *)

(** One turn of the loop of [min_max_avg] on a populated slot [x], on the
    running sum, maximum and minimum. *)
Definition stats_turn (acc : Q * Q * Q) (x : Q) : Q * Q * Q :=
  let '(v, max_reading, min_reading) := acc in
  if Qltb max_reading x then (v + x, x, min_reading)%Q
  else if Qltb x min_reading then (v + x, max_reading, x)%Q
  else (v + x, max_reading, min_reading)%Q.

Definition Qsum (xs : list Q) : Q := fold_right Qplus 0%Q xs.

(** What the loop has established after the readings [seen]. *)
Definition stats_seen (seen : list Q) (acc : Q * Q * Q) : Prop :=
  let '(v, max_reading, min_reading) := acc in
  (v == Qsum seen)%Q /\
  Forall (fun x => (min_reading <= x <= max_reading)%Q) seen /\
  In min_reading seen /\
  (In max_reading seen \/ max_reading = 0%Q) /\
  (0 <= max_reading)%Q.

(** The value [get_scaled] computes from a stored reading [v] once the
    division is defined: clamp into [lo, hi], normalise, multiply. *)
Definition scaled_value (lo hi v scale : Q) : Q :=
  ((Qmax lo (Qmin hi v) - lo) / (hi - lo) * scale)%Q.

(** ** Accounting for one cycle *)

(** The buffers of a device's sensors, in order: log, cursor, bounds. *)
Definition buffers (d : Device.t) : list (list (option Q) * nat * Q * Q) :=
  (fun s => (Sensor.dlog s, Sensor.dptr s, Sensor.lower s, Sensor.upper s))
    <$> Device.sensors d.

(** The advertisement is one [find] accepts for the device [d]. *)
Definition matches (d : Device.t) (a : advertisement) : bool :=
  String.eqb (adv_name a) (Device.name d)
  && bool_decide (Device.uuid d ∈ adv_services a).

(** The computation [m] adds [a] entries and [r] exits of the [async with]
    block to the trace, for some [a] and [r] that satisfy [P]. *)
Definition adds {A} (m : M Device.world A) (P : nat -> nat -> Prop) : Prop :=
  forall w, exists a r,
    Device.acquisitions (Device.trace (snd (m w)))
      = (Device.acquisitions (Device.trace w) + a)%nat /\
    Device.releases (Device.trace (snd (m w)))
      = (Device.releases (Device.trace w) + r)%nat /\
    P a r.

(** The computation neither enters nor leaves the [async with] block. *)
Definition quiet {A} (m : M Device.world A) : Prop :=
  adds m (fun a r => a = 0%nat /\ r = 0%nat).

(** ** Scenarios: sensors *)

(** A characteristic whose read gives the encoding of [raw], and one whose
    read times out. *)
Definition reading (raw : Z) : characteristic := {| read := Ret (le16 raw) |}.
Definition silent : characteristic := {| read := Raise TimeoutError |}.

(** The sensor after [update] was called once per raw value, in order. *)
Definition recorded (s : Sensor.t) (raws : list Z) : Sensor.t :=
  snd (updates (reading <$> raws) s).

(** What [Sensor("Temp", 3, TEMPERATURE)] constructs: three empty slots,
    auto-range on. *)
Definition fresh_temp : Sensor.t :=
  Sensor.mk "Temp" TEMPERATURE 3 [None; None; None] 0
    _decode_temperature 0 1 true.

(** What [Sensor("Temp", 2, TEMPERATURE, drange=(0, 100))] constructs. *)
Definition two_slots : Sensor.t :=
  Sensor.mk "Temp" TEMPERATURE 2 [None; None] 0 _decode_temperature 0 100 false.

(** What [Sensor("Temp", 1, TEMPERATURE, drange=(0, 100))] constructs. *)
Definition one_slot : Sensor.t :=
  Sensor.mk "Temp" TEMPERATURE 1 [None] 0 _decode_temperature 0 100 false.

(** The first two sensors of the demo's devices, with three slots each. *)
Definition temp_sensor : Sensor.t :=
  Sensor.mk "Temp" TEMPERATURE 3 [None; None; None] 0
    _decode_temperature 20 40 false.

Definition humidity_sensor : Sensor.t :=
  Sensor.mk "Humidity" HUMIDITY 3 [None; None; None] 0
    _decode_humidity 0 100 false.

(** A half-filled temperature log with the fixed range 20..40 of the demo;
    the second reading lies above the range. *)
Definition demo_temp : Sensor.t :=
  Sensor.mk "Temp" TEMPERATURE 3 [Some 25.00%Q; Some 150.00%Q; None] 2
    _decode_temperature 20 40 false.

(** ** Scenarios: the device and what answers it *)

Definition station : Device.t :=
  Device.__init__ "enviro-indoor" [temp_sensor; humidity_sensor].

(** A peripheral that advertises the name and the service looked for. *)
Definition enviro : advertisement :=
  {| adv_name := "enviro-indoor";
     adv_services := [ENVIRONMENTAL_SENSING];
     adv_device := 1%nat |}.

(** Nothing in range answers the scan. *)
Definition nobody_there : transport :=
  {| scan := []; connect_to := fun _ => Raise TimeoutError |}.

(** The peripheral connects but does not offer the service. *)
Definition without_service : transport :=
  {| scan := [enviro];
     connect_to := fun _ => Ret {| service_of := fun _ => Ret None |} |}.

(** The peripheral offers the service with the given characteristics. *)
Definition serving (chars : Z -> outcome characteristic) : transport :=
  {| scan := [enviro];
     connect_to := fun _ =>
       Ret {| service_of := fun _ =>
                Ret (Some {| characteristic_of := chars |}) |} |}.

(** Resolving temperature times out; humidity reads 40.00. *)
Definition resolution_times_out (u : Z) : outcome characteristic :=
  if u =? TEMPERATURE then Raise TimeoutError else Ret (reading 4000).

(** Temperature resolves but its read times out; humidity reads 40.00. *)
Definition read_times_out (u : Z) : outcome characteristic :=
  if u =? TEMPERATURE then Ret silent else Ret (reading 4000).

(** Temperature resolves but sends a single byte; humidity reads 40.00. *)
Definition malformed (u : Z) : outcome characteristic :=
  if u =? TEMPERATURE
  then Ret {| read := Ret [Byte.x01] |}
  else Ret (reading 4000).

(** ** What stays as constructed *)

(** [s'] has the caption, identifier, capacity, decoder and auto-range
    flag of [s], and as many slots. *)
Definition same_config (s s' : Sensor.t) : Prop :=
  Sensor.caption s' = Sensor.caption s /\
  Sensor.uuid s' = Sensor.uuid s /\
  Sensor._length s' = Sensor._length s /\
  Sensor.decode s' = Sensor.decode s /\
  Sensor.autorange s' = Sensor.autorange s /\
  length (Sensor.dlog s') = length (Sensor.dlog s).

(** The readings [min_max_avg] runs over after [vs] were recorded into [n]
    slots: the last [min (length vs) (n - 1)] of them. *)
Definition window (n : nat) (vs : list Q) : list Q :=
  drop (length vs - Nat.min (length vs) (n - 1)) vs.

(** ** One cycle in closed form *)

Definition with_device (d : Device.t) (h : option nat) : Device.t :=
  Device.mk (Device.uuid d) (Device.name d) (Device.sensors d) h.

Definition with_sensors (d : Device.t) (l : list Sensor.t) : Device.t :=
  Device.mk (Device.uuid d) (Device.name d) l (Device.device d).

(** The lines [find] prints for the scan results [l]. *)
Definition printed_results (l : list advertisement) : list event :=
  (fun a => Printed (ScanResult a)) <$> l.

(** [find] on the device [d] gives the handle [h], leaves the device as
    [d1] and adds the events [evs]: the handle was cached, or the scan
    yields a first advertisement that matches. *)
Definition locates (T : transport) (d : Device.t) (h : nat)
    (d1 : Device.t) (evs : list event) : Prop :=
  (Device.device d = Some h /\ d1 = d /\ evs = []) \/
  (Device.device d = None /\
   exists pre a post,
     scan T = pre ++ a :: post /\
     Forall (fun x => matches d x = false) pre /\
     matches d a = true /\
     h = adv_device a /\
     d1 = with_device d (Some h) /\
     evs = Scanned :: printed_results (pre ++ [a])).

(** What the body of the sensor loop does to one sensor, and how it ends:
    a characteristic that times out is passed over, any other exception of
    the resolution, of the read or of the decoding ends the loop. *)
Definition serviced (svc : gatt_service) (s : Sensor.t)
    : Sensor.t * outcome unit :=
  match characteristic_of svc (Sensor.uuid s) with
  | Raise TimeoutError => (s, Ret tt)
  | Raise e => (s, Raise e)
  | Ret ch => (snd (Sensor.update ch s), fst (Sensor.update ch s))
  end.

(** The events of the body of the sensor loop for one sensor. *)
Definition sensor_events (svc : gatt_service) (s : Sensor.t) : list event :=
  CharacteristicCalled (Sensor.uuid s) ::
  match characteristic_of svc (Sensor.uuid s) with
  | Raise TimeoutError =>
      [Printed (Text "Timeout discovering services/characteristics")]
  | Raise _ => []
  | Ret ch =>
      Printed (UpdateSensor (Sensor.caption s) (Sensor.uuid s)) ::
      ReadCalled (Sensor.uuid s) ::
      match fst (Sensor.update ch s) with
      | Ret _ => [Slept 10]
      | Raise _ => []
      end
  end.

(** The sensor loop over a list of sensors: the sensors after it, its
    events, and how it ends. *)
Fixpoint service_all (svc : gatt_service) (l : list Sensor.t)
    : list Sensor.t * list event * outcome unit :=
  match l with
  | [] => ([], [], Ret tt)
  | s :: rest =>
      match snd (serviced svc s) with
      | Ret _ =>
          let '(rest', evs, r) := service_all svc rest in
          (fst (serviced svc s) :: rest', sensor_events svc s ++ evs, r)
      | Raise e =>
          (fst (serviced svc s) :: rest, sensor_events svc s, Raise e)
      end
  end.

(** The events a cycle adds between the lookup of the device and the
    sensor loop, once connection and service are there. *)
Definition opening (h : nat) : list event :=
  [ ConnectCalled h;
    Printed (Text "Connected...");
    ServiceCalled ENVIRONMENTAL_SENSING;
    Acquired ].

Definition is_sleep (e : event) : bool :=
  match e with
  | Slept _ => true
  | _ => false
  end.

Definition is_read (e : event) : bool :=
  match e with
  | ReadCalled _ => true
  | _ => false
  end.

(** Two advertisements [find] passes over, for another name and for
    another service, and a scan that yields them before the peripheral
    looked for and once more after it. *)
Definition stranger : advertisement :=
  {| adv_name := "enviro-weather";
     adv_services := [ENVIRONMENTAL_SENSING];
     adv_device := 2%nat |}.

Definition other_service : advertisement :=
  {| adv_name := "enviro-indoor"; adv_services := [0x180F]; adv_device := 3%nat |}.

Definition crowded (chars : Z -> outcome characteristic) : transport :=
  {| scan := [stranger; other_service; enviro; stranger];
     connect_to := connect_to (serving chars) |}.

(** The peripheral answers the scan but the connection times out. *)
Definition out_of_reach : transport :=
  {| scan := [enviro]; connect_to := fun _ => Raise TimeoutError |}.

(** What the body of the sensor loop adds to the trace for a sensor it
    passes over, and for a sensor it reads. *)
Definition passed_over (s : Sensor.t) : list event :=
  [ CharacteristicCalled (Sensor.uuid s);
    Printed (Text "Timeout discovering services/characteristics") ].

Definition read_and_slept (s : Sensor.t) : list event :=
  [ CharacteristicCalled (Sensor.uuid s);
    Printed (UpdateSensor (Sensor.caption s) (Sensor.uuid s));
    ReadCalled (Sensor.uuid s);
    Slept 10 ].

(** [d'] has the name and the service identifier of [d] and sensors of the
    same configuration, in the same order; a handle cached in [d] is
    cached in [d']. *)
Definition same_device (d d' : Device.t) : Prop :=
  Device.name d' = Device.name d /\
  Device.uuid d' = Device.uuid d /\
  Forall2 same_config (Device.sensors d) (Device.sensors d') /\
  (forall h, Device.device d = Some h -> Device.device d' = Some h).

(** The computation leaves every device it runs on as [same_device]. *)
Definition steady {A} (m : M Device.world A) : Prop :=
  forall w, same_device (Device.self w) (Device.self (snd (m w))).

(** * The demo script *)

Module Demo.

(** [devices]: two devices of four sensors each, constructed when the
    script is loaded, the arguments from left to right. *)
Definition devices : outcome (list Device.t) :=
  obind (Sensor.__init__ "Light" 160 IRRADIANCE (Some (0, 150)%Q)) (fun l0 =>
  obind (Sensor.__init__ "Temp" 160 TEMPERATURE (Some (20, 40)%Q)) (fun t0 =>
  obind (Sensor.__init__ "Pressure" 160 PRESSURE (Some (1000, 1100)%Q)) (fun p0 =>
  obind (Sensor.__init__ "Humidity" 160 HUMIDITY (Some (0, 100)%Q)) (fun h0 =>
  obind (Sensor.__init__ "Light" 160 IRRADIANCE (Some (0, 150)%Q)) (fun l1 =>
  obind (Sensor.__init__ "Temp" 160 TEMPERATURE (Some (20, 40)%Q)) (fun t1 =>
  obind (Sensor.__init__ "Pressure" 160 PRESSURE (Some (1000, 1100)%Q)) (fun p1 =>
  obind (Sensor.__init__ "Humidity" 160 HUMIDITY (Some (0, 100)%Q)) (fun h1 =>
  Ret [ Device.__init__ "enviro-indoor" [l0; t0; p0; h0];
        Device.__init__ "enviro-weather" [l1; t1; p1; h1] ])))))))).

(** [devices[d].sensors[i]] for the constant indices of the script. *)
Definition sensor_at (devices : list Device.t) (d i : nat)
    : outcome Sensor.t :=
  match devices !! d with
  | None => Raise IndexError
  | Some dev =>
      match Device.sensors dev !! i with
      | None => Raise IndexError
      | Some s => Ret s
      end
  end.

(** What one [draw_graph] call computes from its sensor: the bar heights
    and the statistics. *)
Definition panel : Type := (list Z * (Q * Q * option Q))%type.

(** The eight [draw_graph] calls of [refresh_display], in order: the index
    of the device and the index of the sensor. *)
Definition calls : list (nat * nat) :=
  [ (0, 0); (0, 1); (0, 2); (0, 3); (1, 0); (1, 1); (1, 2); (1, 3) ]%nat.

(** [devices[d].sensors[i].draw_graph(graphics, _, _, GW, GH, _, _)] for
    the calls [cs], one after the other; bar width and margin are the
    defaults 4 and 2. *)
Fixpoint draw_each (devices : list Device.t) (GW GH : Z)
    (cs : list (nat * nat)) : outcome (list panel) :=
  match cs with
  | [] => Ret []
  | (d, i) :: rest =>
      obind (sensor_at devices d i) (fun s =>
        obind (Sensor.draw_graph s GW GH 4 2) (fun p =>
          obind (draw_each devices GW GH rest) (fun ps => Ret (p :: ps))))
  end.

(** [refresh_display()], as far as it reads the sensors; [WIDTH] and
    [HEIGHT] are the bounds the display reported. *)
Definition refresh_display (WIDTH HEIGHT : Z) (devices : list Device.t)
    : outcome (list panel) :=
  let W := WIDTH / 2 in
  let H := HEIGHT / 4 in
  let GW := W - 4 in
  let GH := H - 4 in
  draw_each devices GW GH calls.

(** [for device in devices: await device.update()]: the cycles one after
    the other; [answers i] is what the stack answers in the cycle of the
    [i]-th device.  An exception ends the loop; the events of the cycles
    follow one another. *)
Fixpoint update_each (answers : nat -> transport) (i : nat)
    (todo : list Device.t) : outcome unit * list Device.t * list event :=
  match todo with
  | [] => (Ret tt, [], [])
  | d :: rest =>
      let w := snd (Device.run_update (answers i) d) in
      match fst (Device.run_update (answers i) d) with
      | Ret _ =>
          let next := update_each answers (S i) rest in
          (fst (fst next), Device.self w :: snd (fst next),
           Device.trace w ++ snd next)
      | Raise e => (Raise e, Device.self w :: rest, Device.trace w)
      end
  end.

(** The body of [while True] in [main]: a cycle for every device, the
    display, the pause of one second. *)
Definition main_pass (WIDTH HEIGHT : Z) (answers : nat -> transport)
    (devices : list Device.t)
    : outcome (list panel) * list Device.t * list event :=
  let cycled := update_each answers 0 devices in
  match fst (fst cycled) with
  | Raise e => (Raise e, snd (fst cycled), snd cycled)
  | Ret _ =>
      match refresh_display WIDTH HEIGHT (snd (fst cycled)) with
      | Raise e => (Raise e, snd (fst cycled), snd cycled)
      | Ret panels => (Ret panels, snd (fst cycled), snd cycled ++ [Slept 1000])
      end
  end.

End Demo.

(** ** Sensors the display can and cannot draw *)

(** The log of [s] has as many slots as its capacity says and begins with
    the [dptr >= 1] readings [min_max_avg] runs over, and the range of [s]
    is not empty. *)
Definition drawable (s : Sensor.t) : Prop :=
  Sensor._length s = Z.of_nat (length (Sensor.dlog s)) /\
  (Sensor.lower s < Sensor.upper s)%Q /\
  exists xs rest,
    xs <> [] /\
    Sensor.dlog s = (Some <$> xs) ++ rest /\
    Sensor.dptr s = length xs.

(** Nothing was recorded into [s]: the cursor is at 0 and [length] is 0. *)
Definition unread (s : Sensor.t) : Prop :=
  Sensor.dptr s = 0%nat /\ Sensor.length s = 0.

(** Two devices of four half-filled temperature logs each. *)
Definition half_filled : list Device.t :=
  [ Device.__init__ "enviro-indoor" [demo_temp; demo_temp; demo_temp; demo_temp];
    Device.__init__ "enviro-weather" [demo_temp; demo_temp; demo_temp; demo_temp] ].

(** The same, with a sensor that never recorded anything as the third
    sensor of the first device. *)
Definition one_unread : list Device.t :=
  [ Device.__init__ "enviro-indoor" [demo_temp; demo_temp; temp_sensor; demo_temp];
    Device.__init__ "enviro-weather" [demo_temp; demo_temp; demo_temp; demo_temp] ].

(** The stack answers everything a cycle of [d] asks for: the scan yields
    an advertisement that matches, the connection to its device and the
    service are there, and for every sensor the characteristic resolves,
    its read returns and the bytes decode. *)
Definition answers_all (T : transport) (d : Device.t) : Prop :=
  exists pre a post c svc,
    scan T = pre ++ a :: post /\
    Forall (fun x => matches d x = false) pre /\
    matches d a = true /\
    connect_to T (adv_device a) = Ret c /\
    service_of c ENVIRONMENTAL_SENSING = Ret (Some svc) /\
    Forall (fun s => exists ch raw v,
              characteristic_of svc (Sensor.uuid s) = Ret ch /\
              read ch = Ret raw /\
              Sensor.decode s raw = Ret v)
           (Device.sensors d).

(** What a constructor call with two or more slots and a fixed range
    [lo < hi] returns. *)
Definition fresh_fixed (s : Sensor.t) : Prop :=
  exists c n u lo hi,
    (2 <= n)%nat /\ (lo < hi)%Q /\
    Sensor.__init__ c (Z.of_nat n) u (Some (lo, hi)) = Ret s.

(** ** Scenarios: the script's devices *)

(** What the constructor calls of the script build: 160 empty slots and a
    fixed range each. *)
Definition script_light : Sensor.t :=
  Sensor.mk "Light" IRRADIANCE 160 (replicate 160 None) 0
    _decode_light 0 150 false.

Definition script_temp : Sensor.t :=
  Sensor.mk "Temp" TEMPERATURE 160 (replicate 160 None) 0
    _decode_temperature 20 40 false.

Definition script_pressure : Sensor.t :=
  Sensor.mk "Pressure" PRESSURE 160 (replicate 160 None) 0
    _decode_pressure 1000 1100 false.

Definition script_humidity : Sensor.t :=
  Sensor.mk "Humidity" HUMIDITY 160 (replicate 160 None) 0
    _decode_humidity 0 100 false.

Definition script_devices : list Device.t :=
  [ Device.__init__ "enviro-indoor"
      [script_light; script_temp; script_pressure; script_humidity];
    Device.__init__ "enviro-weather"
      [script_light; script_temp; script_pressure; script_humidity] ].

(** Both peripherals are in range, among others, and every characteristic
    reads the encoding of 2500. *)
Definition all_answered (i : nat) : transport :=
  crowded (fun _ => Ret (reading 2500)).

(** * Properties *)

(** ** Decoding *)

Lemma byte_val_of_Z (z : Z) : byte_val (byte_of_Z z) = z mod 256.
Proof.
  unfold byte_val, byte_of_Z.
  assert (Hb : 0 <= z mod 256 < 256) by (apply Z.mod_pos_bound; lia).
  destruct (Byte.of_N (Z.to_N (z mod 256))) as [b|] eqn:E.
  - apply Byte.to_of_N in E. rewrite E. lia.
  - apply Byte.of_N_None_iff in E. lia.
Qed.

Lemma le16_word (raw : Z) :
  Z.lor (byte_val (byte_of_Z (Z.land raw 255)))
        (Z.shiftl (byte_val (byte_of_Z (Z.land (Z.shiftr raw 8) 255))) 8)
  = raw mod 65536.
Proof.
  rewrite !byte_val_of_Z.
  change 255 with (Z.ones 8). change 256 with (2 ^ 8). change 65536 with (2 ^ 16).
  rewrite <- !Z.land_ones by lia. rewrite <- !Z.land_assoc, Z.land_diag.
  apply Z.bits_inj'. intros n Hn.
  rewrite Z.lor_spec, !Z.land_spec.
  destruct (Z.lt_ge_cases n 8) as [H8|H8].
  - rewrite Z.shiftl_spec_low by lia.
    rewrite !Z.ones_spec_low by lia. now rewrite orb_false_r.
  - rewrite Z.shiftl_spec by lia. rewrite Z.land_spec, Z.shiftr_spec by lia.
    rewrite (Z.ones_spec_high 8 n) by lia. rewrite andb_false_r. simpl.
    replace (n - 8 + 8) with n by lia.
    destruct (Z.lt_ge_cases n 16) as [H16|H16].
    + rewrite !Z.ones_spec_low by lia. reflexivity.
    + rewrite !Z.ones_spec_high by lia. reflexivity.
Qed.

Lemma unpack_h_le16 (raw : Z) :
  -32768 <= raw < 32768 -> unpack_h (le16 raw) = Ret raw.
Proof.
  intros Hr. unfold le16, unpack_h. rewrite le16_word.
  f_equal.
  destruct (Z.testbit (raw mod 65536) 15) eqn:E.
  - apply Z.testbit_true in E; [|lia]. change (2 ^ 15) with 32768 in E.
    destruct (Z.lt_ge_cases raw 0).
    + rewrite <- (Z.mod_unique raw 65536 (-1) (raw + 65536)); lia.
    + rewrite (Z.mod_small raw 65536) in E by lia.
      rewrite (Z.div_small raw 32768) in E by lia. discriminate.
  - apply Z.testbit_false in E; [|lia]. change (2 ^ 15) with 32768 in E.
    destruct (Z.lt_ge_cases raw 0).
    + rewrite <- (Z.mod_unique raw 65536 (-1) (raw + 65536)) in E by lia.
      replace ((raw + 65536) / 32768) with 1 in E; [discriminate|].
      apply Z.div_unique with (r := raw + 32768); lia.
    + apply Z.mod_small; lia.
Qed.

Lemma unpack_h_length (data : list Byte.byte) :
  length data <> 2%nat -> unpack_h data = Raise StructError.
Proof.
  destruct data as [|b0 [|b1 [|b2 rest]]]; simpl; intros H; try reflexivity.
  congruence.
Qed.

Lemma decode_le16 (raw : Z) (k : Q) (d : decoder) :
  -32768 <= raw < 32768 ->
  (forall data, d data = obind (unpack_h data) (fun r => Ret (inject_Z r / k)%Q)) ->
  returns (d (le16 raw)) (inject_Z raw / k).
Proof.
  intros Hr Hd. rewrite Hd, unpack_h_le16 by assumption. simpl. reflexivity.
Qed.

(** C9: every registered decoder reads exactly two bytes as a little-endian
    signed 16-bit integer and divides it by its scale factor (temperature
    and humidity by 100, pressure and irradiance by 10); any other length
    is a [struct.error]; the table [DECODERS] registers these four rules
    under their characteristic identifiers. *)
Theorem decoders_scale_int16 (raw : Z) (data : list Byte.byte) :
  -32768 <= raw < 32768 ->
  length data <> 2%nat ->
  (returns (_decode_temperature (le16 raw)) (inject_Z raw / 100) /\
   returns (_decode_humidity (le16 raw)) (inject_Z raw / 100) /\
   returns (_decode_pressure (le16 raw)) (inject_Z raw / 10) /\
   returns (_decode_light (le16 raw)) (inject_Z raw / 10)) /\
  (_decode_temperature data = Raise StructError /\
   _decode_humidity data = Raise StructError /\
   _decode_pressure data = Raise StructError /\
   _decode_light data = Raise StructError) /\
  (DECODERS !! TEMPERATURE = Some _decode_temperature /\
   DECODERS !! HUMIDITY = Some _decode_humidity /\
   DECODERS !! PRESSURE = Some _decode_pressure /\
   DECODERS !! IRRADIANCE = Some _decode_light).
Proof.
  intros Hr Hlen. split; [|split].
  - repeat split; apply decode_le16; auto.
  - unfold _decode_temperature, _decode_humidity, _decode_pressure,
      _decode_light. rewrite unpack_h_length by assumption. auto.
  - repeat split; reflexivity.
Qed.

(** The raw value -500 decodes to -5.00 for humidity and temperature and to
    -50.0 for pressure and irradiance; a single byte is refused. *)
Lemma decoders_minus_500 :
  (returns (_decode_temperature (le16 (-500))) (-5) /\
   returns (_decode_humidity (le16 (-500))) (-5) /\
   returns (_decode_pressure (le16 (-500))) (-50) /\
   returns (_decode_light (le16 (-500))) (-50)) /\
  le16 (-500) = [Byte.x0c; Byte.xfe] /\
  _decode_temperature [Byte.x0c] = Raise StructError.
Proof.
  destruct (decoders_scale_int16 (-500) [Byte.x0c])
    as [(Ht & Hh & Hp & Hl) [(Hs & _) _]]; [lia | simpl; lia |].
  split; [|split].
  - split; [|split; [|split]];
      [ clear - Ht | clear - Hh | clear - Hp | clear - Hl ];
      unfold returns in *; match goal with
      | H : match ?o with Ret _ => _ | Raise _ => _ end |- _ =>
          destruct o; [|contradiction]; rewrite H; reflexivity
      end.
  - reflexivity.
  - exact Hs.
Defined.

(** ** Scaling *)

Lemma clamp_bounds (lo hi v : Q) :
  (lo <= hi -> lo <= Qmax lo (Qmin hi v) <= hi)%Q.
Proof.
  intros H. split.
  - apply Q.le_max_l.
  - apply Q.max_lub; [assumption | apply Q.le_min_l].
Qed.

Lemma clamp_mono (lo hi v v' : Q) :
  (v <= v' -> Qmax lo (Qmin hi v) <= Qmax lo (Qmin hi v'))%Q.
Proof.
  intros H. apply Q.max_le_compat_l. now apply Q.min_le_compat_l.
Qed.

Lemma scaled_value_range (lo hi v scale : Q) :
  (lo < hi -> 0 <= scale -> 0 <= scaled_value lo hi v scale <= scale)%Q.
Proof.
  intros Hlh Hs. unfold scaled_value.
  destruct (clamp_bounds lo hi v (Qlt_le_weak _ _ Hlh)) as [Hc1 Hc2].
  set (c := Qmax lo (Qmin hi v)) in *.
  assert (Hd : (0 < hi - lo)%Q) by lra.
  assert (H0 : (0 <= (c - lo) / (hi - lo))%Q).
  { apply Qle_shift_div_l; [assumption | lra]. }
  assert (H1 : ((c - lo) / (hi - lo) <= 1)%Q).
  { apply Qle_shift_div_r; [assumption | lra]. }
  split.
  - apply Qmult_le_0_compat; assumption.
  - apply Qle_trans with (1 * scale)%Q.
    + apply Qmult_le_compat_r; assumption.
    + rewrite Qmult_1_l. apply Qle_refl.
Qed.

Lemma scaled_value_mono (lo hi v v' scale : Q) :
  (lo < hi -> 0 <= scale -> v <= v' ->
   scaled_value lo hi v scale <= scaled_value lo hi v' scale)%Q.
Proof.
  intros Hlh Hs Hv. unfold scaled_value.
  pose proof (clamp_mono lo hi v v' Hv) as Hc.
  assert (Hd : (0 < hi - lo)%Q) by lra.
  apply Qmult_le_compat_r; [|assumption].
  apply Qmult_le_compat_r; [lra|].
  apply Qinv_le_0_compat. lra.
Qed.

Lemma get_scaled_populated (s : Sensor.t) (i : Z) (v scale : Q) :
  getitem (Sensor.dlog s) i = Ret (Some v) ->
  Sensor.get_scaled s i scale =
    if Qeq_bool (Sensor.upper s - Sensor.lower s) 0
    then Raise ZeroDivisionError
    else Ret (scaled_value (Sensor.lower s) (Sensor.upper s) v scale).
Proof.
  intros Hi. unfold Sensor.get_scaled. rewrite Hi. reflexivity.
Qed.

Lemma Qeq_bool_sub_false (lo hi : Q) :
  (lo < hi)%Q -> Qeq_bool (hi - lo) 0 = false.
Proof.
  intros H. destruct (Qeq_bool (hi - lo) 0) eqn:E; [|reflexivity].
  apply Qeq_bool_iff in E. lra.
Qed.

(** C8: with [lower < upper], a populated slot and a non-negative scale,
    [get_scaled] returns the stored value clamped into [lower, upper],
    normalised to [0, 1] and multiplied by the scale; the result lies in
    [0, scale] whatever the stored value, and grows with the stored value. *)
Theorem get_scaled_clamps (s : Sensor.t) (i : Z) (v scale : Q) :
  (Sensor.lower s < Sensor.upper s)%Q ->
  getitem (Sensor.dlog s) i = Ret (Some v) ->
  (0 <= scale)%Q ->
  exists r : Q,
    Sensor.get_scaled s i scale = Ret r /\
    r = scaled_value (Sensor.lower s) (Sensor.upper s) v scale /\
    (Sensor.lower s <= Qmax (Sensor.lower s) (Qmin (Sensor.upper s) v)
       <= Sensor.upper s)%Q /\
    (0 <= scaled_value (Sensor.lower s) (Sensor.upper s) v 1 <= 1)%Q /\
    (0 <= r <= scale)%Q /\
    (forall (j : Z) (v' : Q),
        getitem (Sensor.dlog s) j = Ret (Some v') ->
        (v <= v')%Q ->
        exists r' : Q,
          Sensor.get_scaled s j scale = Ret r' /\ (r <= r')%Q).
Proof.
  intros Hlh Hi Hs.
  exists (scaled_value (Sensor.lower s) (Sensor.upper s) v scale).
  split; [|split; [|split; [|split; [|split]]]].
  - rewrite (get_scaled_populated s i v scale Hi).
    now rewrite Qeq_bool_sub_false.
  - reflexivity.
  - apply clamp_bounds. now apply Qlt_le_weak.
  - apply scaled_value_range; [assumption | discriminate].
  - now apply scaled_value_range.
  - intros j v' Hj Hv.
    exists (scaled_value (Sensor.lower s) (Sensor.upper s) v' scale). split.
    + rewrite (get_scaled_populated s j v' scale Hj).
      now rewrite Qeq_bool_sub_false.
    + now apply scaled_value_mono.
Qed.

(** A reading of 150 against the range 20..40 is drawn as the full bar. *)
Lemma get_scaled_clamps_demo :
  exists r : Q,
    Sensor.get_scaled demo_temp 1 90 = Ret r /\
    (0 <= r <= 90)%Q /\ (r == 90)%Q.
Proof.
  destruct (get_scaled_clamps demo_temp 1 150.00 90)
    as (r & Hr & Hval & _ & _ & Hrange & _).
  - reflexivity.
  - reflexivity.
  - discriminate.
  - exists r. split; [exact Hr | split; [exact Hrange |]].
    rewrite Hval. reflexivity.
Defined.

(** ** Division by an empty range *)

Lemma Qeq_bool_sub_true (lo hi : Q) :
  (hi == lo)%Q -> Qeq_bool (hi - lo) 0 = true.
Proof.
  intros H. apply Qeq_bool_iff. rewrite H. ring.
Qed.

(** C10: whenever [upper == lower], [get_scaled] on a populated slot raises
    [ZeroDivisionError]; an auto-ranging sensor reaches such a state through
    [__init__] and one [update]: after the single reading 2.0 both bounds
    are 0. *)
Theorem get_scaled_zero_range (s : Sensor.t) (i : Z) (v scale : Q) :
  (Sensor.upper s == Sensor.lower s)%Q ->
  getitem (Sensor.dlog s) i = Ret (Some v) ->
  Sensor.get_scaled s i scale = Raise ZeroDivisionError /\
  exists s0 : Sensor.t,
    Sensor.__init__ "Temp" 3 TEMPERATURE None = Ret s0 /\
    fst (Sensor.update (reading 200) s0) = Ret tt /\
    Sensor.autorange (snd (Sensor.update (reading 200) s0)) = true /\
    Sensor.dlog (snd (Sensor.update (reading 200) s0))
      = [Some 2.00%Q; None; None] /\
    Sensor.lower (snd (Sensor.update (reading 200) s0)) = 0%Q /\
    Sensor.upper (snd (Sensor.update (reading 200) s0)) = 0%Q /\
    Sensor.get_scaled (snd (Sensor.update (reading 200) s0)) 0 1
      = Raise ZeroDivisionError.
Proof.
  intros Heq Hi. split.
  - rewrite (get_scaled_populated s i v scale Hi).
    now rewrite Qeq_bool_sub_true.
  - exists fresh_temp. split; [reflexivity|].
    repeat split; vm_compute; reflexivity.
Qed.

(** The state reached by one reading of 2.0, given back to the theorem. *)
Lemma get_scaled_zero_range_reached :
  Sensor.get_scaled (snd (Sensor.update (reading 200) fresh_temp)) 0 1
  = Raise ZeroDivisionError.
Proof.
  refine (proj1 (get_scaled_zero_range _ 0 2.00 1 _ _)).
  - vm_compute. reflexivity.
  - vm_compute. reflexivity.
Defined.

(** ** One [update], step by step *)

Lemma last_default (l : list (option Q)) (a d d' : option Q) :
  List.last (a :: l) d = List.last (a :: l) d'.
Proof.
  revert a. induction l as [|b l IH]; intros a; [reflexivity|].
  change (List.last (b :: l) d = List.last (b :: l) d'). apply IH.
Qed.

Lemma last_cons (y x : option Q) (rest : list (option Q)) :
  List.last rest y = List.last (y :: rest) x.
Proof.
  destruct rest as [|z rest]; [reflexivity|].
  change (List.last (z :: rest) y = List.last (z :: rest) x).
  apply last_default.
Qed.

(** The shift loop, started at index [length pre + 1] on the log
    [pre ++ x :: rest], leaves [pre ++ rest ++ [last of x :: rest]]. *)
Lemma shift_loop (s : Sensor.t) (rest pre : list (option Q)) (x : option Q) :
  for_each (seq (S (length pre)) (length rest)) shift_body
    (Sensor.set_dlog s (pre ++ x :: rest))
  = (Ret tt, Sensor.set_dlog s (pre ++ rest ++ [List.last rest x])).
Proof.
  revert pre x. induction rest as [|y rest IH]; intros pre x.
  - reflexivity.
  - cbn [length seq for_each]. unfold bind at 1.
    assert (Hstep : shift_body (S (length pre))
                      (Sensor.set_dlog s (pre ++ x :: y :: rest))
                    = (Ret tt, Sensor.set_dlog s ((pre ++ [y]) ++ y :: rest))).
    { unfold shift_body, bind, Sensor.dlog_get, Sensor.dlog_set.
      cbn [Sensor.dlog Sensor.set_dlog].
      replace ((pre ++ x :: y :: rest) !! S (length pre)) with (Some y).
      2:{ symmetry. rewrite lookup_app_r by lia.
          replace (S (length pre) - length pre)%nat with 1%nat by lia. reflexivity. }
      cbn [Sensor.dlog Sensor.set_dlog].
      replace (S (length pre) - 1)%nat with (length pre) by lia.
      destruct (Nat.ltb_spec (length pre) (length (pre ++ x :: y :: rest))) as [_|Hge].
      2:{ rewrite length_app in Hge. simpl in Hge. lia. }
      f_equal. unfold Sensor.set_dlog. cbn [Sensor.dlog]. f_equal.
      rewrite insert_app_r_alt by lia. rewrite Nat.sub_diag. simpl.
      now rewrite <- app_assoc. }
    rewrite Hstep.
    specialize (IH (pre ++ [y]) y).
    rewrite length_app in IH. simpl in IH.
    replace (length pre + 1)%nat with (S (length pre)) in IH by lia.
    rewrite IH. f_equal. f_equal. rewrite <- app_assoc. simpl.
    f_equal. f_equal. f_equal. f_equal. apply (last_cons y x rest).
Qed.

Lemma shift_all (s : Sensor.t) (l : list (option Q)) :
  for_each (seq 1 (length l - 1)) shift_body (Sensor.set_dlog s l)
  = (Ret tt, Sensor.set_dlog s (shifted l)).
Proof.
  destruct l as [|x rest]; [reflexivity|].
  simpl length. replace (S (length rest) - 1)%nat with (length rest) by lia.
  exact (shift_loop s rest [] x).
Qed.

(** [update] as one step, when the read and the decoding succeed. *)
Lemma update_run (s : Sensor.t) (ch : characteristic)
    (raw : list Byte.byte) (v : Q) :
  read ch = Ret raw ->
  Sensor.decode s raw = Ret v ->
  Sensor.update ch s =
    let s1 := reranged s v in
    if (Sensor.dptr s <? length (Sensor.dlog s))%nat then
      let s2 := Sensor.set_dlog s1 (<[Sensor.dptr s := Some v]> (Sensor.dlog s)) in
      if Z.of_nat (Sensor.dptr s) =? Sensor._length s - 1
      then for_each (seq 1 (Z.to_nat (Sensor._length s - 1))) shift_body s2
      else (Ret tt, Sensor.set_dptr s2 (S (Sensor.dptr s)))
    else (Raise IndexError, s1).
Proof.
  intros Hread Hdec.
  unfold Sensor.update, bind, lift, get. rewrite Hread, Hdec.
  unfold reranged. destruct s as [c u n l p d lo hi ar].
  cbn [Sensor.autorange Sensor.dlog Sensor.dptr Sensor._length].
  destruct ar; unfold modify, ret, Sensor.dlog_set, bind;
    cbn [Sensor.autorange Sensor.dlog Sensor.dptr Sensor._length
         Sensor.set_lower Sensor.set_upper Sensor.lower Sensor.upper];
    destruct (p <? length l)%nat; try reflexivity;
    cbn [Sensor.set_dlog Sensor.autorange Sensor.dlog Sensor.dptr Sensor._length
         Sensor.set_lower Sensor.set_upper Sensor.lower Sensor.upper];
    destruct (Z.of_nat p =? n - 1); reflexivity.
Qed.

(** ** The log after any number of readings *)

Lemma reranged_fields (s : Sensor.t) (v : Q) :
  Sensor._length (reranged s v) = Sensor._length s /\
  Sensor.decode (reranged s v) = Sensor.decode s /\
  Sensor.dptr (reranged s v) = Sensor.dptr s /\
  Sensor.dlog (reranged s v) = Sensor.dlog s /\
  Sensor.autorange (reranged s v) = Sensor.autorange s.
Proof. unfold reranged. destruct (Sensor.autorange s) eqn:E; repeat split; auto. Qed.

Lemma shifted_snoc (l : list (option Q)) (x : option Q) :
  shifted (l ++ [x]) = drop 1 l ++ match l with [] => [x] | _ => [x; x] end.
Proof.
  destruct l as [|y l]; [reflexivity|].
  simpl. rewrite last_last. rewrite <- app_assoc. reflexivity.
Qed.

Lemma log_after_length (n : nat) (vs : list Q) :
  (1 <= n)%nat -> length (log_after n vs) = n.
Proof.
  intros Hn. unfold log_after.
  destruct (Nat.ltb_spec (length vs) n).
  - rewrite length_app, length_fmap, length_replicate. lia.
  - rewrite length_app, length_fmap, length_drop. simpl. lia.
Qed.

Lemma tracks_update (n : nat) (d : decoder) (vs : list Q) (s : Sensor.t)
    (ch : characteristic) (raw : list Byte.byte) (v : Q) :
  (1 <= n)%nat ->
  tracks n d vs s ->
  read ch = Ret raw ->
  d raw = Ret v ->
  exists s', Sensor.update ch s = (Ret tt, s') /\ tracks n d (vs ++ [v]) s'.
Proof.
  intros Hn (Hlen & Hdec & Hptr & Hlog) Hread Hd.
  rewrite (update_run s ch raw v Hread) by (now rewrite Hdec).
  destruct (reranged_fields s v) as (R1 & R2 & R3 & R4 & _).
  cbv zeta.
  assert (Hl : length (Sensor.dlog s) = n) by (rewrite Hlog; now apply log_after_length).
  destruct (Nat.ltb_spec (Sensor.dptr s) (length (Sensor.dlog s))) as [_|Hge]; [|lia].
  destruct (Z.eqb_spec (Z.of_nat (Sensor.dptr s)) (Sensor._length s - 1))
    as [Hfull|Hpart].
  - (* the cursor is on the last slot: write, then shift *)
    assert (Hvs : (n - 1 <= length vs)%nat) by lia.
    replace (Z.to_nat (Sensor._length s - 1))
      with (length (<[Sensor.dptr s:=Some v]> (Sensor.dlog s)) - 1)%nat
      by (rewrite length_insert; lia).
    rewrite shift_all. eexists. split; [reflexivity|].
    unfold tracks.
    cbn [Sensor.set_dlog Sensor._length Sensor.decode Sensor.dptr Sensor.dlog].
    rewrite R1, R2, R3. repeat split; auto.
    + rewrite length_app. simpl. lia.
    + assert (Hpre : exists pre z, Sensor.dlog s = (Some <$> pre) ++ [z] /\
                       pre = drop (length vs - (n - 1)) vs).
      { rewrite Hlog. unfold log_after.
        destruct (Nat.ltb_spec (length vs) n).
        - exists vs, None. replace (n - length vs)%nat with 1%nat by lia.
          split; [reflexivity|]. replace (length vs - (n - 1))%nat with 0%nat by lia.
          reflexivity.
        - eexists _, _. split; reflexivity. }
      destruct Hpre as (pre & z & Hs & Hpre). rewrite Hs.
      assert (Hpl : length pre = (n - 1)%nat) by (rewrite Hpre, length_drop; lia).
      replace (Sensor.dptr s) with (length (Some <$> pre))
        by (rewrite length_fmap; lia).
      rewrite insert_app_r_alt by lia. rewrite Nat.sub_diag. simpl.
      rewrite shifted_snoc.
      unfold log_after. rewrite length_app. simpl.
      destruct (Nat.ltb_spec (length vs + 1) n); [lia|].
      rewrite last_last.
      destruct pre as [|p pre'].
      * simpl in Hpl. rewrite (drop_ge (vs ++ [v])).
        -- reflexivity.
        -- rewrite length_app. simpl. lia.
      * simpl in Hpl.
        replace (length vs + 1 - (n - 1))%nat with (S (length vs - (n - 1))) by lia.
        rewrite drop_app_le by lia. rewrite fmap_app.
        replace (S (length vs - (n - 1))) with (length vs - (n - 1) + 1)%nat by lia.
        rewrite <- drop_drop, <- Hpre. simpl.
        rewrite drop_0, <- app_assoc. reflexivity.
  - (* a free slot is left: write and advance *)
    assert (Hvs : (length vs < n - 1)%nat) by lia.
    eexists. split; [reflexivity|].
    unfold tracks.
    cbn [Sensor.set_dlog Sensor.set_dptr Sensor._length Sensor.decode
         Sensor.dptr Sensor.dlog].
    rewrite R1, R2. repeat split; auto.
    + rewrite length_app. simpl. lia.
    + rewrite Hlog. unfold log_after. rewrite length_app. simpl.
      destruct (Nat.ltb_spec (length vs) n); [|lia].
      destruct (Nat.ltb_spec (length vs + 1) n); [|lia].
      replace (Sensor.dptr s) with (length (Some <$> vs))
        by (rewrite length_fmap; lia).
      rewrite insert_app_r_alt by lia. rewrite Nat.sub_diag.
      replace (n - length vs)%nat with (S (n - (length vs + 1))) by lia.
      simpl. rewrite fmap_app, <- app_assoc. reflexivity.
Qed.

Lemma tracks_updates (n : nat) (d : decoder) (chs : list characteristic)
    (ws : list Q) :
  (1 <= n)%nat ->
  Forall2 (reads_as d) chs ws ->
  forall (vs : list Q) (s : Sensor.t),
    tracks n d vs s ->
    exists s', updates chs s = (Ret tt, s') /\ tracks n d (vs ++ ws) s'.
Proof.
  intros Hn HF. induction HF as [|ch w chs ws (raw & Hread & Hd) _ IH];
    intros vs s Ht.
  - exists s. rewrite app_nil_r. split; [reflexivity | assumption].
  - destruct (tracks_update n d vs s ch raw w Hn Ht Hread Hd) as (s1 & Hu & Ht1).
    destruct (IH (vs ++ [w]) s1 Ht1) as (s2 & Hus & Ht2).
    exists s2. split.
    + unfold updates in *. cbn [for_each]. unfold bind. rewrite Hu. exact Hus.
    + rewrite <- app_assoc in Ht2. exact Ht2.
Qed.

Lemma tracks_init (n : nat) (c : string) (u : Z) (dr : option (Q * Q))
    (s : Sensor.t) :
  (1 <= n)%nat ->
  Sensor.__init__ c (Z.of_nat n) u dr = Ret s ->
  tracks n (Sensor.decode s) [] s.
Proof.
  intros Hn Hi. unfold Sensor.__init__ in Hi.
  destruct (DECODERS !! u) as [d|]; [|discriminate].
  injection Hi as <-. unfold tracks, log_after. simpl.
  destruct (Nat.ltb_spec 0 n); [|lia].
  rewrite Nat2Z.id, Nat.sub_0_r. repeat split.
Qed.

Lemma index_None_filled (vs : list Q) (rest : list (option Q)) :
  Sensor.index_None ((Some <$> vs) ++ rest)
  = (fun i => (length vs + i)%nat) <$> Sensor.index_None rest.
Proof.
  induction vs as [|v vs IH].
  - simpl. destruct (Sensor.index_None rest); reflexivity.
  - rewrite fmap_cons. cbn [app Sensor.index_None]. rewrite IH.
    destruct (Sensor.index_None rest); reflexivity.
Qed.

Lemma present_filled (vs : list Q) (rest : list (option Q)) :
  Sensor.present ((Some <$> vs) ++ rest) = vs ++ Sensor.present rest.
Proof.
  unfold Sensor.present. induction vs as [|v vs IH]; [reflexivity|].
  rewrite fmap_cons. cbn [app omap list_omap id]. now rewrite IH.
Qed.

Lemma present_empty (k : nat) : Sensor.present (replicate k None) = [].
Proof. induction k; [reflexivity | assumption]. Qed.

(** The [length] property counts the readings until the log is full. *)
Lemma tracks_length (n : nat) (d : decoder) (vs : list Q) (s : Sensor.t) :
  (1 <= n)%nat ->
  tracks n d vs s ->
  Sensor.length s = Z.of_nat (Nat.min (length vs) n).
Proof.
  intros Hn (Hlen & _ & _ & Hlog). unfold Sensor.length.
  rewrite Hlog, Hlen. unfold log_after.
  destruct (Nat.ltb_spec (length vs) n).
  - rewrite index_None_filled.
    destruct (n - length vs)%nat as [|k] eqn:E; [lia|]. simpl. lia.
  - rewrite index_None_filled. simpl. lia.
Qed.

(** While fewer readings than slots were recorded, the log holds exactly
    these readings, in the order of recording. *)
Lemma tracks_partial (n : nat) (d : decoder) (vs : list Q) (s : Sensor.t) :
  (length vs < n)%nat ->
  tracks n d vs s ->
  Sensor.length s = Z.of_nat (length vs) /\
  Sensor.present (Sensor.dlog s) = vs /\
  Sensor.dlog s = (Some <$> vs) ++ replicate (n - length vs) None.
Proof.
  intros Hlt Ht. split; [|split].
  - rewrite (tracks_length n d vs s) by (auto; lia). lia.
  - destruct Ht as (_ & _ & _ & ->). unfold log_after.
    destruct (Nat.ltb_spec (length vs) n); [|lia].
    now rewrite present_filled, present_empty, app_nil_r.
  - destruct Ht as (_ & _ & _ & ->). unfold log_after.
    destruct (Nat.ltb_spec (length vs) n); [reflexivity|lia].
Qed.

(** Once as many readings as slots were recorded, the log holds the last
    [n - 1] readings and the newest one a second time. *)
Lemma tracks_full (n : nat) (d : decoder) (vs : list Q) (s : Sensor.t) :
  (1 <= n <= length vs)%nat ->
  tracks n d vs s ->
  Sensor.length s = Z.of_nat n /\
  Sensor.present (Sensor.dlog s)
  = drop (length vs - (n - 1)) vs ++ [List.last vs 0%Q].
Proof.
  intros Hle Ht. split.
  - rewrite (tracks_length n d vs s) by (auto; lia). lia.
  - destruct Ht as (_ & _ & _ & ->). unfold log_after.
    destruct (Nat.ltb_spec (length vs) n); [lia|].
    now rewrite present_filled.
Qed.

(** From the constructor on: [n >= 1] slots, and every read succeeds. *)
Lemma recorded_log (n : nat) (c : string) (u : Z) (dr : option (Q * Q))
    (s0 : Sensor.t) (chs : list characteristic) (vs : list Q) :
  (1 <= n)%nat ->
  Sensor.__init__ c (Z.of_nat n) u dr = Ret s0 ->
  Forall2 (reads_as (Sensor.decode s0)) chs vs ->
  exists s,
    updates chs s0 = (Ret tt, s) /\
    Sensor.dlog s = log_after n vs /\
    Sensor.length s = Z.of_nat (Nat.min (length vs) n).
Proof.
  intros Hn Hi HF.
  pose proof (tracks_init n c u dr s0 Hn Hi) as Ht0.
  destruct (tracks_updates n _ chs vs Hn HF [] s0 Ht0) as (s & Hu & Ht).
  exists s. split; [exact Hu|]. split.
  - now destruct Ht as (_ & _ & _ & ?).
  - now apply (tracks_length n (Sensor.decode s0)).
Qed.

(** ** The scenarios are what the constructors build *)

Lemma scenarios_constructed :
  Sensor.__init__ "Temp" 3 TEMPERATURE None = Ret fresh_temp /\
  Sensor.__init__ "Temp" 2 TEMPERATURE (Some (0, 100)%Q) = Ret two_slots /\
  Sensor.__init__ "Temp" 1 TEMPERATURE (Some (0, 100)%Q) = Ret one_slot /\
  Sensor.__init__ "Temp" 3 TEMPERATURE (Some (20, 40)%Q) = Ret temp_sensor /\
  Sensor.__init__ "Humidity" 3 HUMIDITY (Some (0, 100)%Q) = Ret humidity_sensor.
Proof. repeat split. Qed.

(** ** The sliding log *)

(** C1, at the point where the code departs from it: a sensor of two slots
    records 1.00, 2.00 and 3.00.  After one reading the log is [1.00, -]
    and [length] is 1.  After the second reading, which fills the log,
    [length] is 2 but the log is [2.00, 2.00]: the first reading is gone
    already.  After the third it is [3.00, 3.00], where the two most recent
    readings would be [2.00, 3.00]. *)
Theorem update_keeps_one_reading_less :
  fst (updates (reading <$> [100; 200; 300]) two_slots) = Ret tt /\
  Sensor.dlog (recorded two_slots [100]) = [Some 1.00%Q; None] /\
  Sensor.length (recorded two_slots [100]) = 1 /\
  Sensor.dlog (recorded two_slots [100; 200]) = [Some 2.00%Q; Some 2.00%Q] /\
  Sensor.length (recorded two_slots [100; 200]) = 2 /\
  Sensor.dlog (recorded two_slots [100; 200; 300])
    = [Some 3.00%Q; Some 3.00%Q] /\
  Sensor.length (recorded two_slots [100; 200; 300]) = 2 /\
  Sensor.present (Sensor.dlog (recorded two_slots [100; 200; 300]))
    <> [2.00%Q; 3.00%Q].
Proof.
  repeat split; try (vm_compute; reflexivity).
  vm_compute. discriminate.
Qed.

(** ** Statistics over the populated slots *)

Lemma getitem_lookup {A} (l : list A) (i : nat) (x : A) :
  l !! i = Some x -> getitem l (Z.of_nat i) = Ret x.
Proof.
  intros H. unfold getitem. pose proof (lookup_lt_Some _ _ _ H) as Hlt.
  destruct (Z.ltb_spec (Z.of_nat i) 0); [lia|].
  destruct (Z.leb_spec 0 (Z.of_nat i)); [|lia].
  destruct (Z.ltb_spec (Z.of_nat i) (Z.of_nat (length l))); [|lia].
  simpl. now rewrite Nat2Z.id, H.
Qed.

Lemma Qltb_lt (x y : Q) : Qltb x y = true <-> (x < y)%Q.
Proof.
  unfold Qltb. rewrite Qlt_alt. destruct (x ?= y)%Q; split; congruence.
Qed.

Lemma Qltb_ge (x y : Q) : Qltb x y = false <-> (y <= x)%Q.
Proof.
  unfold Qltb. rewrite Qle_alt. rewrite <- (Qcompare_antisym x y).
  destruct (x ?= y)%Q; simpl; split; congruence.
Qed.

(** The loop of [min_max_avg] over populated slots is the fold of
    [stats_turn] over their values. *)
Lemma stats_fold (xs pre : list Q) (rest : list (option Q)) (acc : Q * Q * Q) :
  fold_left (Sensor.stats_step ((Some <$> pre) ++ (Some <$> xs) ++ rest))
    (seq (length pre) (length xs))
    (Ret (let '(v, mx, mn) := acc in (v, mx, Some mn)))
  = Ret (let '(v, mx, mn) := fold_left stats_turn xs acc in (v, mx, Some mn)).
Proof.
  revert pre acc. induction xs as [|x xs IH]; intros pre [[v mx] mn].
  - reflexivity.
  - cbn [length seq fold_left].
    assert (Hstep :
      Sensor.stats_step ((Some <$> pre) ++ (Some <$> x :: xs) ++ rest)
        (Ret (v, mx, Some mn)) (length pre)
      = Ret (let '(v', mx', mn') := stats_turn (v, mx, mn) x in
             (v', mx', Some mn'))).
    { unfold Sensor.stats_step. cbn [obind].
      rewrite (getitem_lookup _ _ (Some x)).
      2:{ rewrite lookup_app_r by (rewrite length_fmap; lia).
          rewrite length_fmap, Nat.sub_diag. reflexivity. }
      cbn [obind stats_turn].
      destruct (Qltb mx x); [reflexivity|].
      destruct (Qltb x mn); reflexivity. }
    rewrite Hstep.
    specialize (IH (pre ++ [x]) (stats_turn (v, mx, mn) x)).
    rewrite length_app in IH. simpl in IH.
    replace (length pre + 1)%nat with (S (length pre)) in IH by lia.
    rewrite fmap_app, <- app_assoc in IH. exact IH.
Qed.

Lemma stats_turn_seen (seen : list Q) (acc : Q * Q * Q) (x : Q) :
  seen <> [] ->
  stats_seen seen acc -> stats_seen (seen ++ [x]) (stats_turn acc x).
Proof.
  intros Hne. destruct acc as [[v mx] mn]. unfold stats_seen, stats_turn.
  intros (Hv & HF & Hmn & Hmx & H0).
  assert (Hmm : (mn <= mx)%Q).
  { rewrite Forall_forall in HF. destruct (HF mn) as [_ H]; [|exact H].
    now apply list_elem_of_In. }
  assert (Hsum : (v + x == Qsum (seen ++ [x]))%Q).
  { rewrite Hv. clear. induction seen as [|y seen IH]; simpl.
    - ring.
    - rewrite <- IH. ring. }
  destruct (Qltb mx x) eqn:E1; [|destruct (Qltb x mn) eqn:E2].
  - apply Qltb_lt in E1. split; [exact Hsum|]. split; [|split; [|split]].
    + apply Forall_app. split.
      * eapply Forall_impl; [exact HF|]. simpl. intros y [? ?]. split; [assumption|lra].
      * constructor; [|constructor]. split; [lra | apply Qle_refl].
    + apply in_or_app. now left.
    + left. apply in_or_app. right. now left.
    + lra.
  - apply Qltb_ge in E1. apply Qltb_lt in E2.
    split; [exact Hsum|]. split; [|split; [|split]].
    + apply Forall_app. split.
      * eapply Forall_impl; [exact HF|]. simpl. intros y [? ?]. split; [lra|assumption].
      * constructor; [|constructor]. split; [apply Qle_refl | assumption].
    + apply in_or_app. right. now left.
    + destruct Hmx as [Hmx|Hmx]; [left; apply in_or_app; now left | now right].
    + assumption.
  - apply Qltb_ge in E1. apply Qltb_ge in E2.
    split; [exact Hsum|]. split; [|split; [|split]].
    + apply Forall_app. split; [exact HF|].
      constructor; [|constructor]. split; assumption.
    + apply in_or_app. now left.
    + destruct Hmx as [Hmx|Hmx]; [left; apply in_or_app; now left | now right].
    + assumption.
Qed.

Lemma stats_turns_seen (xs seen : list Q) (acc : Q * Q * Q) :
  seen <> [] ->
  stats_seen seen acc -> stats_seen (seen ++ xs) (fold_left stats_turn xs acc).
Proof.
  revert seen acc. induction xs as [|x xs IH]; intros seen acc Hne Hs.
  - now rewrite app_nil_r.
  - cbn [fold_left]. replace (seen ++ x :: xs) with ((seen ++ [x]) ++ xs)
      by (now rewrite <- app_assoc).
    apply IH; [now destruct seen | now apply stats_turn_seen].
Qed.

(** The first turn, from [v = 0], [max_reading = 0] and
    [min_reading = self.dlog[0]]. *)
Lemma stats_first_turn (x : Q) : stats_seen [x] (stats_turn (0, 0, x)%Q x).
Proof.
  unfold stats_seen, stats_turn.
  destruct (Qltb 0 x) eqn:E1.
  - apply Qltb_lt in E1. split; [simpl; ring|]. split; [|split; [|split]].
    + constructor; [|constructor]. split; apply Qle_refl.
    + now left.
    + left. now left.
    + lra.
  - apply Qltb_ge in E1.
    assert (E2 : Qltb x x = false) by (apply Qltb_ge, Qle_refl).
    rewrite E2. split; [simpl; ring|]. split; [|split; [|split]].
    + constructor; [|constructor]. split; [apply Qle_refl | assumption].
    + now left.
    + now right.
    + apply Qle_refl.
Qed.

Lemma Qsum_bounds (xs : list Q) (lo hi : Q) :
  Forall (fun x => (lo <= x <= hi)%Q) xs ->
  (inject_Z (Z.of_nat (length xs)) * lo <= Qsum xs
     <= inject_Z (Z.of_nat (length xs)) * hi)%Q.
Proof.
  induction 1 as [|x xs [Hl Hh] _ IH].
  - simpl. split; discriminate.
  - cbn [length Qsum fold_right]. fold (Qsum xs).
    rewrite Nat2Z.inj_succ. unfold Z.succ. rewrite inject_Z_plus.
    change (inject_Z 1) with 1%Q.
    set (k := inject_Z (Z.of_nat (length xs))) in *.
    destruct IH as [IHl IHh]. split.
    + assert (E : ((k + 1) * lo == k * lo + lo)%Q) by ring. rewrite E. lra.
    + assert (E : ((k + 1) * hi == k * hi + hi)%Q) by ring. rewrite E. lra.
Qed.

(** [min_max_avg] when the first [dptr >= 1] slots hold the readings [xs]:
    a triple of their average, of the larger of 0 and their maximum, and
    of their minimum. *)
Lemma min_max_avg_populated (s : Sensor.t) (xs : list Q)
    (rest : list (option Q)) :
  Sensor.dlog s = (Some <$> xs) ++ rest ->
  Sensor.dptr s = length xs ->
  xs <> [] ->
  exists avg mx mn,
    Sensor.min_max_avg s = Ret (Sensor.Triple avg mx (Some mn)) /\
    (avg == Qsum xs / inject_Z (Z.of_nat (length xs)))%Q /\
    Forall (fun x => (mn <= x <= mx)%Q) xs /\
    (mn <= avg <= mx)%Q /\
    In mn xs /\
    (In mx xs \/ mx = 0%Q) /\
    (0 <= mx)%Q.
Proof.
  intros Hlog Hptr Hne. destruct xs as [|x0 xs]; [congruence|].
  unfold Sensor.min_max_avg. rewrite Hptr, Hlog. cbn [length Nat.eqb].
  pose proof (getitem_lookup ((Some <$> x0 :: xs) ++ rest) 0%nat (Some x0)
                eq_refl) as Hg.
  change (Z.of_nat 0) with 0 in Hg. rewrite Hg. clear Hg. cbn [obind].
  pose proof (stats_fold (x0 :: xs) [] rest (0, 0, x0)%Q) as Hf.
  cbn [length fmap list_fmap app] in Hf. cbn [fmap list_fmap app].
  rewrite Hf. clear Hf.
  pose proof (stats_turns_seen xs [x0] _ ltac:(discriminate)
                (stats_first_turn x0)) as Hs.
  cbn [fold_left]. cbn [app] in Hs.
  destruct (fold_left stats_turn xs (stats_turn (0, 0, x0)%Q x0))
    as [[v mx] mn].
  destruct Hs as (Hv & HF & Hmn & Hmx & H0). cbn [obind].
  pose proof (Qsum_bounds _ _ _ HF) as [Hlo Hhi].
  set (k := inject_Z (Z.of_nat (length (x0 :: xs)))) in *.
  assert (Hk : (0 < k)%Q).
  { unfold k. rewrite <- (Zlt_Qlt 0). simpl length. lia. }
  exists (v / k)%Q, mx, mn. split; [reflexivity|].
  split; [now rewrite Hv|]. split; [exact HF|]. split; [|auto].
  split.
  - apply Qle_shift_div_l; [exact Hk|]. rewrite Hv, Qmult_comm. exact Hlo.
  - apply Qle_shift_div_r; [exact Hk|]. rewrite Hv, Qmult_comm. exact Hhi.
Qed.

Lemma last_in_drop (vs : list Q) (k : nat) :
  (k < length vs)%nat -> In (List.last vs 0%Q) (drop k vs).
Proof.
  intros Hk. destruct (exists_last (l := vs)) as (vs' & z & ->).
  { intros ->. simpl in Hk. lia. }
  rewrite last_last. rewrite length_app in Hk. simpl in Hk.
  rewrite drop_app_le by lia. apply in_or_app. right. now left.
Qed.

(** On a sensor of at least two slots that has recorded at least one
    reading, [min_max_avg] returns a triple; minimum and maximum bound every
    populated value and the average, and the minimum is a populated value.
    The maximum is a populated value or the initial 0. *)
Lemma tracked_statistics (n : nat) (d : decoder) (vs : list Q)
    (s : Sensor.t) :
  (2 <= n)%nat ->
  vs <> [] ->
  tracks n d vs s ->
  exists avg mx mn,
    Sensor.min_max_avg s = Ret (Sensor.Triple avg mx (Some mn)) /\
    Forall (fun x => (mn <= x <= mx)%Q) (Sensor.present (Sensor.dlog s)) /\
    (mn <= avg <= mx)%Q /\
    In mn (Sensor.present (Sensor.dlog s)) /\
    (In mx (Sensor.present (Sensor.dlog s)) \/ mx = 0%Q).
Proof.
  intros Hn Hne (Hlen & Hdec & Hptr & Hlog).
  assert (Hvs : (1 <= length vs)%nat) by (destruct vs; [congruence | simpl; lia]).
  unfold log_after in Hlog.
  destruct (Nat.ltb_spec (length vs) n) as [Hlt|Hge].
  - destruct (min_max_avg_populated s vs _ Hlog) as
      (avg & mx & mn & Hr & _ & HF & Ha & Hmn & Hmx & _); [lia | assumption |].
    exists avg, mx, mn. rewrite Hlog, present_filled, present_empty, app_nil_r.
    auto.
  - set (xs := drop (length vs - (n - 1)) vs) in *.
    assert (Hxl : length xs = (n - 1)%nat) by (unfold xs; rewrite length_drop; lia).
    destruct (min_max_avg_populated s xs _ Hlog) as
      (avg & mx & mn & Hr & _ & HF & Ha & Hmn & Hmx & _).
    { lia. }
    { intros E. rewrite E in Hxl. simpl in Hxl. lia. }
    assert (Hlast : In (List.last vs 0%Q) xs) by (apply last_in_drop; lia).
    exists avg, mx, mn. rewrite Hlog, present_filled.
    change (Sensor.present [Some (List.last vs 0%Q)]) with [List.last vs 0%Q].
    split; [exact Hr|]. split; [|split; [exact Ha|split]].
    + apply Forall_app. split; [exact HF|]. constructor; [|constructor].
      rewrite Forall_forall in HF. apply HF. now apply list_elem_of_In.
    + apply in_or_app. now left.
    + destruct Hmx as [Hmx|Hmx]; [left; apply in_or_app; now left | now right].
Qed.

(** ** Statistics: where the code departs *)

(** C7, as the code has it: on a sensor that never recorded anything
    [min_max_avg] returns the bare integer [0], not a triple, and the
    unpacking [gavg, gmax, gmin = self.min_max_avg()] of [draw_graph]
    raises [TypeError] on it. *)
Theorem min_max_avg_empty_is_scalar (c : string) (samples u : Z)
    (dr : option (Q * Q)) (s : Sensor.t) :
  Sensor.__init__ c samples u dr = Ret s ->
  Sensor.min_max_avg s = Ret (Sensor.Scalar 0) /\
  (forall avg mx mn, Sensor.min_max_avg s <> Ret (Sensor.Triple avg mx mn)) /\
  Sensor.draw_graph_stats s = Raise TypeError.
Proof.
  intros Hi. unfold Sensor.__init__ in Hi.
  destruct (DECODERS !! u) as [d|]; [|discriminate].
  injection Hi as <-. repeat split. intros avg mx mn. discriminate.
Qed.

Lemma min_max_avg_empty_fresh :
  Sensor.min_max_avg fresh_temp = Ret (Sensor.Scalar 0) /\
  Sensor.draw_graph_stats fresh_temp = Raise TypeError.
Proof.
  destruct (min_max_avg_empty_is_scalar "Temp" 3 TEMPERATURE None fresh_temp)
    as (H1 & _ & H3).
  - reflexivity.
  - split; assumption.
Defined.

(** C6, at the points where the code departs from it.  After the single
    reading -5.00 the populated values are just -5.00, and [min_max_avg]
    returns the maximum 0, which no slot holds.  On a sensor of one slot
    that holds the reading 25.00, [min_max_avg] returns the bare [0]. *)
Theorem min_max_avg_maximum_not_attained :
  Sensor.present (Sensor.dlog (recorded fresh_temp [-500])) = [(-5.00)%Q] /\
  Sensor.min_max_avg (recorded fresh_temp [-500])
    = Ret (Sensor.Triple (-5.00) 0 (Some (-5.00)%Q)) /\
  ~ (0 == -5.00)%Q /\
  Sensor.dlog (recorded one_slot [2500]) = [Some 25.00%Q] /\
  Sensor.min_max_avg (recorded one_slot [2500]) = Ret (Sensor.Scalar 0).
Proof.
  repeat split; try (vm_compute; reflexivity).
  intros H. discriminate H.
Qed.

(** The scenario of the specification: 25.00, 26.00 and 27.00 in three
    slots.  The log ends as [26.00, 27.00, 27.00], and the statistics run
    over its first [dptr = 2] slots. *)
Lemma three_readings :
  Sensor.dlog (recorded temp_sensor [2500; 2600; 2700])
    = [Some 26.00%Q; Some 27.00%Q; Some 27.00%Q] /\
  Sensor.dptr (recorded temp_sensor [2500; 2600; 2700]) = 2%nat /\
  exists avg,
    Sensor.min_max_avg (recorded temp_sensor [2500; 2600; 2700])
      = Ret (Sensor.Triple avg 27.00 (Some 26.00%Q)) /\
    (avg == 26.5)%Q.
Proof.
  split; [vm_compute; reflexivity|]. split; [vm_compute; reflexivity|].
  eexists. split; [vm_compute; reflexivity|]. reflexivity.
Qed.

(** ** Auto-range *)

Lemma round_half_even_mono (x y : Q) :
  (x <= y)%Q -> round_half_even x <= round_half_even y.
Proof.
  intros Hxy. unfold round_half_even.
  pose proof (Qfloor_resp_le x y Hxy) as Hf.
  pose proof (Qfloor_le x) as Hx1. pose proof (Qlt_floor x) as Hx2.
  pose proof (Qfloor_le y) as Hy1. pose proof (Qlt_floor y) as Hy2.
  set (f := Qfloor x) in *. set (g := Qfloor y) in *.
  destruct (Z.eq_dec f g) as [Heq|Hne].
  - rewrite <- Heq in *.
    destruct (Qcompare_spec (x - inject_Z f) (1 # 2)) as [Ex|Ex|Ex];
      destruct (Qcompare_spec (y - inject_Z f) (1 # 2)) as [Ey|Ey|Ey];
      try destruct (Z.even f); try lia; exfalso; lra.
  - assert (Hlt : f + 1 <= g) by lia.
    assert (Hx : match (x - inject_Z f ?= 1 # 2)%Q with
                 | Lt => f | Gt => f + 1
                 | Eq => if Z.even f then f else f + 1 end <= f + 1).
    { destruct (x - inject_Z f ?= 1 # 2)%Q; try destruct (Z.even f); lia. }
    assert (Hy : g <= match (y - inject_Z g ?= 1 # 2)%Q with
                      | Lt => g | Gt => g + 1
                      | Eq => if Z.even g then g else g + 1 end).
    { destruct (y - inject_Z g ?= 1 # 2)%Q; try destruct (Z.even g); lia. }
    lia.
Qed.

Lemma int_inject_Z (z : Z) : int (inject_Z z) = z.
Proof.
  unfold int. destruct (Qle_bool 0 (inject_Z z)).
  - apply Qfloor_Z.
  - apply Qceiling_Z.
Qed.

Lemma int_round_tens (x : Q) :
  inject_Z (int (round_tens x)) = round_tens x.
Proof. unfold round_tens. now rewrite int_inject_Z. Qed.

Lemma round_tens_mono (x y : Q) :
  (x <= y)%Q -> (round_tens x <= round_tens y)%Q.
Proof.
  intros H. unfold round_tens. rewrite <- Zle_Qle.
  apply Z.mul_le_mono_nonneg_l; [lia|].
  apply round_half_even_mono.
  apply Qmult_le_compat_r; [assumption | discriminate].
Qed.

Lemma fold_min_le (l : list Q) (x : Q) : (fold_left Qmin l x <= x)%Q.
Proof.
  revert x. induction l as [|y l IH]; intros x; simpl.
  - apply Qle_refl.
  - eapply Qle_trans; [apply IH | apply Q.le_min_l].
Qed.

Lemma fold_max_ge (l : list Q) (x : Q) : (x <= fold_left Qmax l x)%Q.
Proof.
  revert x. induction l as [|y l IH]; intros x; simpl.
  - apply Qle_refl.
  - eapply Qle_trans; [apply Q.le_max_l | apply IH].
Qed.

Lemma min_default_le_max_default (l : list Q) :
  (min_default l 0 <= max_default l 1)%Q.
Proof.
  destruct l as [|x l]; simpl; [discriminate|].
  eapply Qle_trans; [apply fold_min_le | apply fold_max_ge].
Qed.

(** The bounds the auto-range block computes for the reading [v]. *)
Lemma reranged_bounds (s : Sensor.t) (v : Q) :
  Sensor.autorange s = true ->
  (Sensor.lower (reranged s v) <= round_tens (v / 2))%Q /\
  (round_tens (v * 2) <= Sensor.upper (reranged s v))%Q /\
  (Sensor.lower (reranged s v) <= Sensor.upper (reranged s v))%Q.
Proof.
  intros Ha. unfold reranged. rewrite Ha.
  cbn [Sensor.lower Sensor.upper Sensor.set_lower Sensor.set_upper].
  rewrite !int_round_tens.
  set (m := min_default _ _). set (M := max_default _ _).
  assert (HmM : (m <= M)%Q) by apply min_default_le_max_default.
  split; [|split]; apply round_tens_mono.
  - apply Q.le_min_r.
  - apply Q.le_max_r.
  - eapply Qle_trans; [apply Q.le_min_l|].
    eapply Qle_trans; [exact HmM | apply Q.le_max_l].
Qed.

(** Writing into the log, shifting it and advancing the cursor leave the
    bounds alone, also when an index is out of range. *)
Lemma shift_bounds (idx : list nat) (s : Sensor.t) :
  Sensor.lower (snd (for_each idx shift_body s)) = Sensor.lower s /\
  Sensor.upper (snd (for_each idx shift_body s)) = Sensor.upper s.
Proof.
  revert s. induction idx as [|i idx IH]; intros s; [split; reflexivity|].
  cbn [for_each]. unfold bind.
  assert (Hb : exists r l, shift_body i s = (r, Sensor.set_dlog s l)).
  { unfold shift_body, bind, Sensor.dlog_get, Sensor.dlog_set.
    destruct (Sensor.dlog s !! i) as [x|].
    - destruct (i - 1 <? length (Sensor.dlog s))%nat.
      + eexists _, _. reflexivity.
      + exists (Raise IndexError), (Sensor.dlog s). now destruct s.
    - exists (Raise IndexError), (Sensor.dlog s). now destruct s. }
  destruct Hb as (r & l & ->). destruct r as [[]|e].
  - destruct (IH (Sensor.set_dlog s l)) as [-> ->]. split; reflexivity.
  - split; reflexivity.
Qed.

Lemma update_bounds (s : Sensor.t) (ch : characteristic)
    (raw : list Byte.byte) (v : Q) :
  read ch = Ret raw ->
  Sensor.decode s raw = Ret v ->
  Sensor.lower (snd (Sensor.update ch s)) = Sensor.lower (reranged s v) /\
  Sensor.upper (snd (Sensor.update ch s)) = Sensor.upper (reranged s v).
Proof.
  intros Hread Hdec. rewrite (update_run s ch raw v Hread Hdec). cbv zeta.
  destruct (Sensor.dptr s <? length (Sensor.dlog s))%nat; [|split; reflexivity].
  destruct (Z.of_nat (Sensor.dptr s) =? Sensor._length s - 1);
    [|split; reflexivity].
  destruct (shift_bounds (seq 1 (Z.to_nat (Sensor._length s - 1)))
              (Sensor.set_dlog (reranged s v)
                 (<[Sensor.dptr s:=Some v]> (Sensor.dlog s)))) as [-> ->].
  split; reflexivity.
Qed.

(** After an [update] of an auto-ranging sensor that read and decoded [v]:
    [lower <= round(v / 2, -1)], [round(v * 2, -1) <= upper], and
    [lower <= upper]. *)
Lemma update_autorange_bounds (s : Sensor.t) (ch : characteristic)
    (raw : list Byte.byte) (v : Q) :
  Sensor.autorange s = true ->
  read ch = Ret raw ->
  Sensor.decode s raw = Ret v ->
  (Sensor.lower (snd (Sensor.update ch s)) <= round_tens (v / 2))%Q /\
  (round_tens (v * 2) <= Sensor.upper (snd (Sensor.update ch s)))%Q /\
  (Sensor.lower (snd (Sensor.update ch s))
     <= Sensor.upper (snd (Sensor.update ch s)))%Q.
Proof.
  intros Ha Hread Hdec.
  destruct (update_bounds s ch raw v Hread Hdec) as [-> ->].
  now apply reranged_bounds.
Qed.

(** C5, at the point where the code departs from it: the first reading 2.0
    of an auto-ranging sensor.  [round(min(0, 1.0), -1)] and
    [round(max(1, 4.0), -1)] are both 0, so both bounds become 0 and
    [lower < upper] fails; the two other inequalities of the claim hold. *)
Theorem autorange_bounds_collapse :
  Sensor.autorange fresh_temp = true /\
  Sensor.present (Sensor.dlog fresh_temp) = [] /\
  fst (Sensor.update (reading 200) fresh_temp) = Ret tt /\
  Sensor.dlog (recorded fresh_temp [200%Z]) = [Some 2.00%Q; None; None] /\
  Sensor.lower (recorded fresh_temp [200%Z]) = 0%Q /\
  Sensor.upper (recorded fresh_temp [200%Z]) = 0%Q /\
  ~ (Sensor.lower (recorded fresh_temp [200%Z])
       < Sensor.upper (recorded fresh_temp [200%Z]))%Q /\
  (Sensor.lower (recorded fresh_temp [200%Z]) <= round_tens (2.00 / 2))%Q /\
  (round_tens (2.00 * 2) <= Sensor.upper (recorded fresh_temp [200%Z]))%Q.
Proof.
  repeat split; try (vm_compute; reflexivity).
  - vm_compute. discriminate.
  - vm_compute. discriminate.
  - vm_compute. discriminate.
Qed.

(** ** The refresh cycle: entering and leaving the connection *)

Lemma quiet_intro {A} (m : M Device.world A) :
  (forall w,
      Device.acquisitions (Device.trace (snd (m w)))
        = Device.acquisitions (Device.trace w) /\
      Device.releases (Device.trace (snd (m w)))
        = Device.releases (Device.trace w)) ->
  quiet m.
Proof.
  intros H w. destruct (H w) as [Ha Hr]. exists 0%nat, 0%nat.
  rewrite Ha, Hr. repeat split; lia.
Qed.

Lemma quiet_elim {A} (m : M Device.world A) (w : Device.world) :
  quiet m ->
  Device.acquisitions (Device.trace (snd (m w))) = Device.acquisitions (Device.trace w) /\
  Device.releases (Device.trace (snd (m w))) = Device.releases (Device.trace w).
Proof.
  intros H. destruct (H w) as (a & r & Ha & Hr & -> & ->). split; lia.
Qed.

Lemma quiet_ret {A} (a : A) : quiet (ret a : M Device.world A).
Proof. apply quiet_intro. intros w. split; reflexivity. Qed.

Lemma quiet_raise {A} (e : exn) : quiet (raise e : M Device.world A).
Proof. apply quiet_intro. intros w. split; reflexivity. Qed.

Lemma quiet_lift {A} (o : outcome A) : quiet (lift o : M Device.world A).
Proof. apply quiet_intro. intros w. split; reflexivity. Qed.

Lemma quiet_gets {A} (f : Device.world -> A) : quiet (gets f).
Proof. apply quiet_intro. intros w. split; reflexivity. Qed.

Lemma quiet_set_device (d : option nat) : quiet (Device.set_device d).
Proof. apply quiet_intro. intros w. split; reflexivity. Qed.

Lemma quiet_emit (e : event) :
  Device.is_acquire e = false -> Device.is_release e = false ->
  quiet (Device.emit e).
Proof.
  intros Ha Hr. apply quiet_intro. intros w.
  unfold Device.emit, modify, Device.acquisitions, Device.releases. simpl.
  rewrite !List.filter_app. simpl. rewrite Ha, Hr, !app_nil_r. split; reflexivity.
Qed.

Lemma adds_bind {A B} (m : M Device.world A) (k : A -> M Device.world B)
    (P : nat -> nat -> Prop) :
  quiet m -> (forall a, adds (k a) P) -> P 0%nat 0%nat -> adds (bind m k) P.
Proof.
  intros Hm Hk HP w. unfold bind.
  destruct (quiet_elim m w Hm) as [Ha Hr].
  destruct (m w) as [[a|e] w1]; simpl in Ha, Hr.
  - destruct (Hk a w1) as (x & y & Hx & Hy & Hxy).
    exists x, y. rewrite Hx, Hy, Ha, Hr. auto.
  - exists 0%nat, 0%nat. simpl. rewrite Ha, Hr. repeat split; auto.
Qed.

Lemma quiet_bind {A B} (m : M Device.world A) (k : A -> M Device.world B) :
  quiet m -> (forall a, quiet (k a)) -> quiet (bind m k).
Proof. intros Hm Hk. apply adds_bind; auto. Qed.

Lemma quiet_try_timeout {A} (m : M Device.world A) :
  quiet m -> quiet (try_timeout m).
Proof.
  intros Hm. apply quiet_intro. intros w.
  destruct (quiet_elim m w Hm) as [Ha Hr]. unfold try_timeout.
  destruct (m w) as [[a|e] w1]; [exact (conj Ha Hr)|].
  destruct e; exact (conj Ha Hr).
Qed.

Lemma quiet_for_each {B} (xs : list B) (body : B -> M Device.world unit) :
  (forall x, quiet (body x)) -> quiet (for_each xs body).
Proof.
  intros Hb. induction xs as [|x xs IH]; cbn [for_each].
  - apply quiet_ret.
  - apply quiet_bind; auto.
Qed.

Lemma quiet_on_sensor {A} (i : nat) (m : M Sensor.t A) :
  quiet (Device.on_sensor i m).
Proof.
  apply quiet_intro. intros w. unfold Device.on_sensor.
  destruct (Device.sensors (Device.self w) !! i) as [s|]; [|split; reflexivity].
  destruct (m s) as [r s']. split; reflexivity.
Qed.

Lemma quiet_scan_loop (results : list advertisement) :
  quiet (Device.scan_loop results).
Proof.
  induction results as [|a results IH]; cbn [Device.scan_loop].
  - apply quiet_gets.
  - apply quiet_bind; [now apply quiet_emit|]. intros _.
    apply quiet_bind; [apply quiet_gets|]. intros me.
    destruct (_ && _); [|exact IH].
    apply quiet_bind; [apply quiet_set_device|]. intros _. apply quiet_gets.
Qed.

Lemma quiet_find (T : transport) : quiet (Device.find T).
Proof.
  unfold Device.find. apply quiet_bind; [apply quiet_gets|]. intros me.
  destruct (Device.device me).
  - apply quiet_gets.
  - apply quiet_bind; [now apply quiet_emit | intros _; apply quiet_scan_loop].
Qed.

Lemma quiet_update_sensor (service : gatt_service) (i : nat) :
  quiet (Device.update_sensor service i).
Proof.
  unfold Device.update_sensor.
  apply quiet_bind; [apply quiet_on_sensor|]. intros sensor.
  apply quiet_bind.
  - apply quiet_try_timeout.
    apply quiet_bind; [now apply quiet_emit|]. intros _.
    apply quiet_bind; [apply quiet_lift|]. intros ch.
    apply quiet_bind; [now apply quiet_emit|]. intros _. apply quiet_ret.
  - intros [ch|].
    + apply quiet_bind; [now apply quiet_emit|]. intros _.
      apply quiet_bind; [apply quiet_on_sensor|]. intros _.
      now apply quiet_emit.
    + now apply quiet_emit.
Qed.

Lemma adds_quiet {A} (m : M Device.world A) (P : nat -> nat -> Prop) :
  quiet m -> P 0%nat 0%nat -> adds m P.
Proof.
  intros Hm HP w. destruct (Hm w) as (a & r & Ha & Hr & -> & ->).
  exists 0%nat, 0%nat. auto.
Qed.

(** [async with connection: body], for a body that does not nest another
    block: entered once, left once, however the body ends. *)
Lemma adds_with_block {A} (body : M Device.world A) :
  quiet body ->
  adds (bind (Device.emit Acquired) (fun _ =>
          with_release
            (fun w => Device.World (Device.self w) (Device.trace w ++ [Released]))
            body))
       (fun a r => a = 1%nat /\ r = 1%nat).
Proof.
  intros Hb w. exists 1%nat, 1%nat.
  unfold bind, Device.emit, modify, with_release.
  set (w1 := Device.World (Device.self w) (Device.trace w ++ [Acquired])).
  destruct (quiet_elim body w1 Hb) as [Ha Hr].
  destruct (body w1) as [r w2]. simpl in *.
  unfold Device.acquisitions, Device.releases in *. subst w1. simpl in *.
  rewrite !List.filter_app in *. simpl in *.
  rewrite !length_app in *. simpl in *.
  rewrite Ha, Hr. repeat split; lia.
Qed.

(** Every cycle leaves the [async with] block as often as it entered it,
    and enters it at most once. *)
Lemma update_balanced (T : transport) :
  adds (Device.update T) (fun a r => a = r /\ (a <= 1)%nat).
Proof.
  unfold Device.update.
  apply adds_bind; [apply quiet_gets | | split; lia]. intros me.
  apply adds_bind; [now apply quiet_emit | | split; lia]. intros _.
  apply adds_bind; [apply quiet_find | | split; lia]. intros dev.
  apply adds_bind; [ | | split; lia].
  - apply quiet_try_timeout. destruct dev as [d|]; [|apply quiet_raise].
    apply quiet_bind; [now apply quiet_emit | intros _; apply quiet_lift].
  - intros [c|]; [|apply adds_quiet; [now apply quiet_emit | split; lia]].
    apply adds_bind; [now apply quiet_emit | | split; lia]. intros _.
    apply adds_bind; [now apply quiet_emit | | split; lia]. intros _.
    apply adds_bind; [apply quiet_lift | | split; lia]. intros [svc|].
    + intros w.
      destruct (adds_with_block
                  (bind (gets Device.self) (fun me0 =>
                     for_each (seq 0 (length (Device.sensors me0)))
                       (Device.update_sensor svc))) ) with (w := w)
        as (a & r & Ha & Hr & -> & ->).
      * apply quiet_bind; [apply quiet_gets|]. intros me0.
        apply quiet_for_each. intros i. apply quiet_update_sensor.
      * exists 1%nat, 1%nat. repeat split; auto.
    + apply adds_quiet; [now apply quiet_emit | split; lia].
Qed.

Lemma run_update_balanced (T : transport) (d : Device.t) :
  Device.releases (Device.trace (snd (Device.run_update T d)))
  = Device.acquisitions (Device.trace (snd (Device.run_update T d))) /\
  (Device.releases (Device.trace (snd (Device.run_update T d))) <= 1)%nat.
Proof.
  unfold Device.run_update.
  destruct (update_balanced T (Device.World d [])) as (a & r & Ha & Hr & -> & Hle).
  rewrite Ha, Hr. simpl. split; lia.
Qed.

(** C2, at the point where the code departs from it: the peripheral
    connects but does not offer the service.  [update] returns from inside
    the function before the [async with] block: the connection was opened
    ([ConnectCalled]) and is never closed. *)
Theorem update_leaves_connection_open :
  fst (Device.run_update without_service station) = Ret tt /\
  Device.trace (snd (Device.run_update without_service station))
  = [ Printed (Updating "enviro-indoor");
      Scanned;
      Printed (ScanResult enviro);
      ConnectCalled 1;
      Printed (Text "Connected...");
      ServiceCalled ENVIRONMENTAL_SENSING;
      Printed (Text "Could not find ENVIRONMENTAL_SENSING service") ] /\
  Device.releases (Device.trace (snd (Device.run_update without_service station)))
  = 0%nat.
Proof. repeat split; vm_compute; reflexivity. Qed.

(** Where the service is found the connection is closed once, whether the
    sensors were read or a read raised. *)
Lemma update_closes_entered_connection :
  Device.releases
    (Device.trace (snd (Device.run_update (serving resolution_times_out) station)))
  = 1%nat /\
  Device.releases
    (Device.trace (snd (Device.run_update (serving read_times_out) station)))
  = 1%nat /\
  Device.releases
    (Device.trace (snd (Device.run_update (serving malformed) station)))
  = 1%nat.
Proof. repeat split; vm_compute; reflexivity. Qed.

(** ** The refresh cycle: one sensor failing *)

(** The scenario of the specification: resolving the temperature
    characteristic times out, humidity reads 40.00.  The temperature buffer
    is unchanged, the humidity buffer has one new entry, the connection is
    closed once. *)
Lemma resolution_timeout_is_skipped :
  fst (Device.run_update (serving resolution_times_out) station) = Ret tt /\
  buffers (Device.self (snd (Device.run_update (serving resolution_times_out) station)))
  = [ ([None; None; None], 0%nat, 20%Q, 40%Q);
      ([Some 40.00%Q; None; None], 1%nat, 0%Q, 100%Q) ] /\
  Device.trace (snd (Device.run_update (serving resolution_times_out) station))
  = [ Printed (Updating "enviro-indoor");
      Scanned;
      Printed (ScanResult enviro);
      ConnectCalled 1;
      Printed (Text "Connected...");
      ServiceCalled ENVIRONMENTAL_SENSING;
      Acquired;
      CharacteristicCalled TEMPERATURE;
      Printed (Text "Timeout discovering services/characteristics");
      CharacteristicCalled HUMIDITY;
      Printed (UpdateSensor "Humidity" HUMIDITY);
      ReadCalled HUMIDITY;
      Slept 10;
      Released ].
Proof. repeat split; vm_compute; reflexivity. Qed.

(** C3, at the points where the code departs from it.  The temperature
    characteristic resolves, but its read times out: the exception leaves
    [update], the humidity characteristic is never asked for and the
    humidity buffer stays empty, although its read would have given 40.00.
    The same happens when the temperature read gives a single byte and
    the decoder raises. *)
Theorem read_failure_aborts_cycle :
  fst (Device.run_update (serving read_times_out) station) = Raise TimeoutError /\
  buffers (Device.self (snd (Device.run_update (serving read_times_out) station)))
  = buffers station /\
  Device.trace (snd (Device.run_update (serving read_times_out) station))
  = [ Printed (Updating "enviro-indoor");
      Scanned;
      Printed (ScanResult enviro);
      ConnectCalled 1;
      Printed (Text "Connected...");
      ServiceCalled ENVIRONMENTAL_SENSING;
      Acquired;
      CharacteristicCalled TEMPERATURE;
      Printed (UpdateSensor "Temp" TEMPERATURE);
      ReadCalled TEMPERATURE;
      Released ] /\
  fst (Device.run_update (serving malformed) station) = Raise StructError /\
  buffers (Device.self (snd (Device.run_update (serving malformed) station)))
  = buffers station /\
  Device.trace (snd (Device.run_update (serving malformed) station))
  = Device.trace (snd (Device.run_update (serving read_times_out) station)) /\
  read_times_out HUMIDITY = Ret (reading 4000) /\
  malformed HUMIDITY = Ret (reading 4000) /\
  Sensor.dlog (recorded humidity_sensor [4000]) = [Some 40.00%Q; None; None].
Proof. repeat split; vm_compute; reflexivity. Qed.

(** ** The refresh cycle: nobody answers the scan *)

Lemma scan_loop_no_match (results : list advertisement) (d : Device.t)
    (tr : list event) :
  Device.device d = None ->
  Forall (fun a => matches d a = false) results ->
  Device.scan_loop results (Device.World d tr)
  = (Ret None, Device.World d (tr ++ ((fun a => Printed (ScanResult a)) <$> results))).
Proof.
  intros Hd HF. revert tr. induction HF as [|a results Ha _ IH]; intros tr.
  - simpl. unfold gets. simpl. rewrite Hd, app_nil_r. reflexivity.
  - cbn [Device.scan_loop]. unfold bind, Device.emit, modify, gets. simpl.
    unfold matches in Ha. rewrite Ha. rewrite IH.
    rewrite <- app_assoc. reflexivity.
Qed.

(** C4, as the code has it: with no cached device and no advertisement
    that matches, [find] returns [None] and [update] raises
    [AttributeError] at [device.connect()]: it does not return, and it
    prints nothing about the failure.  Nothing but the scan has run, and
    the device object, its sensors included, is as before. *)
Theorem update_without_device_raises (T : transport) (d : Device.t) :
  Device.device d = None ->
  Forall (fun a => matches d a = false) (scan T) ->
  Device.run_update T d
  = (Raise AttributeError,
     Device.World d
       (Printed (Updating (Device.name d)) :: Scanned ::
        ((fun a => Printed (ScanResult a)) <$> scan T))).
Proof.
  intros Hd HF. unfold Device.run_update, Device.update.
  unfold bind at 1. unfold gets at 1. cbn [fst snd Device.self].
  unfold bind at 1. unfold Device.emit at 1, modify at 1.
  cbn [Device.self Device.trace app].
  unfold bind at 1. unfold Device.find.
  unfold bind at 1. unfold gets at 1. cbn [Device.self]. rewrite Hd.
  unfold bind at 1. unfold Device.emit at 1, modify at 1.
  cbn [Device.self Device.trace app].
  rewrite (scan_loop_no_match (scan T) d _ Hd HF).
  reflexivity.
Qed.

Lemma update_without_device_station :
  Device.run_update nobody_there station
  = (Raise AttributeError,
     Device.World station [Printed (Updating "enviro-indoor"); Scanned]).
Proof.
  apply (update_without_device_raises nobody_there station).
  - reflexivity.
  - constructor.
Defined.

(** ** What the display makes of it *)

(** [draw_graph] with the geometry of the demo (a 316 x 116 panel, bars of
    width 4 and margin 2): on a sensor without readings the unpacking of
    the statistics raises; on the auto-ranging sensor that read 2.0 the
    first bar divides by zero; on the sensor of the demo that read 25.00
    it draws one bar. *)
Lemma draw_graph_outcomes :
  Sensor.draw_graph fresh_temp 316 116 4 2 = Raise TypeError /\
  Sensor.draw_graph (recorded fresh_temp [200]) 316 116 4 2
    = Raise ZeroDivisionError /\
  exists st,
    Sensor.draw_graph (recorded temp_sensor [2500]) 316 116 4 2
      = Ret ([21], st).
Proof.
  split; [vm_compute; reflexivity|]. split; [vm_compute; reflexivity|].
  eexists. vm_compute. reflexivity.
Qed.

(** * Further properties *)

(** ** Decoding: every pair of bytes *)

Lemma byte_val_range (b : Byte.byte) : 0 <= byte_val b < 256.
Proof.
  unfold byte_val. pose proof (Byte.to_N_bounded b). lia.
Qed.

Lemma byte_of_Z_val (b : Byte.byte) : byte_of_Z (byte_val b) = b.
Proof.
  unfold byte_of_Z. rewrite Z.mod_small by apply byte_val_range.
  unfold byte_val. rewrite N2Z.id, Byte.of_to_N. reflexivity.
Qed.

Lemma lor_shiftl_8 (a b : Z) :
  0 <= a < 256 -> 0 <= b -> Z.lor a (Z.shiftl b 8) = a + 256 * b.
Proof.
  intros Ha Hb.
  rewrite <- Z.lxor_lor, <- Z.add_nocarry_lxor.
  - rewrite Z.shiftl_mul_pow2 by lia. change (2 ^ 8) with 256. lia.
  - apply Z.bits_inj'. intros n Hn. rewrite Z.land_spec, Z.bits_0.
    destruct (Z.lt_ge_cases n 8).
    + rewrite Z.shiftl_spec_low by lia. apply andb_false_r.
    + rewrite (Z.bits_above_log2 a n); [reflexivity | lia |].
      destruct (Z.eq_dec a 0) as [->|Hne]; [simpl; lia|].
      apply Z.lt_le_trans with 8; [|lia].
      apply Z.log2_lt_pow2; [lia|]. change (2 ^ 8) with 256. lia.
  - apply Z.bits_inj'. intros n Hn. rewrite Z.land_spec, Z.bits_0.
    destruct (Z.lt_ge_cases n 8).
    + rewrite Z.shiftl_spec_low by lia. apply andb_false_r.
    + rewrite (Z.bits_above_log2 a n); [reflexivity | lia |].
      destruct (Z.eq_dec a 0) as [->|Hne]; [simpl; lia|].
      apply Z.lt_le_trans with 8; [|lia].
      apply Z.log2_lt_pow2; [lia|]. change (2 ^ 8) with 256. lia.
Qed.

(** The 16-bit word of two bytes and what [unpack_h] makes of it. *)
Lemma unpack_h_value (b0 b1 : Byte.byte) :
  unpack_h [b0; b1]
  = Ret (if byte_val b1 <? 128
         then byte_val b0 + 256 * byte_val b1
         else byte_val b0 + 256 * byte_val b1 - 65536).
Proof.
  pose proof (byte_val_range b0) as H0. pose proof (byte_val_range b1) as H1.
  unfold unpack_h. rewrite lor_shiftl_8 by lia. f_equal.
  set (u := byte_val b0 + 256 * byte_val b1).
  destruct (Z.testbit u 15) eqn:E.
  - apply Z.testbit_true in E; [|lia]. change (2 ^ 15) with 32768 in E.
    destruct (Z.ltb_spec (byte_val b1) 128); [|reflexivity].
    rewrite (Z.div_small u 32768) in E by (unfold u; lia). discriminate.
  - apply Z.testbit_false in E; [|lia]. change (2 ^ 15) with 32768 in E.
    destruct (Z.ltb_spec (byte_val b1) 128); [reflexivity|].
    replace (u / 32768) with 1 in E; [discriminate|].
    apply Z.div_unique with (r := u - 32768); unfold u; lia.
Qed.

Lemma le16_of_bytes (b0 b1 : Byte.byte) (raw : Z) :
  raw = byte_val b0 + 256 * byte_val b1 \/
  raw = byte_val b0 + 256 * byte_val b1 - 65536 ->
  le16 raw = [b0; b1].
Proof.
  pose proof (byte_val_range b0) as H0. pose proof (byte_val_range b1) as H1.
  intros Hraw. unfold le16.
  change 255 with (Z.ones 8). rewrite !Z.land_ones by lia.
  rewrite Z.shiftr_div_pow2 by lia. change (2 ^ 8) with 256.
  assert (E0 : raw mod 256 = byte_val b0).
  { destruct Hraw as [-> | ->].
    - symmetry. apply Z.mod_unique with (q := byte_val b1); lia.
    - symmetry. apply Z.mod_unique with (q := byte_val b1 - 256); lia. }
  assert (E1 : (raw / 256) mod 256 = byte_val b1).
  { destruct Hraw as [-> | ->].
    - replace ((byte_val b0 + 256 * byte_val b1) / 256) with (byte_val b1).
      + apply Z.mod_small; lia.
      + apply Z.div_unique with (r := byte_val b0); lia.
    - replace ((byte_val b0 + 256 * byte_val b1 - 65536) / 256)
        with (byte_val b1 - 256).
      + symmetry. apply Z.mod_unique with (q := -1); lia.
      + apply Z.div_unique with (r := byte_val b0); lia. }
  rewrite E0, E1, !byte_of_Z_val. reflexivity.
Qed.

(** X1: [struct.unpack("<h", ...)] succeeds on every pair of bytes; the
    value is an integer from -32768 to 32767, negative exactly when the
    top bit of the second byte is set, and its little-endian encoding is
    the pair of bytes read. *)
Theorem unpack_h_two_bytes (b0 b1 : Byte.byte) :
  exists raw : Z,
    unpack_h [b0; b1] = Ret raw /\
    -32768 <= raw < 32768 /\
    (raw < 0 <-> 128 <= byte_val b1) /\
    le16 raw = [b0; b1].
Proof.
  pose proof (byte_val_range b0) as H0. pose proof (byte_val_range b1) as H1.
  eexists. split; [apply unpack_h_value|].
  destruct (Z.ltb_spec (byte_val b1) 128).
  - split; [lia|]. split; [lia|]. apply le16_of_bytes. now left.
  - split; [lia|]. split; [lia|]. apply le16_of_bytes. now right.
Qed.



(** ** Constructing a sensor *)



(** ** Recording: any number of readings, from the constructor on *)

(** X4: on a sensor constructed with [n] slots, fewer than [n] calls of
    [update] whose reads and decodings succeed all return; afterwards
    [length] is the number of calls, the log holds the decoded readings in
    the order of the calls followed by empty slots, and the cursor stands
    behind the last reading. *)
Theorem record_until_full (n : nat) (c : string) (u : Z)
    (dr : option (Q * Q)) (s0 : Sensor.t) (chs : list characteristic)
    (vs : list Q) :
  (length vs < n)%nat ->
  Sensor.__init__ c (Z.of_nat n) u dr = Ret s0 ->
  Forall2 (reads_as (Sensor.decode s0)) chs vs ->
  exists s,
    updates chs s0 = (Ret tt, s) /\
    Sensor.length s = Z.of_nat (length vs) /\
    Sensor.dlog s = (Some <$> vs) ++ replicate (n - length vs) None /\
    Sensor.present (Sensor.dlog s) = vs /\
    Sensor.dptr s = length vs.
Proof.
  intros Hlt Hi HF. assert (Hn : (1 <= n)%nat) by lia.
  pose proof (tracks_init n c u dr s0 Hn Hi) as Ht0.
  destruct (tracks_updates n _ chs vs Hn HF [] s0 Ht0) as (s & Hu & Ht).
  cbn [app] in Ht.
  destruct (tracks_partial n _ vs s Hlt Ht) as (Hl & Hp & Hd).
  exists s. repeat split; try assumption.
  destruct Ht as (_ & _ & -> & _). lia.
Qed.

Lemma record_until_full_two_of_three :
  exists s,
    updates [reading 2500; reading 2600] temp_sensor = (Ret tt, s) /\
    Sensor.length s = 2 /\
    Sensor.dlog s = [Some 25.00%Q; Some 26.00%Q; None].
Proof.
  destruct (record_until_full 3 "Temp" TEMPERATURE (Some (20, 40)%Q)
              temp_sensor [reading 2500; reading 2600] [25.00%Q; 26.00%Q])
    as (s & Hu & Hl & Hd & _).
  - simpl. lia.
  - reflexivity.
  - repeat constructor; eexists; split; reflexivity.
  - exists s. repeat split; assumption.
Defined.

(** X5: on a sensor constructed with [n >= 1] slots, [n] or more calls of
    [update] whose reads and decodings succeed all return; afterwards
    [length] is [n], no slot is empty, the cursor stands on the last slot,
    and the slots hold the last [n - 1] readings in the order of the calls
    followed by the newest reading once more. *)
Theorem record_when_full (n : nat) (c : string) (u : Z)
    (dr : option (Q * Q)) (s0 : Sensor.t) (chs : list characteristic)
    (vs : list Q) :
  (1 <= n <= length vs)%nat ->
  Sensor.__init__ c (Z.of_nat n) u dr = Ret s0 ->
  Forall2 (reads_as (Sensor.decode s0)) chs vs ->
  exists s,
    updates chs s0 = (Ret tt, s) /\
    Sensor.length s = Z.of_nat n /\
    Sensor.dlog s
    = Some <$> (drop (length vs - (n - 1)) vs ++ [List.last vs 0%Q]) /\
    Sensor.dptr s = (n - 1)%nat.
Proof.
  intros Hle Hi HF. assert (Hn : (1 <= n)%nat) by lia.
  pose proof (tracks_init n c u dr s0 Hn Hi) as Ht0.
  destruct (tracks_updates n _ chs vs Hn HF [] s0 Ht0) as (s & Hu & Ht).
  cbn [app] in Ht.
  destruct (tracks_full n _ vs s Hle Ht) as (Hl & _).
  exists s. split; [assumption|]. split; [assumption|].
  destruct Ht as (_ & _ & -> & ->). split; [|lia].
  unfold log_after. destruct (Nat.ltb_spec (length vs) n); [lia|].
  now rewrite fmap_app.
Qed.

Lemma record_when_full_three_in_two :
  exists s,
    updates [reading 100; reading 200; reading 300] two_slots = (Ret tt, s) /\
    Sensor.dlog s = [Some 3.00%Q; Some 3.00%Q].
Proof.
  destruct (record_when_full 2 "Temp" TEMPERATURE (Some (0, 100)%Q)
              two_slots [reading 100; reading 200; reading 300]
              [1.00%Q; 2.00%Q; 3.00%Q])
    as (s & Hu & _ & Hd & _).
  - simpl. lia.
  - reflexivity.
  - repeat constructor; eexists; split; reflexivity.
  - exists s. split; assumption.
Defined.

(** ** One [update]: what fails and what stays *)

Lemma update_raises (s : Sensor.t) (ch : characteristic) (e : exn) :
  read ch = Raise e \/
  (exists raw, read ch = Ret raw /\ Sensor.decode s raw = Raise e) ->
  Sensor.update ch s = (Raise e, s).
Proof.
  intros [Hr | (raw & Hr & Hd)]; unfold Sensor.update, bind, lift, get.
  - now rewrite Hr.
  - now rewrite Hr, Hd.
Qed.

(** X6: when the read raises, or the decoder raises on the bytes read,
    [update] raises the same exception and leaves the sensor as it was:
    log, cursor and bounds included. *)
Theorem update_failure_keeps_sensor (s : Sensor.t) (ch : characteristic)
    (e : exn) :
  read ch = Raise e \/
  (exists raw, read ch = Ret raw /\ Sensor.decode s raw = Raise e) ->
  fst (Sensor.update ch s) = Raise e /\
  snd (Sensor.update ch s) = s.
Proof.
  intros H. rewrite (update_raises s ch e H). split; reflexivity.
Qed.

Lemma update_failure_keeps_sensor_short_read :
  fst (Sensor.update {| read := Ret [Byte.x01] |} temp_sensor)
  = Raise StructError /\
  snd (Sensor.update {| read := Ret [Byte.x01] |} temp_sensor) = temp_sensor.
Proof.
  apply update_failure_keeps_sensor. right.
  exists [Byte.x01]. split; reflexivity.
Defined.

Lemma same_config_refl (s : Sensor.t) : same_config s s.
Proof. repeat split. Qed.

Lemma same_config_trans (s1 s2 s3 : Sensor.t) :
  same_config s1 s2 -> same_config s2 s3 -> same_config s1 s3.
Proof.
  unfold same_config. intros (A1 & A2 & A3 & A4 & A5 & A6)
    (B1 & B2 & B3 & B4 & B5 & B6).
  repeat split; congruence.
Qed.

Lemma same_config_set_dlog (s : Sensor.t) (i : nat) (x : option Q) :
  same_config s (Sensor.set_dlog s (<[i := x]> (Sensor.dlog s))).
Proof. repeat split. cbn. apply length_insert. Qed.

Lemma same_config_reranged (s : Sensor.t) (v : Q) : same_config s (reranged s v).
Proof.
  unfold reranged. destruct (Sensor.autorange s) eqn:E; repeat split.
Qed.

Lemma shift_body_fields (i : nat) (s : Sensor.t) :
  same_config s (snd (shift_body i s)) /\
  Sensor.dptr (snd (shift_body i s)) = Sensor.dptr s /\
  Sensor.lower (snd (shift_body i s)) = Sensor.lower s /\
  Sensor.upper (snd (shift_body i s)) = Sensor.upper s.
Proof.
  unfold shift_body, bind, Sensor.dlog_get, Sensor.dlog_set.
  destruct (Sensor.dlog s !! i) as [x|]; [|repeat split].
  cbn [Sensor.dlog]. destruct (i - 1 <? length (Sensor.dlog s))%nat;
    [|repeat split].
  cbn [snd]. split; [apply same_config_set_dlog | repeat split].
Qed.

Lemma shift_loop_fields (idx : list nat) (s : Sensor.t) :
  same_config s (snd (for_each idx shift_body s)) /\
  Sensor.dptr (snd (for_each idx shift_body s)) = Sensor.dptr s /\
  Sensor.lower (snd (for_each idx shift_body s)) = Sensor.lower s /\
  Sensor.upper (snd (for_each idx shift_body s)) = Sensor.upper s.
Proof.
  revert s. induction idx as [|i idx IH]; intros s; [repeat split|].
  cbn [for_each]. unfold bind.
  destruct (shift_body_fields i s) as (Hc & Hp & Hl & Hu).
  destruct (shift_body i s) as [[[]|e] s1]; cbn [snd] in *.
  - destruct (IH s1) as (Hc1 & Hp1 & Hl1 & Hu1).
    split; [eapply same_config_trans; eassumption|].
    repeat split; congruence.
  - auto.
Qed.

Lemma update_fields (s : Sensor.t) (ch : characteristic) :
  same_config s (snd (Sensor.update ch s)) /\
  (Sensor.dptr s <= Sensor.dptr (snd (Sensor.update ch s))
     <= S (Sensor.dptr s))%nat /\
  (Sensor.autorange s = false ->
   Sensor.lower (snd (Sensor.update ch s)) = Sensor.lower s /\
   Sensor.upper (snd (Sensor.update ch s)) = Sensor.upper s).
Proof.
  destruct (read ch) as [raw|e] eqn:Hr.
  2:{ rewrite (update_raises s ch e) by now left.
      cbn [snd]. split; [apply same_config_refl|]. split; [lia | auto]. }
  destruct (Sensor.decode s raw) as [v|e] eqn:Hd.
  2:{ rewrite (update_raises s ch e) by (right; eauto).
      cbn [snd]. split; [apply same_config_refl|]. split; [lia | auto]. }
  rewrite (update_run s ch raw v Hr Hd). cbv zeta.
  pose proof (same_config_reranged s v) as Hc.
  destruct (reranged_fields s v) as (_ & _ & R3 & R4 & _).
  assert (Hfix : Sensor.autorange s = false ->
                 Sensor.lower (reranged s v) = Sensor.lower s /\
                 Sensor.upper (reranged s v) = Sensor.upper s).
  { intros Ha. unfold reranged. rewrite Ha. auto. }
  destruct (Sensor.dptr s <? length (Sensor.dlog s))%nat.
  2:{ cbn [snd]. split; [exact Hc|]. split; [lia | exact Hfix]. }
  set (s2 := Sensor.set_dlog (reranged s v)
               (<[Sensor.dptr s:=Some v]> (Sensor.dlog s))).
  assert (Hc2 : same_config s s2).
  { eapply same_config_trans; [exact Hc|]. unfold s2. rewrite <- R4.
    apply same_config_set_dlog. }
  destruct (Z.of_nat (Sensor.dptr s) =? Sensor._length s - 1).
  - destruct (shift_loop_fields (seq 1 (Z.to_nat (Sensor._length s - 1))) s2)
      as (Hc3 & Hp3 & Hl3 & Hu3).
    split; [eapply same_config_trans; eassumption|].
    rewrite Hp3, Hl3, Hu3. unfold s2. cbn [Sensor.set_dlog Sensor.dptr
      Sensor.lower Sensor.upper]. rewrite R3. split; [lia | exact Hfix].
  - cbn [snd]. split; [|split].
    + destruct Hc2 as (A1 & A2 & A3 & A4 & A5 & A6). repeat split; assumption.
    + cbn. lia.
    + exact Hfix.
Qed.

(** X7: whatever the read gives and however [update] ends, it leaves the
    caption, the identifier, the capacity, the decoder, the auto-range flag
    and the number of slots of the sensor as they were; the cursor stays
    or moves on by one; and with a fixed range (auto-range off) the bounds
    stay as given to the constructor. *)
Theorem update_keeps_configuration (s : Sensor.t) (ch : characteristic) :
  same_config s (snd (Sensor.update ch s)) /\
  (Sensor.dptr s <= Sensor.dptr (snd (Sensor.update ch s))
     <= S (Sensor.dptr s))%nat /\
  (Sensor.autorange s = false ->
   Sensor.lower (snd (Sensor.update ch s)) = Sensor.lower s /\
   Sensor.upper (snd (Sensor.update ch s)) = Sensor.upper s).
Proof. exact (update_fields s ch). Qed.

(** ** Auto-range: how far the bounds are from the readings *)

Lemma round_half_even_near (x : Q) :
  (inject_Z (round_half_even x) - (1 # 2) <= x
     <= inject_Z (round_half_even x) + (1 # 2))%Q.
Proof.
  unfold round_half_even.
  pose proof (Qfloor_le x) as H1. pose proof (Qlt_floor x) as H2.
  set (f := Qfloor x) in *. rewrite inject_Z_plus in H2.
  change (inject_Z 1) with 1%Q in H2.
  destruct (Qcompare_spec (x - inject_Z f) (1 # 2)) as [E|E|E].
  - destruct (Z.even f); [split; lra|].
    rewrite inject_Z_plus. change (inject_Z 1) with 1%Q. split; lra.
  - split; lra.
  - rewrite inject_Z_plus. change (inject_Z 1) with 1%Q. split; lra.
Qed.

Lemma round_tens_near (y : Q) : (round_tens y - 5 <= y <= round_tens y + 5)%Q.
Proof.
  unfold round_tens. pose proof (round_half_even_near (y / 10)) as [H1 H2].
  set (k := round_half_even (y / 10)) in *.
  rewrite inject_Z_mult. change (inject_Z 10) with 10%Q.
  assert (E : (y == 10 * (y / 10))%Q) by (field).
  set (z := (y / 10)%Q) in *. split; lra.
Qed.

Lemma fold_min_lower (l : list Q) (x : Q) :
  Forall (fun y => (fold_left Qmin l x <= y)%Q) (x :: l).
Proof.
  revert x. induction l as [|z l IH]; intros x.
  - constructor; [apply Qle_refl | constructor].
  - cbn [fold_left]. specialize (IH (Qmin x z)).
    inversion IH as [|? ? Hh Ht]; subst.
    constructor; [|constructor].
    + eapply Qle_trans; [exact Hh | apply Q.le_min_l].
    + eapply Qle_trans; [exact Hh | apply Q.le_min_r].
    + exact Ht.
Qed.

Lemma fold_max_upper (l : list Q) (x : Q) :
  Forall (fun y => (y <= fold_left Qmax l x)%Q) (x :: l).
Proof.
  revert x. induction l as [|z l IH]; intros x.
  - constructor; [apply Qle_refl | constructor].
  - cbn [fold_left]. specialize (IH (Qmax x z)).
    inversion IH as [|? ? Hh Ht]; subst.
    constructor; [|constructor].
    + eapply Qle_trans; [apply Q.le_max_l | exact Hh].
    + eapply Qle_trans; [apply Q.le_max_r | exact Hh].
    + exact Ht.
Qed.

Lemma min_default_lower (l : list Q) (d : Q) :
  Forall (fun y => (min_default l d <= y)%Q) l.
Proof. destruct l as [|x l]; [constructor | apply fold_min_lower]. Qed.

Lemma max_default_upper (l : list Q) (d : Q) :
  Forall (fun y => (y <= max_default l d)%Q) l.
Proof. destruct l as [|x l]; [constructor | apply fold_max_upper]. Qed.

(** X8: after an [update] of an auto-ranging sensor that read and decoded
    [v], both bounds are integer multiples of ten with
    [lower <= round(v / 2, -1)], [round(v * 2, -1) <= upper] and
    [lower <= upper]; every reading that was in the log before the call
    lies in the range widened by 5 on either side, and so does [v] itself
    when it is not negative. *)
Theorem autorange_after_update (s : Sensor.t) (ch : characteristic)
    (raw : list Byte.byte) (v : Q) :
  Sensor.autorange s = true ->
  read ch = Ret raw ->
  Sensor.decode s raw = Ret v ->
  (exists a b : Z,
      Sensor.lower (snd (Sensor.update ch s)) = inject_Z (10 * a) /\
      Sensor.upper (snd (Sensor.update ch s)) = inject_Z (10 * b)) /\
  (Sensor.lower (snd (Sensor.update ch s)) <= round_tens (v / 2))%Q /\
  (round_tens (v * 2) <= Sensor.upper (snd (Sensor.update ch s)))%Q /\
  (Sensor.lower (snd (Sensor.update ch s))
     <= Sensor.upper (snd (Sensor.update ch s)))%Q /\
  Forall (fun x =>
            (Sensor.lower (snd (Sensor.update ch s)) - 5 <= x
               <= Sensor.upper (snd (Sensor.update ch s)) + 5)%Q)
         (Sensor.present (Sensor.dlog s)) /\
  ((0 <= v)%Q ->
   (Sensor.lower (snd (Sensor.update ch s)) - 5 <= v
      <= Sensor.upper (snd (Sensor.update ch s)) + 5)%Q).
Proof.
  intros Ha Hr Hd.
  destruct (update_bounds s ch raw v Hr Hd) as [-> ->].
  destruct (reranged_bounds s v Ha) as (B1 & B2 & B3).
  unfold reranged in *. rewrite Ha in *.
  cbn [Sensor.lower Sensor.upper Sensor.set_lower Sensor.set_upper] in *.
  rewrite !int_round_tens in *.
  set (m := min_default (Sensor.present (Sensor.dlog s)) 0) in *.
  set (M := max_default (Sensor.present (Sensor.dlog s)) 1) in *.
  pose proof (round_tens_near (Qmin m (v / 2))) as [L1 L2].
  pose proof (round_tens_near (Qmax M (v * 2))) as [U1 U2].
  pose proof (Q.le_min_l m (v / 2)) as Hm1.
  pose proof (Q.le_min_r m (v / 2)) as Hm2.
  pose proof (Q.le_max_l M (v * 2)) as HM1.
  pose proof (Q.le_max_r M (v * 2)) as HM2.
  split; [|split; [exact B1|split; [exact B2|split; [exact B3|split]]]].
  - unfold round_tens. eexists _, _. split; reflexivity.
  - pose proof (min_default_lower (Sensor.present (Sensor.dlog s)) 0) as Hlo.
    pose proof (max_default_upper (Sensor.present (Sensor.dlog s)) 1) as Hhi.
    fold m in Hlo. fold M in Hhi.
    rewrite Forall_forall in *. intros x Hx.
    specialize (Hlo x Hx). specialize (Hhi x Hx). simpl in Hlo, Hhi.
    split; lra.
  - intros Hv.
    assert (Hh : (v / 2 <= v)%Q).
    { apply Qle_shift_div_r; [reflexivity | lra]. }
    split; lra.
Qed.

Lemma autorange_after_update_25 :
  (Sensor.lower (snd (Sensor.update (reading 2500) fresh_temp))
     <= Sensor.upper (snd (Sensor.update (reading 2500) fresh_temp)))%Q /\
  Sensor.lower (snd (Sensor.update (reading 2500) fresh_temp)) = 0%Q /\
  Sensor.upper (snd (Sensor.update (reading 2500) fresh_temp)) = 50%Q.
Proof.
  destruct (autorange_after_update fresh_temp (reading 2500)
              (le16 2500) 25.00%Q) as (_ & _ & _ & H & _).
  - reflexivity.
  - reflexivity.
  - reflexivity.
  - split; [exact H|]. split; vm_compute; reflexivity.
Defined.

(** ** A sensor without slots *)

(** X9: constructed with [samples <= 0] a sensor has no slot.  Every
    [update] whose read and decoding succeed then raises [IndexError] at
    the write into the log, after the auto-range block has run; the log
    stays empty, [length] is the number given as [samples], [min_max_avg]
    returns the bare 0 and [get_current_reading] raises [IndexError]. *)
Theorem update_without_slots (c : string) (samples u : Z)
    (dr : option (Q * Q)) (s0 : Sensor.t) (ch : characteristic)
    (raw : list Byte.byte) (v : Q) :
  samples <= 0 ->
  Sensor.__init__ c samples u dr = Ret s0 ->
  read ch = Ret raw ->
  Sensor.decode s0 raw = Ret v ->
  Sensor.update ch s0 = (Raise IndexError, reranged s0 v) /\
  Sensor.dlog (reranged s0 v) = [] /\
  Sensor.length s0 = samples /\
  Sensor.length (reranged s0 v) = samples /\
  Sensor.min_max_avg (reranged s0 v) = Ret (Sensor.Scalar 0) /\
  Sensor.get_current_reading (reranged s0 v) = Raise IndexError.
Proof.
  intros Hs Hi Hr Hd.
  assert (Hs0 : Sensor.dlog s0 = [] /\ Sensor.dptr s0 = 0%nat /\
                Sensor._length s0 = samples).
  { unfold Sensor.__init__ in Hi. destruct (DECODERS !! u); [|discriminate].
    injection Hi as <-. cbn. replace (Z.to_nat samples) with 0%nat by lia.
    auto. }
  destruct Hs0 as (Hl & Hp & Hn).
  destruct (reranged_fields s0 v) as (R1 & _ & R3 & R4 & _).
  split; [|split; [|split; [|split; [|split]]]].
  - rewrite (update_run s0 ch raw v Hr Hd). cbv zeta. now rewrite Hl, Hp.
  - now rewrite R4.
  - unfold Sensor.length. now rewrite Hl.
  - unfold Sensor.length. now rewrite R4, Hl, R1.
  - unfold Sensor.min_max_avg. now rewrite R3, Hp.
  - unfold Sensor.get_current_reading. now rewrite R4, R3, Hl, Hp.
Qed.

Lemma update_without_slots_zero :
  fst (Sensor.update (reading 2500)
         (Sensor.mk "Temp" TEMPERATURE 0 [] 0 _decode_temperature 0 1 true))
  = Raise IndexError.
Proof.
  destruct (update_without_slots "Temp" 0 TEMPERATURE None
              (Sensor.mk "Temp" TEMPERATURE 0 [] 0 _decode_temperature 0 1 true)
              (reading 2500) (le16 2500) 25.00%Q) as (H & _).
  - lia.
  - reflexivity.
  - reflexivity.
  - reflexivity.
  - now rewrite H.
Defined.

(** ** The newest reading *)

Lemma getitem_nonneg {A} (l : list A) (i : nat) (x : A) :
  l !! i = Some x -> forall z, z = Z.of_nat i -> getitem l z = Ret x.
Proof. intros H z ->. now apply getitem_lookup. Qed.

Lemma getitem_minus_one {A} (l : list A) (x : A) :
  getitem (l ++ [x]) (-1) = Ret x.
Proof.
  unfold getitem. rewrite length_app. cbn [length].
  destruct (Z.ltb_spec (-1) 0); [|lia].
  destruct (Z.leb_spec 0 (-1 + Z.of_nat (length l + 1))); [|lia].
  destruct (Z.ltb_spec (-1 + Z.of_nat (length l + 1))
              (Z.of_nat (length l + 1))); [|lia].
  cbn [andb].
  replace (Z.to_nat (-1 + Z.of_nat (length l + 1))) with (length l) by lia.
  rewrite lookup_app_r by lia. now rewrite Nat.sub_diag.
Qed.

Lemma tracks_current (n : nat) (d : decoder) (vs : list Q) (s : Sensor.t) :
  (1 <= n)%nat ->
  tracks n d vs s ->
  Sensor.get_current_reading s = Ret (last vs).
Proof.
  intros Hn (_ & _ & Hptr & Hlog). unfold Sensor.get_current_reading.
  rewrite Hptr, Hlog. unfold log_after. clear Hptr Hlog.
  induction vs as [|z vs' _] using rev_ind.
  - (* nothing recorded: index -1 is the last, empty slot *)
    cbn [length Nat.min]. destruct (Nat.ltb_spec 0 n); [|lia].
    cbn [fmap list_fmap app]. rewrite Nat.sub_0_r.
    replace n with (S (n - 1)) at 1 by lia.
    rewrite replicate_S_end. apply getitem_minus_one.
  - rewrite last_snoc. rewrite length_app. cbn [length].
    destruct (Nat.ltb_spec (length vs' + 1) n).
    + apply getitem_nonneg with (i := length vs'); [|lia].
      rewrite lookup_app_l by (rewrite length_fmap, length_app; simpl; lia).
      rewrite list_lookup_fmap, lookup_app_r by lia.
      now rewrite Nat.sub_diag.
    + rewrite last_last.
      destruct (decide (n = 1%nat)) as [->|Hn1].
      * cbn [Nat.sub]. rewrite Nat.min_0_r, Nat.sub_0_r.
        rewrite drop_ge by (rewrite length_app; simpl; lia).
        change (Z.of_nat 0 - 1) with (-1).
        apply (getitem_minus_one []).
      * apply getitem_nonneg with (i := (n - 2)%nat); [|lia].
        rewrite lookup_app_l by (rewrite length_fmap, length_drop, length_app; simpl; lia).
        rewrite list_lookup_fmap, lookup_drop.
        rewrite lookup_app_r by lia.
        replace (length vs' + 1 - (n - 1) + (n - 2) - length vs')%nat
          with 0%nat by lia.
        reflexivity.
Qed.

(** X10: on a sensor constructed with [n >= 1] slots, after any number of
    calls of [update] whose reads and decodings succeed,
    [get_current_reading] returns the reading of the last call, also once
    the log is full and is shifted; before the first call it returns the
    text "No reading yet" (here [None]). *)
Theorem current_reading_is_newest (n : nat) (c : string) (u : Z)
    (dr : option (Q * Q)) (s0 : Sensor.t) (chs : list characteristic)
    (vs : list Q) :
  (1 <= n)%nat ->
  Sensor.__init__ c (Z.of_nat n) u dr = Ret s0 ->
  Forall2 (reads_as (Sensor.decode s0)) chs vs ->
  Sensor.get_current_reading (snd (updates chs s0)) = Ret (last vs).
Proof.
  intros Hn Hi HF.
  pose proof (tracks_init n c u dr s0 Hn Hi) as Ht0.
  destruct (tracks_updates n _ chs vs Hn HF [] s0 Ht0) as (s & Hu & Ht).
  rewrite Hu. cbn [snd app] in *.
  now apply (tracks_current n (Sensor.decode s0) vs s).
Qed.

Lemma current_reading_is_newest_three_in_two :
  Sensor.get_current_reading
    (snd (updates [reading 100; reading 200; reading 300] two_slots))
  = Ret (Some 3.00%Q) /\
  Sensor.get_current_reading (snd (updates [] two_slots)) = Ret None.
Proof.
  split.
  - apply (current_reading_is_newest 2 "Temp" TEMPERATURE (Some (0, 100)%Q)
             two_slots [reading 100; reading 200; reading 300]
             [1.00%Q; 2.00%Q; 3.00%Q]).
    + lia.
    + reflexivity.
    + repeat constructor; eexists; split; reflexivity.
  - apply (current_reading_is_newest 2 "Temp" TEMPERATURE (Some (0, 100)%Q)
             two_slots [] []).
    + lia.
    + reflexivity.
    + constructor.
Defined.

(** ** [get_scaled]: every index *)

Lemma getitem_spec {A} (l : list A) (i : Z) :
  (i < - Z.of_nat (length l) \/ Z.of_nat (length l) <= i ->
   getitem l i = Raise IndexError) /\
  (- Z.of_nat (length l) <= i < Z.of_nat (length l) ->
   exists x, l !! Z.to_nat (i mod Z.of_nat (length l)) = Some x /\
             getitem l i = Ret x).
Proof.
  set (n := Z.of_nat (length l)). unfold getitem. fold n. split.
  - intros H. destruct (Z.ltb_spec i 0).
    + destruct (Z.leb_spec 0 (i + n)); [|reflexivity].
      destruct (Z.ltb_spec (i + n) n); [lia | reflexivity].
    + destruct (Z.leb_spec 0 i); [|lia].
      destruct (Z.ltb_spec i n); [lia | reflexivity].
  - intros H.
    assert (Hj : exists j, (if i <? 0 then i + n else i) = j /\
                           j = i mod n /\ 0 <= j < n).
    { destruct (Z.ltb_spec i 0).
      - exists (i + n). split; [reflexivity|]. split; [|lia].
        apply Z.mod_unique with (q := -1); lia.
      - exists i. split; [reflexivity|]. split; [|lia].
        symmetry. apply Z.mod_small. lia. }
    destruct Hj as (j & -> & Hm & Hr). rewrite <- Hm.
    destruct (Z.leb_spec 0 j); [|lia]. destruct (Z.ltb_spec j n); [|lia].
    cbn [andb].
    destruct (lookup_lt_is_Some_2 l (Z.to_nat j)) as [x Hx]; [unfold n in *; lia|].
    exists x. now rewrite Hx.
Qed.

(** X11: [get_scaled(index, scale)] over all indices of a log of [n]
    slots.  Outside [-n, n) it raises [IndexError].  Inside, a negative
    index counts from the end; on an empty slot it raises
    [ValueError("Unpopulated reading")]; on a populated slot it raises
    [ZeroDivisionError] when [upper == lower] and otherwise returns the
    stored value clamped, normalised and multiplied by [scale]. *)
Theorem get_scaled_every_index (s : Sensor.t) (i : Z) (scale : Q) :
  (i < - Z.of_nat (length (Sensor.dlog s)) \/
   Z.of_nat (length (Sensor.dlog s)) <= i ->
   Sensor.get_scaled s i scale = Raise IndexError) /\
  (- Z.of_nat (length (Sensor.dlog s)) <= i
     < Z.of_nat (length (Sensor.dlog s)) ->
   exists slot,
     Sensor.dlog s !! Z.to_nat (i mod Z.of_nat (length (Sensor.dlog s)))
       = Some slot /\
     Sensor.get_scaled s i scale =
       match slot with
       | None => Raise (ValueError "Unpopulated reading")
       | Some v =>
           if Qeq_bool (Sensor.upper s - Sensor.lower s) 0
           then Raise ZeroDivisionError
           else Ret (scaled_value (Sensor.lower s) (Sensor.upper s) v scale)
       end).
Proof.
  destruct (getitem_spec (Sensor.dlog s) i) as [Hout Hin]. split.
  - intros H. unfold Sensor.get_scaled. now rewrite (Hout H).
  - intros H. destruct (Hin H) as (slot & Hl & Hg). exists slot.
    split; [exact Hl|]. unfold Sensor.get_scaled. rewrite Hg.
    destruct slot; reflexivity.
Qed.

(** ** Statistics: which readings they cover *)

Lemma tracks_window (n : nat) (d : decoder) (vs : list Q) (s : Sensor.t) :
  (1 <= n)%nat ->
  tracks n d vs s ->
  exists rest,
    Sensor.dlog s = (Some <$> window n vs) ++ rest /\
    Sensor.dptr s = length (window n vs) /\
    length (window n vs) = Nat.min (length vs) (n - 1).
Proof.
  intros Hn (_ & _ & Hptr & Hlog). unfold window.
  assert (Hw : length (drop (length vs - Nat.min (length vs) (n - 1)) vs)
               = Nat.min (length vs) (n - 1)) by (rewrite length_drop; lia).
  rewrite Hw, Hptr, Hlog. unfold log_after.
  destruct (Nat.ltb_spec (length vs) n).
  - eexists. split; [|split; reflexivity].
    replace (length vs - Nat.min (length vs) (n - 1))%nat with 0%nat by lia.
    reflexivity.
  - eexists. split; [|split; reflexivity].
    replace (Nat.min (length vs) (n - 1)) with (n - 1)%nat by lia.
    reflexivity.
Qed.



(** ** The bars of [draw_graph] *)

Lemma index_None_populated (l : list (option Q)) (j : nat) :
  match Sensor.index_None l with
  | Some k => (k < length l)%nat /\ ((j < k)%nat -> exists v, l !! j = Some (Some v))
  | None => (j < length l)%nat -> exists v, l !! j = Some (Some v)
  end.
Proof.
  revert j. induction l as [|[x|] l IH]; intros j; cbn [Sensor.index_None].
  - cbn. lia.
  - destruct j as [|j].
    + destruct (Sensor.index_None l) as [k|]; cbn.
      * split; [specialize (IH 0%nat); cbn in IH; lia | eauto].
      * eauto.
    + specialize (IH j). destruct (Sensor.index_None l) as [k|]; cbn.
      * destruct IH as [Hk Hj]. split; [lia|]. intros H. apply Hj. lia.
      * intros H. apply IH. lia.
  - cbn. split; lia.
Qed.

Lemma length_populated (s : Sensor.t) (j : Z) :
  Sensor._length s = Z.of_nat (length (Sensor.dlog s)) ->
  0 <= Sensor.length s <= Z.of_nat (length (Sensor.dlog s)) /\
  (0 <= j < Sensor.length s ->
   exists v, getitem (Sensor.dlog s) j = Ret (Some v)).
Proof.
  intros Hlen. unfold Sensor.length.
  pose proof (index_None_populated (Sensor.dlog s) (Z.to_nat j)) as H.
  destruct (Sensor.index_None (Sensor.dlog s)) as [k|].
  - destruct H as [Hk Hj]. split; [lia|]. intros Hr.
    destruct Hj as [v Hv]; [lia|]. exists v.
    apply getitem_nonneg with (i := Z.to_nat j); [exact Hv | lia].
  - rewrite Hlen. split; [lia|]. intros Hr.
    destruct H as [v Hv]; [lia|]. exists v.
    apply getitem_nonneg with (i := Z.to_nat j); [exact Hv | lia].
Qed.

Lemma int_range (r : Q) (m : Z) :
  (0 <= r <= inject_Z m)%Q -> 0 <= int r <= m.
Proof.
  intros [H0 Hm]. unfold int.
  destruct (Qle_bool 0 r) eqn:E.
  - split.
    + rewrite <- (Qfloor_Z 0). now apply Qfloor_resp_le.
    + rewrite <- (Qfloor_Z m). now apply Qfloor_resp_le.
  - apply Qle_bool_iff in H0. congruence.
Qed.

Lemma get_scaled_in_range (s : Sensor.t) (i : Z) (v scale : Q) :
  (Sensor.lower s < Sensor.upper s)%Q ->
  getitem (Sensor.dlog s) i = Ret (Some v) ->
  (0 <= scale)%Q ->
  exists r, Sensor.get_scaled s i scale = Ret r /\ (0 <= r <= scale)%Q.
Proof.
  intros Hlu Hi Hs. eexists. split.
  - rewrite (get_scaled_populated s i v scale Hi).
    now rewrite Qeq_bool_sub_false.
  - now apply scaled_value_range.
Qed.

Lemma bars_fold (s : Sensor.t) (start : Z) (scale : Q) (m : Z) (k a : nat)
    (bars0 : list Z) :
  (forall i, (a <= i < a + k)%nat ->
     exists r, Sensor.get_scaled s (start + Z.of_nat i) scale = Ret r /\
               0 <= int r <= m) ->
  exists new,
    fold_left
      (fun acc i =>
         obind acc (fun bars =>
           obind (Sensor.get_scaled s (start + Z.of_nat i) scale)
             (fun r => Ret (bars ++ [int r]))))
      (seq a k) (Ret bars0)
    = Ret (bars0 ++ new) /\
    length new = k /\
    Forall (fun b => 0 <= b <= m) new.
Proof.
  revert a bars0. induction k as [|k IH]; intros a bars0 H.
  - exists []. rewrite app_nil_r. repeat split. constructor.
  - cbn [seq fold_left obind].
    destruct (H a) as (r & Hr & Hb); [lia|]. rewrite Hr. cbn [obind].
    destruct (IH (S a) (bars0 ++ [int r])) as (new & Hf & Hl & HF).
    { intros i Hi. apply H. lia. }
    exists (int r :: new). rewrite Hf, <- app_assoc. split; [reflexivity|].
    split; [simpl; lia | now constructor].
Qed.

(** The bar loop on a sensor whose range is not empty. *)
Lemma bars_in_range (s : Sensor.t) (w h bar_width bar_margin : Z) :
  Sensor._length s = Z.of_nat (length (Sensor.dlog s)) ->
  (Sensor.lower s < Sensor.upper s)%Q ->
  30 <= h ->
  0 < bar_width + bar_margin ->
  0 <= w ->
  exists bars,
    Sensor.draw_graph_bars s w h bar_width bar_margin = Ret bars /\
    Z.of_nat (length bars)
    = Z.min (Sensor.length s) (w / (bar_width + bar_margin)) /\
    Forall (fun b => 0 <= b <= h - 30) bars.
Proof.
  intros Hlen Hlu Hh Hsp Hw. unfold Sensor.draw_graph_bars. cbv zeta.
  destruct (Z.eqb_spec (bar_width + bar_margin) 0); [lia|].
  set (sp := bar_width + bar_margin) in *.
  assert (Hk : int (inject_Z w / inject_Z sp) = w / sp).
  { unfold int. rewrite <- Zdiv_Qdiv.
    destruct (Qle_bool 0 (inject_Z w / inject_Z sp)) eqn:E; [reflexivity|].
    exfalso. assert (H0 : (0 <= inject_Z w / inject_Z sp)%Q).
    { apply Qle_shift_div_l.
      - change 0%Q with (inject_Z 0). rewrite <- Zlt_Qlt. lia.
      - rewrite Qmult_0_l. change 0%Q with (inject_Z 0). rewrite <- Zle_Qle. lia. }
    apply Qle_bool_iff in H0. congruence. }
  rewrite Hk.
  assert (Hq : 0 <= w / sp) by (apply Z.div_pos; lia).
  destruct (length_populated s 0 Hlen) as [Hl0 _].
  set (len := Sensor.length s) in *.
  set (start := Z.max 0 (len - w / sp)).
  destruct (bars_fold s start (inject_Z (h - 30)) (h - 30)
              (Z.to_nat (len - start)) 0 []) as (new & Hf & Hn & HF).
  { intros i Hi.
    destruct (length_populated s (start + Z.of_nat i) Hlen) as [_ Hp].
    destruct Hp as [v Hv]; [fold len; unfold start in *; lia|].
    destruct (get_scaled_in_range s (start + Z.of_nat i) v
                (inject_Z (h - 30)) Hlu Hv) as (r & Hr & Hb).
    { change 0%Q with (inject_Z 0). rewrite <- Zle_Qle. lia. }
    exists r. split; [exact Hr|]. now apply int_range. }
  exists new. cbn [app] in Hf. split; [exact Hf|]. split; [|exact HF].
  rewrite Hn. unfold start. lia.
Qed.

(** X13: for a sensor whose capacity is its number of slots, with
    [lower < upper], a panel height [h >= 30], a positive bar spacing and
    a width [w >= 0], the bar loop of [draw_graph] raises nothing; it
    draws [min(length, w // bar_spacing)] bars, and every bar height lies
    between 0 and [h - 30]. *)
Theorem draw_graph_bars_drawn (s : Sensor.t) (w h bar_width bar_margin : Z) :
  Sensor._length s = Z.of_nat (length (Sensor.dlog s)) ->
  (Sensor.lower s < Sensor.upper s)%Q ->
  30 <= h ->
  0 < bar_width + bar_margin ->
  0 <= w ->
  exists bars,
    Sensor.draw_graph_bars s w h bar_width bar_margin = Ret bars /\
    Z.of_nat (length bars)
    = Z.min (Sensor.length s) (w / (bar_width + bar_margin)) /\
    Forall (fun b => 0 <= b <= h - 30) bars.
Proof. exact (bars_in_range s w h bar_width bar_margin). Qed.

Lemma draw_graph_bars_drawn_demo :
  exists bars,
    Sensor.draw_graph_bars demo_temp 316 116 4 2 = Ret bars /\
    length bars = 2%nat /\
    Forall (fun b => 0 <= b <= 86) bars.
Proof.
  destruct (draw_graph_bars_drawn demo_temp 316 116 4 2)
    as (bars & Hb & Hn & HF).
  - reflexivity.
  - reflexivity.
  - lia.
  - lia.
  - lia.
  - exists bars. split; [exact Hb|]. split; [|exact HF].
    change (Z.min (Sensor.length demo_temp) (316 / (4 + 2))) with 2 in Hn. lia.
Defined.

(** ** [find]: cache and scan *)

Lemma scan_loop_first_match (pre post : list advertisement)
    (a : advertisement) (d : Device.t) (tr : list event) :
  Forall (fun x => matches d x = false) pre ->
  matches d a = true ->
  Device.scan_loop (pre ++ a :: post) (Device.World d tr)
  = (Ret (Some (adv_device a)),
     Device.World (with_device d (Some (adv_device a)))
       (tr ++ printed_results (pre ++ [a]))).
Proof.
  intros HF Ha. revert tr. induction HF as [|x pre Hx _ IH]; intros tr.
  - cbn [app Device.scan_loop]. unfold bind, Device.emit, modify, gets.
    cbn [Device.self Device.trace]. unfold matches in Ha. rewrite Ha.
    unfold Device.set_device, modify. reflexivity.
  - cbn [app Device.scan_loop]. unfold bind at 1 2, Device.emit, modify, gets.
    cbn [Device.self Device.trace]. unfold matches in Hx. rewrite Hx.
    rewrite IH. unfold printed_results. rewrite <- app_assoc. reflexivity.
Qed.

Lemma find_located (T : transport) (d : Device.t) (h : nat)
    (d1 : Device.t) (evs tr : list event) :
  locates T d h d1 evs ->
  Device.find T (Device.World d tr)
  = (Ret (Some h), Device.World d1 (tr ++ evs)).
Proof.
  intros [(Hd & -> & ->) | (Hd & pre & a & post & Hs & HF & Ha & -> & -> & ->)];
    unfold Device.find, bind, gets; cbn [Device.self]; rewrite Hd.
  - cbn [Device.self]. now rewrite Hd, app_nil_r.
  - unfold Device.emit, modify. cbn [Device.self Device.trace].
    rewrite Hs, (scan_loop_first_match pre post a d _ HF Ha).
    now rewrite <- app_assoc.
Qed.

(** X14: [find] returns a cached handle at once: it scans nothing, prints
    nothing and leaves the device as it is.  Without a cached handle it
    goes through the scan results in order, printing each, up to the
    first one whose name is the device's name and whose services include
    the device's service; it caches and returns the handle of that one,
    and does not look at the results after it. *)
Theorem find_cached_or_first_match (T : transport) (d : Device.t) (h : nat)
    (d1 : Device.t) (evs tr : list event) :
  locates T d h d1 evs ->
  Device.find T (Device.World d tr)
  = (Ret (Some h), Device.World d1 (tr ++ evs)) /\
  Device.device d1 = Some h /\
  Device.sensors d1 = Device.sensors d /\
  Device.find T (Device.World d1 tr) = (Ret (Some h), Device.World d1 tr).
Proof.
  intros H. split; [now apply find_located|].
  assert (H1 : Device.device d1 = Some h /\ Device.sensors d1 = Device.sensors d).
  { destruct H as [(Hd & -> & _) | (_ & pre & a & post & _ & _ & _ & _ & -> & _)];
      auto. }
  destruct H1 as [Hd1 Hs1]. split; [exact Hd1|]. split; [exact Hs1|].
  rewrite (find_located T d1 h d1 [] tr); [now rewrite app_nil_r|].
  left. auto.
Qed.

Lemma find_cached_or_first_match_crowded :
  Device.find (crowded resolution_times_out) (Device.World station [])
  = (Ret (Some 1%nat),
     Device.World (with_device station (Some 1%nat))
       [ Scanned;
         Printed (ScanResult stranger);
         Printed (ScanResult other_service);
         Printed (ScanResult enviro) ]).
Proof.
  apply (find_cached_or_first_match (crowded resolution_times_out) station
           1%nat (with_device station (Some 1%nat))
           (Scanned :: printed_results ([stranger; other_service] ++ [enviro]))
           []).
  right. split; [reflexivity|].
  exists [stranger; other_service], enviro, [stranger].
  split; [reflexivity|]. split; [repeat constructor|].
  repeat split.
Defined.

(** ** The sensor loop in closed form *)

Lemma update_sensor_step (svc : gatt_service) (i : nat) (d : Device.t)
    (tr : list event) (s : Sensor.t) :
  Device.sensors d !! i = Some s ->
  Device.update_sensor svc i (Device.World d tr)
  = (snd (serviced svc s),
     Device.World
       (with_sensors d (<[i := fst (serviced svc s)]> (Device.sensors d)))
       (tr ++ sensor_events svc s)).
Proof.
  intros Hi. destruct d as [u nm ss dv]. cbn [Device.sensors] in Hi.
  unfold Device.update_sensor, serviced, sensor_events, with_sensors.
  unfold bind at 1. unfold Device.on_sensor at 1.
  cbn [Device.self Device.sensors Device.uuid Device.name Device.device
       Device.trace]. rewrite Hi. unfold get at 1.
  rewrite (list_insert_id ss i s Hi).
  unfold bind at 1. unfold try_timeout, bind, Device.emit, modify, lift, ret.
  cbn [Device.self Device.sensors Device.uuid Device.name Device.device
       Device.trace].
  destruct (characteristic_of svc (Sensor.uuid s)) as [ch|e].
  - unfold Device.on_sensor.
    cbn [Device.self Device.sensors Device.uuid Device.name Device.device
         Device.trace]. rewrite Hi.
    destruct (Sensor.update ch s) as [[[]|e] s'] eqn:Hu;
      cbn [fst snd Device.self Device.sensors Device.uuid Device.name
           Device.device Device.trace];
      rewrite <- ?app_assoc; reflexivity.
  - destruct e;
      cbn [fst snd Device.self Device.sensors Device.uuid Device.name
           Device.device Device.trace];
      rewrite ?(list_insert_id ss i s Hi), <- ?app_assoc; reflexivity.
Qed.

Lemma sensor_loop (svc : gatt_service) (d : Device.t)
    (todo done : list Sensor.t) (tr : list event) :
  for_each (seq (length done) (length todo)) (Device.update_sensor svc)
    (Device.World (with_sensors d (done ++ todo)) tr)
  = (snd (service_all svc todo),
     Device.World (with_sensors d (done ++ fst (fst (service_all svc todo))))
       (tr ++ snd (fst (service_all svc todo)))).
Proof.
  revert done tr. induction todo as [|s rest IH]; intros done tr.
  - cbn. now rewrite !app_nil_r.
  - cbn [length seq for_each]. unfold bind.
    rewrite (update_sensor_step svc (length done) _ tr s).
    2:{ cbn. rewrite lookup_app_r by lia. now rewrite Nat.sub_diag. }
    change (Device.sensors (with_sensors d (done ++ s :: rest)))
      with (done ++ s :: rest).
    change (with_sensors (with_sensors d (done ++ s :: rest))
              (<[length done:=fst (serviced svc s)]> (done ++ s :: rest)))
      with (with_sensors d
              (<[length done:=fst (serviced svc s)]> (done ++ s :: rest))).
    rewrite insert_app_r_alt by lia. rewrite Nat.sub_diag.
    cbn [insert list_insert service_all].
    destruct (snd (serviced svc s)) as [[]|e].
    + specialize (IH (done ++ [fst (serviced svc s)])
                     (tr ++ sensor_events svc s)).
      rewrite length_app in IH. cbn [length] in IH.
      replace (length done + 1)%nat with (S (length done)) in IH by lia.
      rewrite <- app_assoc in IH. cbn [app] in IH. rewrite IH.
      destruct (service_all svc rest) as [[rest' evs] r]. cbn [fst snd].
      now rewrite <- !app_assoc.
    + reflexivity.
Qed.

(** A cycle that finds the device, connects and finds the service. *)
Lemma update_located (T : transport) (d : Device.t) (h : nat)
    (d1 : Device.t) (evs : list event) (c : connection) (svc : gatt_service) :
  locates T d h d1 evs ->
  connect_to T h = Ret c ->
  service_of c ENVIRONMENTAL_SENSING = Ret (Some svc) ->
  Device.run_update T d
  = (snd (service_all svc (Device.sensors d)),
     Device.World
       (with_sensors d1 (fst (fst (service_all svc (Device.sensors d)))))
       (Printed (Updating (Device.name d)) :: evs ++ opening h ++
        snd (fst (service_all svc (Device.sensors d))) ++ [Released])).
Proof.
  intros Hloc Hc Hsvc.
  assert (Hs1 : Device.sensors d1 = Device.sensors d).
  { destruct Hloc as [(_ & -> & _) | (_ & pre & a & post & _ & _ & _ & _ & -> & _)];
      reflexivity. }
  unfold Device.run_update, Device.update.
  unfold bind at 1. unfold gets at 1. cbn [Device.self].
  unfold bind at 1. unfold Device.emit at 1, modify at 1.
  cbn [Device.self Device.trace app].
  unfold bind at 1. rewrite (find_located T d h d1 evs _ Hloc).
  unfold bind at 1. unfold try_timeout at 1.
  unfold bind at 1. unfold Device.emit at 1, modify at 1.
  cbn [Device.self Device.trace]. unfold lift at 1. rewrite Hc.
  unfold bind at 1. unfold Device.emit at 1, modify at 1.
  unfold bind at 1. unfold Device.emit at 1, modify at 1.
  unfold bind at 1. unfold lift at 1. rewrite Hsvc.
  unfold bind at 1. unfold Device.emit at 1, modify at 1.
  cbn [Device.self Device.trace].
  unfold with_release. unfold bind at 1. unfold gets at 1. cbn [Device.self].
  pose proof (sensor_loop svc d1 (Device.sensors d1) [] ) as Hloop.
  cbn [app length] in Hloop.
  assert (Hd1 : with_sensors d1 (Device.sensors d1) = d1) by (now destruct d1).
  rewrite Hd1 in Hloop. rewrite Hloop. rewrite Hs1.
  cbn [Device.self Device.trace]. f_equal. f_equal.
  unfold opening. rewrite <- !app_assoc. reflexivity.
Qed.

(** ** The refresh cycle: all sensors, or up to the first failure *)

Lemma service_all_ok (svc : gatt_service) (l : list Sensor.t) :
  Forall (fun s => snd (serviced svc s) = Ret tt) l ->
  service_all svc l
  = ((fun s => fst (serviced svc s)) <$> l,
     concat (sensor_events svc <$> l), Ret tt).
Proof.
  induction 1 as [|s l Hs _ IH]; [reflexivity|].
  cbn [service_all]. rewrite Hs, IH. reflexivity.
Qed.

Lemma service_all_stops (svc : gatt_service) (pre post : list Sensor.t)
    (s : Sensor.t) (e : exn) :
  Forall (fun x => snd (serviced svc x) = Ret tt) pre ->
  snd (serviced svc s) = Raise e ->
  service_all svc (pre ++ s :: post)
  = (((fun x => fst (serviced svc x)) <$> pre) ++ fst (serviced svc s) :: post,
     concat (sensor_events svc <$> pre) ++ sensor_events svc s, Raise e).
Proof.
  intros HF He. induction HF as [|x pre Hx _ IH].
  - cbn [app service_all]. now rewrite He.
  - cbn [app service_all]. rewrite Hx, IH. cbn. now rewrite <- app_assoc.
Qed.

Lemma sensor_events_ok (svc : gatt_service) (s : Sensor.t) :
  snd (serviced svc s) = Ret tt ->
  (characteristic_of svc (Sensor.uuid s) = Raise TimeoutError /\
   fst (serviced svc s) = s /\
   sensor_events svc s = passed_over s) \/
  (exists ch, characteristic_of svc (Sensor.uuid s) = Ret ch /\
              Sensor.update ch s = (Ret tt, fst (serviced svc s)) /\
              sensor_events svc s = read_and_slept s).
Proof.
  unfold serviced, sensor_events.
  destruct (characteristic_of svc (Sensor.uuid s)) as [ch|e].
  - cbn [fst snd]. intros H. right. exists ch. split; [reflexivity|].
    destruct (Sensor.update ch s) as [r s']. cbn [fst snd] in *. subst r.
    split; reflexivity.
  - destruct e; cbn [fst snd]; intros H; try discriminate.
    left. repeat split.
Qed.

(** X15: a cycle in which the device is found (cached or by the scan), the
    connection and the service are there, and for every sensor the
    characteristic either times out or resolves to one on which [update]
    returns.  The cycle returns; the sensors are gone through once, in
    order, between entering and leaving the connection; a sensor whose
    characteristic timed out is passed over unchanged with a printed line,
    every other sensor is updated from its own characteristic and followed
    by one [sleep_ms(10)]; the connection is left once, at the end. *)
Theorem cycle_services_every_sensor (T : transport) (d : Device.t) (h : nat)
    (d1 : Device.t) (evs : list event) (c : connection) (svc : gatt_service) :
  locates T d h d1 evs ->
  connect_to T h = Ret c ->
  service_of c ENVIRONMENTAL_SENSING = Ret (Some svc) ->
  Forall (fun s => snd (serviced svc s) = Ret tt) (Device.sensors d) ->
  Device.run_update T d
  = (Ret tt,
     Device.World
       (with_sensors d1 ((fun s => fst (serviced svc s)) <$> Device.sensors d))
       (Printed (Updating (Device.name d)) :: evs ++ opening h ++
        concat (sensor_events svc <$> Device.sensors d) ++ [Released])) /\
  Forall (fun s =>
            (characteristic_of svc (Sensor.uuid s) = Raise TimeoutError /\
             fst (serviced svc s) = s /\
             sensor_events svc s = passed_over s) \/
            (exists ch,
                characteristic_of svc (Sensor.uuid s) = Ret ch /\
                Sensor.update ch s = (Ret tt, fst (serviced svc s)) /\
                sensor_events svc s = read_and_slept s))
         (Device.sensors d).
Proof.
  intros Hloc Hc Hsvc Hok. split.
  - rewrite (update_located T d h d1 evs c svc Hloc Hc Hsvc).
    now rewrite (service_all_ok svc _ Hok).
  - eapply Forall_impl; [exact Hok|]. intros s Hs. now apply sensor_events_ok.
Qed.

Lemma cycle_services_every_sensor_station :
  fst (Device.run_update (crowded resolution_times_out) station) = Ret tt /\
  Device.trace (snd (Device.run_update (crowded resolution_times_out) station))
  = Printed (Updating "enviro-indoor") ::
    (Scanned :: printed_results [stranger; other_service; enviro]) ++
    opening 1 ++
    (passed_over temp_sensor ++ read_and_slept humidity_sensor) ++
    [Released].
Proof.
  destruct (cycle_services_every_sensor (crowded resolution_times_out) station
              1%nat (with_device station (Some 1%nat))
              (Scanned :: printed_results ([stranger; other_service] ++ [enviro]))
              {| service_of := fun _ =>
                   Ret (Some {| characteristic_of := resolution_times_out |}) |}
              {| characteristic_of := resolution_times_out |})
    as [Hrun _].
  - right. split; [reflexivity|].
    exists [stranger; other_service], enviro, [stranger].
    split; [reflexivity|]. split; [repeat constructor|]. repeat split.
  - reflexivity.
  - reflexivity.
  - repeat constructor.
  - rewrite Hrun. split; reflexivity.
Defined.

(** X16: a cycle in which the device is found and the connection and the
    service are there, and some sensor is the first for which the
    resolution of the characteristic raises something other than a
    timeout, or [update] raises.  The cycle raises that exception; the
    sensors before it are serviced as in a full cycle, the sensors after
    it are as before and their characteristics are not asked for; the
    connection is left once. *)
Theorem cycle_stops_at_first_failure (T : transport) (d : Device.t) (h : nat)
    (d1 : Device.t) (evs : list event) (c : connection) (svc : gatt_service)
    (pre post : list Sensor.t) (s : Sensor.t) (e : exn) :
  locates T d h d1 evs ->
  connect_to T h = Ret c ->
  service_of c ENVIRONMENTAL_SENSING = Ret (Some svc) ->
  Device.sensors d = pre ++ s :: post ->
  Forall (fun x => snd (serviced svc x) = Ret tt) pre ->
  snd (serviced svc s) = Raise e ->
  Device.run_update T d
  = (Raise e,
     Device.World
       (with_sensors d1
          (((fun x => fst (serviced svc x)) <$> pre)
             ++ fst (serviced svc s) :: post))
       (Printed (Updating (Device.name d)) :: evs ++ opening h ++
        (concat (sensor_events svc <$> pre) ++ sensor_events svc s)
        ++ [Released])).
Proof.
  intros Hloc Hc Hsvc Hs Hok He.
  rewrite (update_located T d h d1 evs c svc Hloc Hc Hsvc), Hs.
  now rewrite (service_all_stops svc pre post s e Hok He).
Qed.

Lemma cycle_stops_at_first_failure_station :
  fst (Device.run_update (serving read_times_out) station) = Raise TimeoutError /\
  buffers (Device.self (snd (Device.run_update (serving read_times_out) station)))
  = buffers station.
Proof.
  rewrite (cycle_stops_at_first_failure (serving read_times_out) station
             1%nat (with_device station (Some 1%nat))
             (Scanned :: printed_results ([] ++ [enviro]))
             {| service_of := fun _ =>
                  Ret (Some {| characteristic_of := read_times_out |}) |}
             {| characteristic_of := read_times_out |}
             [] [humidity_sensor] temp_sensor TimeoutError).
  - split; reflexivity.
  - right. split; [reflexivity|]. exists [], enviro, [].
    split; [reflexivity|]. split; [constructor|]. repeat split.
  - reflexivity.
  - reflexivity.
  - reflexivity.
  - constructor.
  - reflexivity.
Defined.

(** ** The refresh cycle: ending before the sensor loop *)

(** A cycle that finds its device and ends before the sensor loop. *)
Lemma update_unreached (T : transport) (d : Device.t) (h : nat)
    (d1 : Device.t) (evs : list event) :
  locates T d h d1 evs ->
  match connect_to T h with
  | Raise TimeoutError =>
      Device.run_update T d
      = (Ret tt,
         Device.World d1
           (Printed (Updating (Device.name d)) :: evs ++
            [ConnectCalled h; Printed (Text "Timeout during connection")]))
  | Raise e =>
      Device.run_update T d
      = (Raise e,
         Device.World d1
           (Printed (Updating (Device.name d)) :: evs ++ [ConnectCalled h]))
  | Ret c =>
      match service_of c ENVIRONMENTAL_SENSING with
      | Ret (Some _) => True
      | Ret None =>
          Device.run_update T d
          = (Ret tt,
             Device.World d1
               (Printed (Updating (Device.name d)) :: evs ++
                [ ConnectCalled h;
                  Printed (Text "Connected...");
                  ServiceCalled ENVIRONMENTAL_SENSING;
                  Printed (Text "Could not find ENVIRONMENTAL_SENSING service") ]))
      | Raise e =>
          Device.run_update T d
          = (Raise e,
             Device.World d1
               (Printed (Updating (Device.name d)) :: evs ++
                [ ConnectCalled h;
                  Printed (Text "Connected...");
                  ServiceCalled ENVIRONMENTAL_SENSING ]))
      end
  end /\
  Device.sensors d1 = Device.sensors d /\
  Device.device d1 = Some h.
Proof.
  intros Hloc.
  assert (H1 : Device.sensors d1 = Device.sensors d /\ Device.device d1 = Some h).
  { destruct Hloc as [(Hd & -> & _) | (_ & pre & a & post & _ & _ & _ & _ & -> & _)];
      auto. }
  split; [|exact H1].
  assert (Hrun : Device.run_update T d
    = bind (try_timeout (bind (Device.emit (ConnectCalled h))
                           (fun _ => lift (connect_to T h))))
        (fun connected =>
           match connected with
           | None => Device.emit (Printed (Text "Timeout during connection"))
           | Some connection =>
               bind (Device.emit (Printed (Text "Connected..."))) (fun _ =>
               bind (Device.emit (ServiceCalled ENVIRONMENTAL_SENSING)) (fun _ =>
               bind (lift (service_of connection ENVIRONMENTAL_SENSING))
                 (fun service =>
                    match service with
                    | None =>
                        Device.emit (Printed (Text
                          "Could not find ENVIRONMENTAL_SENSING service"))
                    | Some service =>
                        bind (Device.emit Acquired) (fun _ =>
                        with_release
                          (fun w => Device.World (Device.self w)
                                      (Device.trace w ++ [Released]))
                          (bind (gets Device.self) (fun me =>
                             for_each (seq 0 (length (Device.sensors me)))
                               (Device.update_sensor service))))
                    end)))
           end)
        (Device.World d1 (Printed (Updating (Device.name d)) :: evs))).
  { unfold Device.run_update, Device.update.
    unfold bind at 1. unfold gets at 1. cbn [Device.self].
    unfold bind at 1. unfold Device.emit at 1, modify at 1.
    cbn [Device.self Device.trace app].
    unfold bind at 1. rewrite (find_located T d h d1 evs _ Hloc).
    reflexivity. }
  rewrite Hrun. clear Hrun.
  destruct (connect_to T h) as [c|e] eqn:Hc.
  - destruct (service_of c ENVIRONMENTAL_SENSING) as [[svc|]|e] eqn:Hs;
      [exact I | | ];
      unfold bind, try_timeout, Device.emit, modify, lift;
      cbn [Device.self Device.trace]; rewrite Hs;
      cbn [Device.self Device.trace app]; rewrite <- ?app_assoc;
      reflexivity.
  - destruct e;
      unfold bind, try_timeout, Device.emit, modify, lift;
      cbn [Device.self Device.trace app]; rewrite <- ?app_assoc;
      reflexivity.
Qed.

(** X17: a cycle in which the device is found but the sensor loop is not
    reached.  A timeout of [connect] is caught: the cycle prints
    "Timeout during connection" and returns.  Any other exception of
    [connect] leaves [update].  So does every exception of
    [connection.service(...)], a timeout included.  When the service is
    [None] the cycle prints "Could not find ENVIRONMENTAL_SENSING service"
    and returns.  In each case no characteristic is asked for, the sensors
    are as before, the [async with] block is not entered, and a handle
    that [find] cached stays cached. *)
Theorem cycle_ends_before_sensors (T : transport) (d : Device.t) (h : nat)
    (d1 : Device.t) (evs : list event) :
  locates T d h d1 evs ->
  match connect_to T h with
  | Raise TimeoutError =>
      Device.run_update T d
      = (Ret tt,
         Device.World d1
           (Printed (Updating (Device.name d)) :: evs ++
            [ConnectCalled h; Printed (Text "Timeout during connection")]))
  | Raise e =>
      Device.run_update T d
      = (Raise e,
         Device.World d1
           (Printed (Updating (Device.name d)) :: evs ++ [ConnectCalled h]))
  | Ret c =>
      match service_of c ENVIRONMENTAL_SENSING with
      | Ret (Some _) => True
      | Ret None =>
          Device.run_update T d
          = (Ret tt,
             Device.World d1
               (Printed (Updating (Device.name d)) :: evs ++
                [ ConnectCalled h;
                  Printed (Text "Connected...");
                  ServiceCalled ENVIRONMENTAL_SENSING;
                  Printed (Text "Could not find ENVIRONMENTAL_SENSING service") ]))
      | Raise e =>
          Device.run_update T d
          = (Raise e,
             Device.World d1
               (Printed (Updating (Device.name d)) :: evs ++
                [ ConnectCalled h;
                  Printed (Text "Connected...");
                  ServiceCalled ENVIRONMENTAL_SENSING ]))
      end
  end /\
  Device.sensors d1 = Device.sensors d /\
  Device.device d1 = Some h.
Proof. exact (update_unreached T d h d1 evs). Qed.

Lemma cycle_ends_before_sensors_out_of_reach :
  Device.run_update out_of_reach station
  = (Ret tt,
     Device.World (with_device station (Some 1%nat))
       [ Printed (Updating "enviro-indoor");
         Scanned;
         Printed (ScanResult enviro);
         ConnectCalled 1;
         Printed (Text "Timeout during connection") ]).
Proof.
  refine (proj1 (cycle_ends_before_sensors out_of_reach station 1%nat
                   (with_device station (Some 1%nat))
                   (Scanned :: printed_results ([] ++ [enviro])) _)).
  right. split; [reflexivity|]. exists [], enviro, [].
  split; [reflexivity|]. split; [constructor|]. repeat split.
Defined.

(** ** The refresh cycle: what it never changes *)

Lemma same_device_refl (d : Device.t) : same_device d d.
Proof.
  repeat split; auto. apply Forall_Forall2_diag, Forall_forall.
  intros s _. apply same_config_refl.
Qed.

Lemma same_device_trans (d1 d2 d3 : Device.t) :
  same_device d1 d2 -> same_device d2 d3 -> same_device d1 d3.
Proof.
  intros (A1 & A2 & A3 & A4) (B1 & B2 & B3 & B4). repeat split.
  - congruence.
  - congruence.
  - eapply Forall2_trans; [|exact A3|exact B3].
    intros x y z. apply same_config_trans.
  - auto.
Qed.

Lemma steady_same {A} (m : M Device.world A) :
  (forall w, Device.self (snd (m w)) = Device.self w) -> steady m.
Proof. intros H w. rewrite H. apply same_device_refl. Qed.

Lemma steady_emit (e : event) : steady (Device.emit e).
Proof. now apply steady_same. Qed.

Lemma steady_bind {A B} (m : M Device.world A) (k : A -> M Device.world B) :
  steady m -> (forall a, steady (k a)) -> steady (bind m k).
Proof.
  intros Hm Hk w. unfold bind. specialize (Hm w).
  destruct (m w) as [[a|e] w1]; cbn [snd] in *; [|exact Hm].
  eapply same_device_trans; [exact Hm | apply Hk].
Qed.

Lemma steady_try_timeout {A} (m : M Device.world A) :
  steady m -> steady (try_timeout m).
Proof.
  intros Hm w. unfold try_timeout. specialize (Hm w).
  destruct (m w) as [[a|e] w1]; [exact Hm|]. destruct e; exact Hm.
Qed.

Lemma steady_for_each {B} (xs : list B) (body : B -> M Device.world unit) :
  (forall x, steady (body x)) -> steady (for_each xs body).
Proof.
  intros Hb. induction xs as [|x xs IH]; cbn [for_each].
  - now apply steady_same.
  - apply steady_bind; auto.
Qed.

Lemma steady_with_release {A} (m : M Device.world A) :
  steady m ->
  steady (with_release
            (fun w => Device.World (Device.self w) (Device.trace w ++ [Released]))
            m).
Proof.
  intros Hm w. unfold with_release. specialize (Hm w).
  destruct (m w) as [r w1]. exact Hm.
Qed.

Lemma steady_on_sensor {A} (i : nat) (m : M Sensor.t A) :
  (forall s, same_config s (snd (m s))) -> steady (Device.on_sensor i m).
Proof.
  intros Hm w. unfold Device.on_sensor.
  destruct (Device.sensors (Device.self w) !! i) as [s|] eqn:Hi;
    [|apply same_device_refl].
  specialize (Hm s). destruct (m s) as [r s']. cbn [snd] in *.
  repeat split; auto. cbn [Device.sensors].
  rewrite <- (list_insert_id (Device.sensors (Device.self w)) i s Hi) at 1.
  apply Forall2_insert; [|exact Hm].
  apply Forall_Forall2_diag, Forall_forall. intros x _. apply same_config_refl.
Qed.

Lemma steady_update_sensor (svc : gatt_service) (i : nat) :
  steady (Device.update_sensor svc i).
Proof.
  unfold Device.update_sensor.
  apply steady_bind.
  { apply steady_on_sensor. intros s. apply same_config_refl. }
  intros sensor. apply steady_bind.
  - apply steady_try_timeout.
    apply steady_bind; [apply steady_emit|]. intros _.
    apply steady_bind; [now apply steady_same|]. intros ch.
    apply steady_bind; [apply steady_emit|]. intros _. now apply steady_same.
  - intros [ch|]; [|apply steady_emit].
    apply steady_bind; [apply steady_emit|]. intros _.
    apply steady_bind; [|intros _; apply steady_emit].
    apply steady_on_sensor. intros s. apply update_fields.
Qed.

(** The scan may set the cached handle, and changes nothing else. *)
Lemma scan_loop_device (results : list advertisement) (w : Device.world) :
  exists h,
    Device.self (snd (Device.scan_loop results w))
    = with_device (Device.self w) h.
Proof.
  revert w. induction results as [|a results IH]; intros w.
  - exists (Device.device (Device.self w)).
    cbn. now destruct (Device.self w).
  - cbn [Device.scan_loop]. unfold bind, Device.emit, modify, gets.
    cbn [Device.self Device.trace].
    destruct (_ && _).
    + exists (Some (adv_device a)). reflexivity.
    + destruct (IH (Device.World (Device.self w)
                      (Device.trace w ++ [Printed (ScanResult a)])))
        as (h & Hh). exists h. assumption.
Qed.

Lemma steady_find (T : transport) : steady (Device.find T).
Proof.
  intros w. unfold Device.find, bind, gets. cbn [Device.self].
  destruct (Device.device (Device.self w)) as [h0|] eqn:Hd.
  - apply same_device_refl.
  - unfold Device.emit, modify. cbn [Device.self Device.trace].
    destruct (scan_loop_device (scan T)
                (Device.World (Device.self w) (Device.trace w ++ [Scanned])))
      as (h & Hh).
    rewrite Hh. cbn [Device.self]. repeat split.
    + apply Forall_Forall2_diag, Forall_forall. intros x _.
      apply same_config_refl.
    + intros x Hx. congruence.
Qed.

Lemma steady_update (T : transport) : steady (Device.update T).
Proof.
  unfold Device.update.
  apply steady_bind; [now apply steady_same|]. intros me.
  apply steady_bind; [apply steady_emit|]. intros _.
  apply steady_bind; [apply steady_find|]. intros dev.
  apply steady_bind.
  - apply steady_try_timeout. destruct dev as [h|]; [|now apply steady_same].
    apply steady_bind; [apply steady_emit | intros _; now apply steady_same].
  - intros [c|]; [|apply steady_emit].
    apply steady_bind; [apply steady_emit|]. intros _.
    apply steady_bind; [apply steady_emit|]. intros _.
    apply steady_bind; [now apply steady_same|]. intros [svc|];
      [|apply steady_emit].
    apply steady_bind; [apply steady_emit|]. intros _.
    apply steady_with_release.
    apply steady_bind; [now apply steady_same|]. intros me0.
    apply steady_for_each. intros i. apply steady_update_sensor.
Qed.

(** X18: whatever the transport answers and however the cycle ends,
    [Device.update] leaves the device with its name, its service
    identifier and the same number of sensors in the same order, each with
    its caption, identifier, capacity, decoder, auto-range flag and number
    of slots; and a cached handle is never cleared or replaced, not even
    when the connection to it fails. *)
Theorem update_keeps_device (T : transport) (d : Device.t) :
  Device.name (Device.self (snd (Device.run_update T d))) = Device.name d /\
  Device.uuid (Device.self (snd (Device.run_update T d))) = Device.uuid d /\
  Forall2 same_config (Device.sensors d)
    (Device.sensors (Device.self (snd (Device.run_update T d)))) /\
  (forall h, Device.device d = Some h ->
     Device.device (Device.self (snd (Device.run_update T d))) = Some h).
Proof. exact (steady_update T (Device.World d [])). Qed.

(** ** The refresh cycle: entering and leaving the connection *)

(** X19: whatever the transport answers and however the cycle ends, with
    a return or with an exception, [Device.update] enters the
    [async with connection] block at most once and leaves it exactly as
    often as it entered it: the connection is never left twice, never
    left without having been entered, and an exception raised inside the
    block does not keep it from being left. *)
Theorem cycle_leaves_what_it_entered (T : transport) (d : Device.t) :
  (Device.acquisitions (Device.trace (snd (Device.run_update T d))) <= 1)%nat /\
  Device.releases (Device.trace (snd (Device.run_update T d)))
  = Device.acquisitions (Device.trace (snd (Device.run_update T d))).
Proof.
  unfold Device.run_update.
  destruct (update_balanced T (Device.World d []))
    as (a & r & Ha & Hr & -> & Hle).
  rewrite Ha, Hr. simpl. split; lia.
Qed.

(** ** [draw_graph] after any number of readings *)

Lemma updates_fixed_bounds (chs : list characteristic) (s : Sensor.t) :
  Sensor.autorange s = false ->
  Sensor.lower (snd (updates chs s)) = Sensor.lower s /\
  Sensor.upper (snd (updates chs s)) = Sensor.upper s.
Proof.
  revert s. induction chs as [|ch chs IH]; intros s Ha; [split; reflexivity|].
  unfold updates in *. cbn [for_each]. unfold bind.
  destruct (update_fields s ch) as ((_ & _ & _ & _ & Hauto & _) & _ & Hfix).
  destruct (Hfix Ha) as [Hl Hu].
  destruct (Sensor.update ch s) as [[[]|e] s1]; cbn [snd] in *.
  - destruct (IH s1) as [-> ->]; [congruence|]. split; assumption.
  - split; assumption.
Qed.

(** The sensor a constructor call and successful updates lead to. *)
Lemma tracked_after (n : nat) (c : string) (u : Z) (dr : option (Q * Q))
    (s0 : Sensor.t) (chs : list characteristic) (vs : list Q) :
  (1 <= n)%nat ->
  Sensor.__init__ c (Z.of_nat n) u dr = Ret s0 ->
  Forall2 (reads_as (Sensor.decode s0)) chs vs ->
  exists s,
    updates chs s0 = (Ret tt, s) /\
    tracks n (Sensor.decode s0) vs s /\
    Sensor._length s = Z.of_nat (length (Sensor.dlog s)) /\
    Sensor.length s = Z.of_nat (Nat.min (length vs) n).
Proof.
  intros Hn Hi HF.
  pose proof (tracks_init n c u dr s0 Hn Hi) as Ht0.
  destruct (tracks_updates n _ chs vs Hn HF [] s0 Ht0) as (s & Hu & Ht).
  cbn [app] in Ht. exists s. split; [exact Hu|]. split; [exact Ht|].
  split; [|now apply (tracks_length n _ vs s Hn Ht)].
  destruct Ht as (-> & _ & _ & ->). now rewrite log_after_length.
Qed.

Lemma int_quotient (w sp : Z) :
  0 < sp -> 0 <= w -> int (inject_Z w / inject_Z sp) = w / sp.
Proof.
  intros Hsp Hw. unfold int. rewrite <- Zdiv_Qdiv.
  destruct (Qle_bool 0 (inject_Z w / inject_Z sp)) eqn:E; [reflexivity|].
  exfalso. assert (H0 : (0 <= inject_Z w / inject_Z sp)%Q).
  { apply Qle_shift_div_l.
    - change 0%Q with (inject_Z 0). rewrite <- Zlt_Qlt. lia.
    - rewrite Qmult_0_l. change 0%Q with (inject_Z 0). rewrite <- Zle_Qle. lia. }
  apply Qle_bool_iff in H0. congruence.
Qed.

(** Once a bar has raised, the loop is over. *)
Lemma bars_raised (s : Sensor.t) (start : Z) (scale : Q) (idx : list nat)
    (e : exn) :
  fold_left
    (fun acc i =>
       obind acc (fun bars =>
         obind (Sensor.get_scaled s (start + Z.of_nat i) scale)
           (fun r => Ret (bars ++ [int r]))))
    idx (Raise e)
  = Raise e.
Proof. induction idx as [|i idx IH]; [reflexivity | exact IH]. Qed.

(** The bar loop over populated slots: with an empty range the first bar
    raises, otherwise every bar is drawn. *)
Lemma bars_outcome (s : Sensor.t) (start : Z) (scale : Q) (k a : nat)
    (bars0 : list Z) :
  (forall i, (a <= i < a + k)%nat ->
     exists v, getitem (Sensor.dlog s) (start + Z.of_nat i) = Ret (Some v)) ->
  (Qeq_bool (Sensor.upper s - Sensor.lower s) 0 = true ->
   (0 < k)%nat ->
   fold_left
     (fun acc i =>
        obind acc (fun bars =>
          obind (Sensor.get_scaled s (start + Z.of_nat i) scale)
            (fun r => Ret (bars ++ [int r]))))
     (seq a k) (Ret bars0)
   = Raise ZeroDivisionError) /\
  (Qeq_bool (Sensor.upper s - Sensor.lower s) 0 = false ->
   exists new,
     fold_left
       (fun acc i =>
          obind acc (fun bars =>
            obind (Sensor.get_scaled s (start + Z.of_nat i) scale)
              (fun r => Ret (bars ++ [int r]))))
       (seq a k) (Ret bars0)
     = Ret (bars0 ++ new) /\
     length new = k).
Proof.
  intros H. split.
  - intros E Hk. destruct k as [|k]; [lia|]. cbn [seq fold_left obind].
    destruct (H a) as [v Hv]; [lia|].
    rewrite (get_scaled_populated s _ v scale Hv), E. cbn [obind].
    apply bars_raised.
  - intros E. revert a bars0 H. induction k as [|k IH]; intros a bars0 H.
    + exists []. rewrite app_nil_r. split; reflexivity.
    + cbn [seq fold_left obind].
      destruct (H a) as [v Hv]; [lia|].
      rewrite (get_scaled_populated s _ v scale Hv), E. cbn [obind].
      destruct (IH (S a)
                  (bars0 ++ [int (scaled_value (Sensor.lower s) (Sensor.upper s)
                                    v scale)]))
        as (new & Hf & Hl).
      { intros i Hi. apply H. lia. }
      eexists (_ :: new). rewrite Hf, <- app_assoc. split; [reflexivity|].
      simpl. lia.
Qed.

(** The bar loop of [draw_graph] for a sensor whose capacity is its
    number of slots, a positive spacing and a width that is not negative:
    [min(length, w // bar_spacing)] bars are due; with an empty range the
    first of them raises, otherwise all are drawn. *)
Lemma draw_graph_bars_run (s : Sensor.t) (w h bar_width bar_margin : Z) :
  Sensor._length s = Z.of_nat (length (Sensor.dlog s)) ->
  0 < bar_width + bar_margin ->
  0 <= w ->
  (Qeq_bool (Sensor.upper s - Sensor.lower s) 0 = true ->
   0 < Z.min (Sensor.length s) (w / (bar_width + bar_margin)) ->
   Sensor.draw_graph_bars s w h bar_width bar_margin
   = Raise ZeroDivisionError) /\
  (Qeq_bool (Sensor.upper s - Sensor.lower s) 0 = false \/
   Z.min (Sensor.length s) (w / (bar_width + bar_margin)) = 0 ->
   exists bars,
     Sensor.draw_graph_bars s w h bar_width bar_margin = Ret bars /\
     Z.of_nat (length bars)
     = Z.min (Sensor.length s) (w / (bar_width + bar_margin))).
Proof.
  intros Hlen Hsp Hw. unfold Sensor.draw_graph_bars. cbv zeta.
  destruct (Z.eqb_spec (bar_width + bar_margin) 0); [lia|].
  set (sp := bar_width + bar_margin) in *.
  rewrite (int_quotient w sp Hsp Hw).
  assert (Hq : 0 <= w / sp) by (apply Z.div_pos; lia).
  destruct (length_populated s 0 Hlen) as [Hl0 _].
  set (len := Sensor.length s) in *.
  set (start := Z.max 0 (len - w / sp)).
  assert (Hk : len - start = Z.min len (w / sp)) by (unfold start; lia).
  rewrite Hk.
  assert (Hpop : forall i, (0 <= i < 0 + Z.to_nat (Z.min len (w / sp)))%nat ->
            exists v, getitem (Sensor.dlog s) (start + Z.of_nat i) = Ret (Some v)).
  { intros i Hi.
    destruct (length_populated s (start + Z.of_nat i) Hlen) as [_ Hp].
    apply Hp. fold len. unfold start in *. lia. }
  destruct (bars_outcome s start (inject_Z (h - 30))
              (Z.to_nat (Z.min len (w / sp))) 0 [] Hpop) as [Hraise Hret].
  split.
  - intros E Hpos. apply Hraise; [exact E | lia].
  - intros [E | H0].
    + destruct (Hret E) as (new & Hf & Hn). exists new. cbn [app] in Hf.
      split; [exact Hf|]. rewrite Hn. lia.
    + rewrite H0. exists []. split; reflexivity.
Qed.

(** X20: a sensor constructed with [n >= 2] slots and a fixed range
    [drange = (lo, hi)], [lo < hi], after one or more calls of [update]
    whose reads and decodings succeed.  For a panel height [h >= 30], a
    positive bar spacing and a width [w >= 0], the part of [draw_graph]
    that reads the sensor raises nothing: it draws
    [min(k, n, w // bar_spacing)] bars for the [k] readings, every bar
    height between 0 and [h - 30], and unpacks the triple that
    [min_max_avg] returns. *)
Theorem draw_graph_returns (n : nat) (c : string) (u : Z) (lo hi : Q)
    (s0 : Sensor.t) (chs : list characteristic) (vs : list Q)
    (w h bar_width bar_margin : Z) :
  (2 <= n)%nat ->
  vs <> [] ->
  (lo < hi)%Q ->
  Sensor.__init__ c (Z.of_nat n) u (Some (lo, hi)) = Ret s0 ->
  Forall2 (reads_as (Sensor.decode s0)) chs vs ->
  30 <= h ->
  0 < bar_width + bar_margin ->
  0 <= w ->
  exists bars avg mx mn,
    Sensor.draw_graph (snd (updates chs s0)) w h bar_width bar_margin
    = Ret (bars, (avg, mx, Some mn)) /\
    Z.of_nat (length bars)
    = Z.min (Z.of_nat (Nat.min (length vs) n)) (w / (bar_width + bar_margin)) /\
    Forall (fun b => 0 <= b <= h - 30) bars /\
    Sensor.min_max_avg (snd (updates chs s0))
    = Ret (Sensor.Triple avg mx (Some mn)).
Proof.
  intros Hn Hne Hlh Hi HF Hh Hsp Hw. assert (Hn1 : (1 <= n)%nat) by lia.
  destruct (tracked_after n c u (Some (lo, hi)) s0 chs vs Hn1 Hi HF)
    as (s & Hu & Ht & Hcap & Hlen).
  assert (Hb : Sensor.lower s = lo /\ Sensor.upper s = hi).
  { replace s with (snd (updates chs s0)) by now rewrite Hu.
    unfold Sensor.__init__ in Hi.
    destruct (DECODERS !! u) as [d|]; [|discriminate]. injection Hi as <-.
    now apply updates_fixed_bounds. }
  destruct Hb as [Hlo Hhi].
  rewrite Hu. cbn [snd].
  destruct (bars_in_range s w h bar_width bar_margin)
    as (bars & Hbars & Hcount & Hrange); try assumption.
  { now rewrite Hlo, Hhi. }
  destruct (tracks_window n _ vs s Hn1 Ht) as (rest & Hlog & Hptr & Hwin).
  destruct (min_max_avg_populated s (window n vs) rest Hlog Hptr)
    as (avg & mx & mn & Hr & _).
  { intros E. rewrite E in Hwin. cbn [length] in Hwin.
    assert (1 <= length vs)%nat by (destruct vs; [congruence | simpl; lia]).
    lia. }
  exists bars, avg, mx, mn. split; [|split; [|split]].
  - unfold Sensor.draw_graph, Sensor.draw_graph_stats.
    rewrite Hbars, Hr. reflexivity.
  - now rewrite <- Hlen.
  - exact Hrange.
  - exact Hr.
Qed.

Lemma draw_graph_returns_two_readings :
  exists bars avg mx mn,
    Sensor.draw_graph
      (snd (updates [reading 2500; reading 15000] temp_sensor)) 316 116 4 2
    = Ret (bars, (avg, mx, Some mn)) /\
    length bars = 2%nat /\
    Forall (fun b => 0 <= b <= 86) bars.
Proof.
  destruct (draw_graph_returns 3 "Temp" TEMPERATURE 20 40 temp_sensor
              [reading 2500; reading 15000] [25.00%Q; 150.00%Q] 316 116 4 2)
    as (bars & avg & mx & mn & Hd & Hc & HF & _).
  - lia.
  - discriminate.
  - reflexivity.
  - reflexivity.
  - repeat constructor; eexists; split; reflexivity.
  - lia.
  - lia.
  - lia.
  - exists bars, avg, mx, mn. split; [exact Hd|]. split; [|exact HF].
    change (Z.of_nat (length bars) = 2) in Hc. lia.
Defined.

(** X21: a sensor constructed with [n >= 1] slots, after any number [k]
    of calls of [update] whose reads and decodings succeed, drawn with a
    positive bar spacing and a width [w >= 0].  When the bounds are equal
    and a bar is due ([k >= 1] and [w >= bar_spacing]), [draw_graph]
    raises [ZeroDivisionError] from the first bar.  Otherwise, when the
    sensor has one slot only or has recorded nothing, the bars are drawn
    and [draw_graph] raises [TypeError] at the unpacking of
    [min_max_avg()], which returned the bare 0. *)
Theorem draw_graph_raises (n : nat) (c : string) (u : Z)
    (dr : option (Q * Q)) (s0 : Sensor.t) (chs : list characteristic)
    (vs : list Q) (w h bar_width bar_margin : Z) :
  (1 <= n)%nat ->
  Sensor.__init__ c (Z.of_nat n) u dr = Ret s0 ->
  Forall2 (reads_as (Sensor.decode s0)) chs vs ->
  0 < bar_width + bar_margin ->
  0 <= w ->
  ((Sensor.upper (snd (updates chs s0)) == Sensor.lower (snd (updates chs s0)))%Q ->
   vs <> [] ->
   bar_width + bar_margin <= w ->
   Sensor.draw_graph (snd (updates chs s0)) w h bar_width bar_margin
   = Raise ZeroDivisionError) /\
  (~ (Sensor.upper (snd (updates chs s0)) == Sensor.lower (snd (updates chs s0)))%Q
   \/ vs = [] \/ w < bar_width + bar_margin ->
   n = 1%nat \/ vs = [] ->
   Sensor.min_max_avg (snd (updates chs s0)) = Ret (Sensor.Scalar 0) /\
   Sensor.draw_graph (snd (updates chs s0)) w h bar_width bar_margin
   = Raise TypeError).
Proof.
  intros Hn Hi HF Hsp Hw.
  destruct (tracked_after n c u dr s0 chs vs Hn Hi HF)
    as (s & Hu & Ht & Hcap & Hlen).
  rewrite Hu. cbn [snd].
  destruct (draw_graph_bars_run s w h bar_width bar_margin Hcap Hsp Hw)
    as [Hraise Hret].
  rewrite Hlen in Hraise, Hret.
  split.
  - intros Heq Hne Hle. unfold Sensor.draw_graph. rewrite Hraise; [reflexivity| |].
    + now apply Qeq_bool_sub_true.
    + assert (1 <= w / (bar_width + bar_margin)).
      { apply Z.div_le_lower_bound; lia. }
      destruct vs; [congruence|]. simpl length. lia.
  - intros Hcase Hone.
    assert (Hp : Sensor.dptr s = 0%nat).
    { destruct Ht as (_ & _ & -> & _).
      destruct Hone as [-> | ->]; [lia | reflexivity]. }
    assert (Hm : Sensor.min_max_avg s = Ret (Sensor.Scalar 0)).
    { unfold Sensor.min_max_avg. now rewrite Hp. }
    split; [exact Hm|].
    destruct Hret as (bars & Hbars & _).
    { destruct Hcase as [Hneq | [-> | Hlt]].
      - left. destruct (Qeq_bool _ 0) eqn:E; [|reflexivity].
        exfalso. apply Hneq. apply Qeq_bool_iff in E. lra.
      - right. assert (0 <= w / (bar_width + bar_margin)) by (apply Z.div_pos; lia).
        cbn [length Nat.min Z.of_nat]. lia.
      - right. rewrite Z.div_small by lia. lia. }
    unfold Sensor.draw_graph, Sensor.draw_graph_stats.
    rewrite Hbars, Hm. reflexivity.
Qed.

Lemma draw_graph_raises_one_slot :
  Sensor.draw_graph (snd (updates [reading 2500; reading 2600] one_slot))
    316 116 4 2
  = Raise TypeError /\
  Sensor.draw_graph (snd (updates [reading 200] fresh_temp)) 316 116 4 2
  = Raise ZeroDivisionError.
Proof.
  split.
  - destruct (draw_graph_raises 1 "Temp" TEMPERATURE (Some (0, 100)%Q) one_slot
                [reading 2500; reading 2600] [25.00%Q; 26.00%Q] 316 116 4 2)
      as [_ H].
    + lia.
    + reflexivity.
    + repeat constructor; eexists; split; reflexivity.
    + lia.
    + lia.
    + apply H; [|now left]. left.
      destruct (updates_fixed_bounds [reading 2500; reading 2600] one_slot
                  eq_refl) as [-> ->].
      discriminate.
  - destruct (draw_graph_raises 3 "Temp" TEMPERATURE None fresh_temp
                [reading 200] [2.00%Q] 316 116 4 2)
      as [H _].
    + lia.
    + reflexivity.
    + repeat constructor; eexists; split; reflexivity.
    + lia.
    + lia.
    + apply H; [|discriminate|lia]. vm_compute. reflexivity.
Defined.

(** ** The demo script: [refresh_display] *)

Lemma draw_graph_drawable (s : Sensor.t) (w h : Z) :
  drawable s -> 30 <= h -> 0 <= w ->
  exists bars avg mx mn,
    Sensor.draw_graph s w h 4 2 = Ret (bars, (avg, mx, Some mn)) /\
    Z.of_nat (length bars) = Z.min (Sensor.length s) (w / 6) /\
    Forall (fun b => 0 <= b <= h - 30) bars.
Proof.
  intros (Hcap & Hlu & xs & rest & Hne & Hlog & Hptr) Hh Hw.
  destruct (bars_in_range s w h 4 2 Hcap Hlu Hh) as (bars & Hb & Hc & HF);
    [lia | exact Hw |].
  destruct (min_max_avg_populated s xs rest Hlog Hptr Hne)
    as (avg & mx & mn & Hr & _).
  exists bars, avg, mx, mn. split; [|split; [exact Hc | exact HF]].
  unfold Sensor.draw_graph, Sensor.draw_graph_stats. now rewrite Hb, Hr.
Qed.

Lemma draw_graph_unread (s : Sensor.t) (w h : Z) :
  unread s -> Sensor.draw_graph s w h 4 2 = Raise TypeError.
Proof.
  intros [Hp Hl]. unfold Sensor.draw_graph, Sensor.draw_graph_bars. cbv zeta.
  rewrite Hl. change (4 + 2 =? 0) with false. cbv iota.
  replace (Z.to_nat (0 - Z.max 0 (0 - int (inject_Z w / inject_Z (4 + 2)))))
    with 0%nat by lia.
  cbn [seq fold_left obind].
  unfold Sensor.draw_graph_stats, Sensor.min_max_avg. now rewrite Hp.
Qed.

Lemma draw_each_drawable (devs : list Device.t) (GW GH : Z)
    (cs : list (nat * nat)) :
  30 <= GH -> 0 <= GW ->
  Forall (fun c => exists s,
            Demo.sensor_at devs (fst c) (snd c) = Ret s /\ drawable s) cs ->
  exists panels,
    Demo.draw_each devs GW GH cs = Ret panels /\
    length panels = length cs /\
    Forall (fun p => Z.of_nat (length (fst p)) <= GW / 6 /\
                     Forall (fun b => 0 <= b <= GH - 30) (fst p)) panels.
Proof.
  intros Hh Hw HF. induction HF as [|[d i] cs (s & Hs & Hd) _ IH].
  - exists []. repeat split. constructor.
  - destruct IH as (ps & Hps & Hl & HFp).
    destruct (draw_graph_drawable s GW GH Hd Hh Hw)
      as (bars & avg & mx & mn & Hg & Hc & Hb).
    exists ((bars, (avg, mx, Some mn)) :: ps).
    cbn [Demo.draw_each fst snd] in *. rewrite Hs. cbn [obind].
    rewrite Hg. cbn [obind]. rewrite Hps. cbn [obind].
    split; [reflexivity|]. split; [simpl; lia|].
    constructor; [|exact HFp]. cbn [fst]. split; [lia | exact Hb].
Qed.

(** X22: [refresh_display] on a display of at least 8 x 136
    ([WIDTH // 2 >= 4], [HEIGHT // 4 >= 34]), when each of the eight
    sensors [devices[0..1].sensors[0..3]] is there, has as many slots as
    its capacity, a range with [lower < upper] and one or more readings
    before its cursor.  All eight [draw_graph] calls return, in the order
    of the script; no panel has more than [(WIDTH // 2 - 4) // 6] bars and
    every bar height lies between 0 and [HEIGHT // 4 - 34]. *)
Theorem refresh_display_returns (WIDTH HEIGHT : Z) (devs : list Device.t) :
  4 <= WIDTH / 2 ->
  34 <= HEIGHT / 4 ->
  (forall d i, (d < 2)%nat -> (i < 4)%nat ->
     exists s, Demo.sensor_at devs d i = Ret s /\ drawable s) ->
  exists panels,
    Demo.refresh_display WIDTH HEIGHT devs = Ret panels /\
    length panels = 8%nat /\
    Forall (fun p =>
              Z.of_nat (length (fst p)) <= (WIDTH / 2 - 4) / 6 /\
              Forall (fun b => 0 <= b <= HEIGHT / 4 - 34) (fst p))
           panels.
Proof.
  intros Hw Hh Hall. unfold Demo.refresh_display. cbv zeta.
  destruct (draw_each_drawable devs (WIDTH / 2 - 4) (HEIGHT / 4 - 4) Demo.calls)
    as (ps & Hps & Hl & HF); [lia | lia | |].
  { unfold Demo.calls. repeat constructor; cbn [fst snd]; apply Hall; lia. }
  exists ps. split; [exact Hps|]. split; [exact Hl|].
  eapply Forall_impl; [exact HF|]. cbv beta. intros p [H1 H2]. split; [exact H1|].
  eapply Forall_impl; [exact H2|]. cbv beta. intros b Hb. lia.
Qed.

Lemma drawable_demo_temp : drawable demo_temp.
Proof.
  split; [reflexivity|]. split; [reflexivity|].
  exists [25.00%Q; 150.00%Q], [None]. split; [discriminate|].
  split; reflexivity.
Defined.

Lemma refresh_display_returns_half_filled :
  exists panels,
    Demo.refresh_display 640 480 half_filled = Ret panels /\
    length panels = 8%nat /\
    Forall (fun p => Z.of_nat (length (fst p)) <= 52 /\
                     Forall (fun b => 0 <= b <= 86) (fst p)) panels.
Proof.
  apply (refresh_display_returns 640 480 half_filled).
  - apply Z.div_le_lower_bound; lia.
  - apply Z.div_le_lower_bound; lia.
  - intros d i Hd Hi. exists demo_temp. split; [|exact drawable_demo_temp].
    destruct d as [|[|d]]; [| |lia];
      (destruct i as [|[|[|[|i]]]]; [reflexivity..|lia]).
Defined.

(** [refresh_display] ends with what the first call that does not return
    raises, when the sensors of the calls before it are drawable. *)
Lemma refresh_display_stops (WIDTH HEIGHT : Z) (devs : list Device.t)
    (pre post : list (nat * nat)) (d i : nat) (e : exn) :
  4 <= WIDTH / 2 ->
  34 <= HEIGHT / 4 ->
  Demo.calls = pre ++ (d, i) :: post ->
  Forall (fun c => exists s,
            Demo.sensor_at devs (fst c) (snd c) = Ret s /\ drawable s) pre ->
  obind (Demo.sensor_at devs d i) (fun s =>
    Sensor.draw_graph s (WIDTH / 2 - 4) (HEIGHT / 4 - 4) 4 2)
  = Raise e ->
  Demo.refresh_display WIDTH HEIGHT devs = Raise e.
Proof.
  intros Hw Hh Hc Hpre He. unfold Demo.refresh_display. cbv zeta. rewrite Hc.
  clear Hc. induction Hpre as [|[d' i'] pre (s' & Hs' & Hd') _ IH].
  - cbn [app Demo.draw_each].
    destruct (Demo.sensor_at devs d i) as [s|e0]; cbn [obind] in *.
    + now rewrite He.
    + now injection He as ->.
  - cbn [app Demo.draw_each fst snd] in *. rewrite Hs'. cbn [obind].
    destruct (draw_graph_drawable s' (WIDTH / 2 - 4) (HEIGHT / 4 - 4) Hd')
      as (bars & avg & mx & mn & Hg & _); [lia | lia |].
    rewrite Hg. cbn [obind]. now rewrite IH.
Qed.

(** X23: [refresh_display] stops at the first call whose sensor it cannot
    draw.  When the calls before it found sensors as in X22 and the sensor
    of this call is missing (the tuple of devices or of sensors is too
    short), [refresh_display] raises [IndexError]; when that sensor never
    recorded anything, it raises [TypeError], from the unpacking of
    [min_max_avg()].  The devices of the script are in that state when it
    starts: all eight constructors return, and [refresh_display] on what
    they built raises [TypeError] at the first call. *)
Theorem refresh_display_raises (WIDTH HEIGHT : Z) (devs : list Device.t)
    (pre post : list (nat * nat)) (d i : nat) :
  4 <= WIDTH / 2 ->
  34 <= HEIGHT / 4 ->
  Demo.calls = pre ++ (d, i) :: post ->
  Forall (fun c => exists s,
            Demo.sensor_at devs (fst c) (snd c) = Ret s /\ drawable s) pre ->
  (Demo.sensor_at devs d i = Raise IndexError ->
   Demo.refresh_display WIDTH HEIGHT devs = Raise IndexError) /\
  (forall s, Demo.sensor_at devs d i = Ret s -> unread s ->
   Demo.refresh_display WIDTH HEIGHT devs = Raise TypeError) /\
  exists built,
    Demo.devices = Ret built /\
    Demo.refresh_display WIDTH HEIGHT built = Raise TypeError.
Proof.
  intros Hw Hh Hc Hpre. split; [|split].
  - intros Hs.
    apply (refresh_display_stops WIDTH HEIGHT devs pre post d i _ Hw Hh Hc Hpre).
    now rewrite Hs.
  - intros s Hs Hu.
    apply (refresh_display_stops WIDTH HEIGHT devs pre post d i _ Hw Hh Hc Hpre).
    rewrite Hs. cbn [obind]. now apply draw_graph_unread.
  - eexists. split; [reflexivity|].
    apply (refresh_display_stops WIDTH HEIGHT _ [] _ 0 0 _ Hw Hh eq_refl).
    + constructor.
    + set (s := Sensor.mk "Light" IRRADIANCE 160 (replicate (Z.to_nat 160) None)
                  0 _decode_light 0 150 false).
      change (Sensor.draw_graph s (WIDTH / 2 - 4) (HEIGHT / 4 - 4) 4 2
              = Raise TypeError).
      apply draw_graph_unread. split; reflexivity.
Qed.

Lemma refresh_display_raises_one_unread :
  Demo.refresh_display 640 480 one_unread = Raise TypeError.
Proof.
  destruct (refresh_display_raises 640 480 one_unread
              [(0, 0); (0, 1)]%nat
              [(0, 3); (1, 0); (1, 1); (1, 2); (1, 3)]%nat 0 2)
    as (_ & H & _).
  - apply Z.div_le_lower_bound; lia.
  - apply Z.div_le_lower_bound; lia.
  - reflexivity.
  - repeat constructor; exists demo_temp;
      (split; [reflexivity | exact drawable_demo_temp]).
  - apply (H temp_sensor); [reflexivity|]. split; reflexivity.
Defined.

(** ** The demo script: one pass of [main] *)

Lemma update_unlocated (T : transport) (d : Device.t) :
  Device.device d = None ->
  Forall (fun a => matches d a = false) (scan T) ->
  fst (Device.run_update T d) = Raise AttributeError.
Proof.
  intros Hd HF. unfold Device.run_update, Device.update.
  unfold bind at 1. unfold gets at 1. cbn [fst snd Device.self].
  unfold bind at 1. unfold Device.emit at 1, modify at 1.
  cbn [Device.self Device.trace app].
  unfold bind at 1. unfold Device.find.
  unfold bind at 1. unfold gets at 1. cbn [Device.self]. rewrite Hd.
  unfold bind at 1. unfold Device.emit at 1, modify at 1.
  cbn [Device.self Device.trace app].
  rewrite (scan_loop_no_match (scan T) d _ Hd HF).
  reflexivity.
Qed.

(** A scan either holds no advertisement that matches, or a first one. *)
Lemma scan_split (d : Device.t) (l : list advertisement) :
  Forall (fun a => matches d a = false) l \/
  exists pre a post,
    l = pre ++ a :: post /\
    Forall (fun x => matches d x = false) pre /\
    matches d a = true.
Proof.
  induction l as [|x l IH]; [left; constructor|].
  destruct (matches d x) eqn:E.
  - right. exists [], x, l. split; [reflexivity|]. split; [constructor | exact E].
  - destruct IH as [H | (pre & a & post & -> & Hp & Ha)].
    + left. now constructor.
    + right. exists (x :: pre), a, post. split; [reflexivity|].
      split; [now constructor | exact Ha].
Qed.

Lemma service_all_returned (svc : gatt_service) (l : list Sensor.t) :
  snd (service_all svc l) = Ret tt ->
  Forall (fun s => snd (serviced svc s) = Ret tt) l.
Proof.
  induction l as [|s l IH]; [constructor|]. cbn [service_all].
  destruct (snd (serviced svc s)) as [[]|e] eqn:E.
  - destruct (service_all svc l) as [[rest' evs] r]. cbn [snd] in *.
    intros ->. constructor; auto.
  - cbn [snd]. discriminate.
Qed.

(** A sensor whose cursor a cycle moved off 0 was read in that cycle. *)
Lemma serviced_read (svc : gatt_service) (s : Sensor.t) :
  Sensor.dptr s = 0%nat ->
  snd (serviced svc s) = Ret tt ->
  Sensor.dptr (fst (serviced svc s)) <> 0%nat ->
  exists ch raw v,
    characteristic_of svc (Sensor.uuid s) = Ret ch /\
    read ch = Ret raw /\
    Sensor.decode s raw = Ret v.
Proof.
  intros Hp Hr Hd. unfold serviced in *.
  destruct (characteristic_of svc (Sensor.uuid s)) as [ch|e] eqn:Hch.
  - cbn [fst snd] in *. destruct (read ch) as [raw|e] eqn:Hread.
    + destruct (Sensor.decode s raw) as [v|e] eqn:Hdec; [eauto 6|].
      rewrite (update_raises s ch e) in Hr by eauto. discriminate.
    + rewrite (update_raises s ch e) in Hr by auto. discriminate.
  - destruct e; cbn [fst snd] in *; congruence.
Qed.

(** A cycle that returns and leaves every cursor off 0, on a device that
    was not located yet and whose sensors had recorded nothing, was
    answered throughout. *)
Lemma cycle_answered (T : transport) (d : Device.t) :
  Device.device d = None ->
  Forall (fun s => Sensor.dptr s = 0%nat) (Device.sensors d) ->
  Device.sensors d <> [] ->
  fst (Device.run_update T d) = Ret tt ->
  Forall (fun s => Sensor.dptr s <> 0%nat)
    (Device.sensors (Device.self (snd (Device.run_update T d)))) ->
  answers_all T d.
Proof.
  intros Hd H0 Hne Hret Hread.
  assert (Hsame : forall d1, Device.sensors d1 = Device.sensors d ->
            ~ Forall (fun s => Sensor.dptr s <> 0%nat) (Device.sensors d1)).
  { intros d1 -> HF. destruct (Device.sensors d) as [|s l]; [congruence|].
    apply Forall_cons in H0 as [H0 _]. apply Forall_cons in HF as [HF _].
    congruence. }
  destruct (scan_split d (scan T)) as [Hno | (pre & a & post & Hs & Hpre & Ha)].
  - rewrite (update_unlocated T d Hd Hno) in Hret. discriminate.
  - assert (Hloc : locates T d (adv_device a)
                     (with_device d (Some (adv_device a)))
                     (Scanned :: printed_results (pre ++ [a]))).
    { right. split; [exact Hd|]. exists pre, a, post. repeat split; assumption. }
    destruct (update_unreached T d _ _ _ Hloc) as (Hrun & Hsens & _).
    destruct (connect_to T (adv_device a)) as [c|e] eqn:Hc.
    + destruct (service_of c ENVIRONMENTAL_SENSING) as [[svc|]|e] eqn:Hsvc.
      * rewrite (update_located T d _ _ _ c svc Hloc Hc Hsvc) in Hret, Hread.
        cbn [fst snd Device.self with_sensors Device.sensors] in Hret, Hread.
        pose proof (service_all_returned svc _ Hret) as Hok.
        rewrite (service_all_ok svc _ Hok) in Hread. cbn [fst] in Hread.
        exists pre, a, post, c, svc. repeat split; try assumption.
        rewrite Forall_fmap in Hread.
        rewrite Forall_forall in H0, Hok, Hread. apply Forall_forall.
        intros s Hin. apply serviced_read; auto. apply (Hread s Hin).
      * rewrite Hrun in Hread. exfalso. eapply Hsame; [|exact Hread].
        exact Hsens.
      * rewrite Hrun in Hret. discriminate.
    + destruct e; rewrite Hrun in Hret, Hread; try discriminate.
      exfalso. eapply Hsame; [|exact Hread]. exact Hsens.
Qed.

Lemma fresh_fixed_fields (s : Sensor.t) :
  fresh_fixed s ->
  Sensor.dptr s = 0%nat /\ Sensor.autorange s = false /\
  (Sensor.lower s < Sensor.upper s)%Q.
Proof.
  intros (c & n & u & lo & hi & _ & Hlh & Hi). unfold Sensor.__init__ in Hi.
  destruct (DECODERS !! u); [|discriminate]. injection Hi as <-.
  repeat split. exact Hlh.
Qed.

(** The first reading of a sensor as the constructor built it. *)
Lemma first_update (s : Sensor.t) (ch : characteristic)
    (raw : list Byte.byte) (v : Q) :
  fresh_fixed s ->
  read ch = Ret raw ->
  Sensor.decode s raw = Ret v ->
  fst (Sensor.update ch s) = Ret tt /\ drawable (snd (Sensor.update ch s)).
Proof.
  intros Hf Hread Hdec.
  destruct (fresh_fixed_fields s Hf) as (_ & Hauto & Hlu).
  destruct Hf as (c & n & u & lo & hi & Hn & _ & Hi).
  destruct (tracked_after n c u (Some (lo, hi)) s [ch] [v])
    as (s1 & Hu & Ht & Hcap & _); [lia | exact Hi | |].
  { repeat constructor. exists raw. split; assumption. }
  assert (Hup : Sensor.update ch s = (Ret tt, s1)).
  { unfold updates in Hu. cbn [for_each] in Hu. unfold bind, ret in Hu.
    destruct (Sensor.update ch s) as [[[]|e] s']; congruence. }
  destruct (update_fields s ch) as (_ & _ & Hfix).
  destruct (Hfix Hauto) as [Hlo Hhi].
  rewrite Hup in *. cbn [fst snd] in *. split; [reflexivity|].
  split; [exact Hcap|]. split; [now rewrite Hlo, Hhi|].
  destruct (tracks_window n (Sensor.decode s) [v] s1)
    as (rest & Hlog & Hptr & Hlen);
    [lia | exact Ht |].
  exists (window n [v]), rest. split; [|split; assumption].
  intros E. rewrite E in Hlen. cbn [length] in Hlen. lia.
Qed.

(** A cycle that is answered throughout, on a device that was not located
    yet and whose sensors are as the constructor built them, returns and
    leaves every sensor drawable. *)
Lemma cycle_of_answers (T : transport) (d : Device.t) :
  Device.device d = None ->
  Forall fresh_fixed (Device.sensors d) ->
  answers_all T d ->
  fst (Device.run_update T d) = Ret tt /\
  Forall drawable (Device.sensors (Device.self (snd (Device.run_update T d)))).
Proof.
  intros Hd Hf (pre & a & post & c & svc & Hs & Hpre & Ha & Hc & Hsvc & Hall).
  assert (Hloc : locates T d (adv_device a)
                   (with_device d (Some (adv_device a)))
                   (Scanned :: printed_results (pre ++ [a]))).
  { right. split; [exact Hd|]. exists pre, a, post. repeat split; assumption. }
  assert (Hok : Forall (fun s => snd (serviced svc s) = Ret tt /\
                                 drawable (fst (serviced svc s)))
                  (Device.sensors d)).
  { rewrite Forall_forall in Hf, Hall. apply Forall_forall. intros s Hin.
    destruct (Hall s Hin) as (ch & raw & v & Hch & Hread & Hdec).
    destruct (first_update s ch raw v (Hf s Hin) Hread Hdec) as [H1 H2].
    unfold serviced. rewrite Hch. cbn [fst snd]. split; assumption. }
  rewrite (update_located T d _ _ _ c svc Hloc Hc Hsvc).
  cbn [fst snd Device.self with_sensors Device.sensors].
  rewrite (service_all_ok svc (Device.sensors d)).
  2:{ eapply Forall_impl; [exact Hok|]. intros s [H _]. exact H. }
  cbn [fst snd]. split; [reflexivity|].
  rewrite Forall_fmap. eapply Forall_impl; [exact Hok|].
  intros s [_ H]. exact H.
Qed.

Lemma draw_graph_returned (s : Sensor.t) (w h bar_width bar_margin : Z)
    (p : Demo.panel) :
  Sensor.draw_graph s w h bar_width bar_margin = Ret p ->
  Sensor.dptr s <> 0%nat.
Proof.
  unfold Sensor.draw_graph, Sensor.draw_graph_stats, Sensor.min_max_avg.
  intros H E. rewrite E in H. cbn [Nat.eqb] in H.
  destruct (Sensor.draw_graph_bars s w h bar_width bar_margin);
    cbn [obind] in H; discriminate.
Qed.

Lemma draw_each_returned (devs : list Device.t) (GW GH : Z)
    (cs : list (nat * nat)) (ps : list Demo.panel) :
  Demo.draw_each devs GW GH cs = Ret ps ->
  Forall (fun c => exists s,
            Demo.sensor_at devs (fst c) (snd c) = Ret s /\
            Sensor.dptr s <> 0%nat) cs.
Proof.
  revert ps. induction cs as [|[d i] cs IH]; intros ps H; [constructor|].
  cbn [Demo.draw_each] in H.
  destruct (Demo.sensor_at devs d i) as [s|] eqn:Hs; [|discriminate].
  cbn [obind] in H.
  destruct (Sensor.draw_graph s GW GH 4 2) as [p|] eqn:Hg; [|discriminate].
  cbn [obind] in H.
  destruct (Demo.draw_each devs GW GH cs) as [ps'|] eqn:Hps; [|discriminate].
  constructor; [|eapply IH; reflexivity].
  exists s. split; [exact Hs | eapply draw_graph_returned; exact Hg].
Qed.

(** What [devices] holds when the script has loaded. *)
Lemma devices_built (built : list Device.t) :
  Demo.devices = Ret built ->
  exists d0 d1,
    built = [d0; d1] /\
    Forall (fun d => Device.device d = None /\
                     length (Device.sensors d) = 4%nat /\
                     Forall fresh_fixed (Device.sensors d)) [d0; d1].
Proof.
  unfold Demo.devices. intros H.
  destruct (Sensor.__init__ "Light" 160 IRRADIANCE (Some (0, 150)%Q))
    as [l|] eqn:El; [|discriminate]. cbn [obind] in H.
  destruct (Sensor.__init__ "Temp" 160 TEMPERATURE (Some (20, 40)%Q))
    as [t|] eqn:Et; [|discriminate]. cbn [obind] in H.
  destruct (Sensor.__init__ "Pressure" 160 PRESSURE (Some (1000, 1100)%Q))
    as [p|] eqn:Ep; [|discriminate]. cbn [obind] in H.
  destruct (Sensor.__init__ "Humidity" 160 HUMIDITY (Some (0, 100)%Q))
    as [h|] eqn:Eh; [|discriminate]. cbn [obind] in H.
  injection H as <-. eexists _, _. split; [reflexivity|].
  assert (F : Forall fresh_fixed [l; t; p; h]).
  { repeat constructor.
    - exists "Light"%string, 160%nat, IRRADIANCE, 0%Q, 150%Q.
      split; [lia|]. split; [reflexivity | exact El].
    - exists "Temp"%string, 160%nat, TEMPERATURE, 20%Q, 40%Q.
      split; [lia|]. split; [reflexivity | exact Et].
    - exists "Pressure"%string, 160%nat, PRESSURE, 1000%Q, 1100%Q.
      split; [lia|]. split; [reflexivity | exact Ep].
    - exists "Humidity"%string, 160%nat, HUMIDITY, 0%Q, 100%Q.
      split; [lia|]. split; [reflexivity | exact Eh]. }
  constructor; [|constructor; [|constructor]];
    (split; [reflexivity | split; [reflexivity | exact F]]).
Qed.

(** One cycle on one of the script's devices before anything was read. *)
Lemma cycle_fresh (T : transport) (d : Device.t) :
  Device.device d = None ->
  length (Device.sensors d) = 4%nat ->
  Forall fresh_fixed (Device.sensors d) ->
  length (Device.sensors (Device.self (snd (Device.run_update T d)))) = 4%nat /\
  (fst (Device.run_update T d) = Ret tt ->
   Forall (fun s => Sensor.dptr s <> 0%nat)
     (Device.sensors (Device.self (snd (Device.run_update T d)))) ->
   answers_all T d) /\
  (answers_all T d ->
   fst (Device.run_update T d) = Ret tt /\
   Forall drawable (Device.sensors (Device.self (snd (Device.run_update T d))))).
Proof.
  intros Hd Hl Hf. split; [|split].
  - destruct (steady_update T (Device.World d [])) as (_ & _ & HF2 & _).
    apply Forall2_length in HF2. cbn [Device.self] in HF2.
    unfold Device.run_update. congruence.
  - apply cycle_answered; [exact Hd | | ].
    + eapply Forall_impl; [exact Hf|]. intros s Hs.
      now destruct (fresh_fixed_fields s Hs).
    + intros E. rewrite E in Hl. discriminate.
  - now apply cycle_of_answers.
Qed.

(** X24: the first pass of [main] over the devices of the script, on a
    display of at least 8 x 136, whatever the stack answers.  The pass
    gets through its two cycles and through [refresh_display] exactly when
    both cycles are answered throughout: the scan yields the device, the
    connection and the service are there, and each of the four
    characteristics resolves, reads and decodes.  In every other case the
    pass does not return: it ends with an exception, from a cycle or from
    [refresh_display] on a sensor that has no reading yet. *)
Theorem first_pass_needs_every_reading (WIDTH HEIGHT : Z)
    (answers : nat -> transport) (built : list Device.t) :
  4 <= WIDTH / 2 ->
  34 <= HEIGHT / 4 ->
  Demo.devices = Ret built ->
  (exists panels,
     fst (fst (Demo.main_pass WIDTH HEIGHT answers built)) = Ret panels) <->
  (forall i d, built !! i = Some d -> answers_all (answers i) d).
Proof.
  intros Hw Hh Hb.
  destruct (devices_built built Hb) as (d0 & d1 & -> & HF).
  apply Forall_cons in HF as [(Hd0 & Hl0 & Hf0) HF].
  apply Forall_cons in HF as [(Hd1 & Hl1 & Hf1) _].
  destruct (cycle_fresh (answers 0%nat) d0 Hd0 Hl0 Hf0) as (L0 & A0 & B0).
  destruct (cycle_fresh (answers 1%nat) d1 Hd1 Hl1 Hf1) as (L1 & A1 & B1).
  unfold Demo.main_pass. cbv zeta. cbn [Demo.update_each]. cbv zeta.
  destruct (Device.run_update (answers 0%nat) d0) as [r0 w0].
  destruct (Device.run_update (answers 1%nat) d1) as [r1 w1].
  cbn [fst snd] in *.
  destruct (Device.self w0) as [u0 n0 ss0 h0].
  destruct (Device.self w1) as [u1 n1 ss1 h1].
  cbn [Device.sensors] in *.
  destruct ss0 as [|a0 [|a1 [|a2 [|a3 [|]]]]]; try discriminate L0.
  destruct ss1 as [|b0 [|b1 [|b2 [|b3 [|]]]]]; try discriminate L1.
  split.
  - intros [ps Hps].
    destruct r0 as [[]|e0]; [|discriminate]. cbn [fst snd] in Hps.
    destruct r1 as [[]|e1]; [|discriminate]. cbn [fst snd] in Hps.
    destruct (Demo.refresh_display _ _ _) as [ps'|] eqn:Hr in Hps;
      [|discriminate].
    unfold Demo.refresh_display in Hr. cbv zeta in Hr.
    apply draw_each_returned in Hr. unfold Demo.calls in Hr.
    apply Forall_cons in Hr as [(s00 & E00 & P00) Hr].
    apply Forall_cons in Hr as [(s01 & E01 & P01) Hr].
    apply Forall_cons in Hr as [(s02 & E02 & P02) Hr].
    apply Forall_cons in Hr as [(s03 & E03 & P03) Hr].
    apply Forall_cons in Hr as [(s10 & E10 & P10) Hr].
    apply Forall_cons in Hr as [(s11 & E11 & P11) Hr].
    apply Forall_cons in Hr as [(s12 & E12 & P12) Hr].
    apply Forall_cons in Hr as [(s13 & E13 & P13) _].
    cbn in E00, E01, E02, E03, E10, E11, E12, E13.
    injection E00 as <-. injection E01 as <-. injection E02 as <-.
    injection E03 as <-. injection E10 as <-. injection E11 as <-.
    injection E12 as <-. injection E13 as <-.
    intros i d Hi. destruct i as [|[|i]]; cbn in Hi.
    + injection Hi as <-. apply A0; [reflexivity|]. repeat constructor; assumption.
    + injection Hi as <-. apply A1; [reflexivity|]. repeat constructor; assumption.
    + discriminate.
  - intros Hall.
    destruct (B0 (Hall 0%nat d0 eq_refl)) as [-> D0].
    destruct (B1 (Hall 1%nat d1 eq_refl)) as [-> D1].
    cbn [fst snd].
    apply Forall_cons in D0 as [Da0 D0]. apply Forall_cons in D0 as [Da1 D0].
    apply Forall_cons in D0 as [Da2 D0]. apply Forall_cons in D0 as [Da3 _].
    apply Forall_cons in D1 as [Db0 D1]. apply Forall_cons in D1 as [Db1 D1].
    apply Forall_cons in D1 as [Db2 D1]. apply Forall_cons in D1 as [Db3 _].
    unfold Demo.refresh_display. cbv zeta.
    match goal with
    | |- context [Demo.draw_each ?devs ?gw ?gh Demo.calls] =>
        destruct (draw_each_drawable devs gw gh Demo.calls) as (ps & Hps & _);
          [lia | lia | | rewrite Hps; now exists ps]
    end.
    unfold Demo.calls.
    repeat constructor; cbn [fst snd]; eexists; (split; [reflexivity|]);
      assumption.
Qed.

Lemma first_pass_needs_every_reading_script :
  (exists panels,
     fst (fst (Demo.main_pass 640 480 all_answered script_devices))
     = Ret panels) /\
  ~ (exists panels,
       fst (fst (Demo.main_pass 640 480 (fun _ => out_of_reach) script_devices))
       = Ret panels).
Proof.
  split.
  - apply (first_pass_needs_every_reading 640 480 all_answered script_devices).
    + apply Z.div_le_lower_bound; lia.
    + apply Z.div_le_lower_bound; lia.
    + reflexivity.
    + intros i d Hi. destruct i as [|[|i]]; cbn in Hi; [| |discriminate];
        injection Hi as <-.
      * exists [stranger; other_service], enviro, [stranger].
        eexists _, _. split; [reflexivity|].
        split; [repeat constructor|]. split; [reflexivity|].
        split; [reflexivity|]. split; [reflexivity|].
        repeat constructor; eexists _, _, _; repeat split; reflexivity.
      * exists [], stranger, [other_service; enviro; stranger].
        eexists _, _. split; [reflexivity|].
        split; [repeat constructor|]. split; [reflexivity|].
        split; [reflexivity|]. split; [reflexivity|].
        repeat constructor; eexists _, _, _; repeat split; reflexivity.
  - intros H.
    destruct (first_pass_needs_every_reading 640 480 (fun _ => out_of_reach)
                script_devices) as [Hfw _].
    + apply Z.div_le_lower_bound; lia.
    + apply Z.div_le_lower_bound; lia.
    + reflexivity.
    + destruct (Hfw H 0%nat _ eq_refl)
        as (pre & a & post & c & svc & _ & _ & _ & Hc & _).
      discriminate Hc.
Defined.
